(** * TEZ: a shallow embedding of the embedded-zipfile reader

    The development follows [tez.hh], [tez_archive.cc] and [tez_file.cc]:
    the archive object with its [std::istream] over the executable, the
    end-of-central-directory scan, the central-directory parser, the
    local-header resolver, the name index, and the two stream buffers
    ([stored_data_streambuf] and [deflated_streambuf]).

    Conventions.
    - A [uint32_t] or [uint16_t] is a [Z] with the wrap-around written out
      ([u32], [u16]); [ssize_t] and [std::streamoff] are taken to be 64 bits
      wide (LP64), wide enough for every value the code computes with them.
    - A byte is a [Byte.byte]; a [std::string] is a [list byte].
    - The executable on disk is an [image]: a size and a byte at every offset.
    - Code that can throw lives in the monad [M S], which threads the state
      [S] and keeps the state reached at the moment of the throw, so that
      a handler (and the caller) sees what the code left behind.
    - An [assert] that fails and behaviour the C++ standard leaves undefined
      are the third kind of outcome, [Crash]; no handler catches them. Loops
      that need not terminate take a bound, and report [fuel_exhausted]
      when it is reached.
    - zlib is not part of the repository: [inflate] and [inflateReset] are
      the fields of an interface record, [zlib]; [crc32] is CRC-32. *)

From Stdlib Require Import ZArith Strings.Byte String Lia.
From stdpp Require Import base option list countable gmap.

Local Open Scope Z_scope.

(** ** Machine integers and bytes *)

Definition u8 (b : byte) : Z := Z.of_N (Byte.to_N b).

Definition u16 (z : Z) : Z := z mod 65536.
Definition u32 (z : Z) : Z := z mod 4294967296.

(** [p[i]] for a pointer [p] into a buffer whose remaining bytes are [p]. *)
Definition byte_at (p : list byte) (i : nat) : Z := u8 (nth i p x00).

Definition get_uint32 (p : list byte) : Z :=
  Z.lor (byte_at p 0)
    (Z.lor (Z.shiftl (byte_at p 1) 8)
       (Z.lor (Z.shiftl (byte_at p 2) 16) (Z.shiftl (byte_at p 3) 24))).

Definition get_uint16 (p : list byte) : Z :=
  Z.lor (byte_at p 0) (Z.shiftl (byte_at p 1) 8).

Definition END_OF_CENTRAL_DIRECTORY_LEN : Z := 22.
Definition CENTRAL_DIRECTORY_RECORD_LEN : Z := 46.
Definition LOCAL_FILE_HEADER_LEN : Z := 30.
Definition METHOD_STORE : Z := 0.
Definition METHOD_DEFLATE : Z := 8.

#[global] Instance byte_eq_dec : EqDecision byte.
Proof.
  intros a b. destruct (Byte.eqb a b) eqn:E.
  - left. apply Byte.byte_dec_bl. exact E.
  - right. apply Byte.eqb_false. exact E.
Defined.

#[global] Instance byte_countable : Countable byte :=
  inj_countable Byte.to_N Byte.of_N Byte.of_to_N.

(** ** Outcomes and the state-and-exception monad *)

Inductive exn : Type :=
| system_error
| ios_failure
| out_of_range (what : string)
| runtime_error (what : string).

Inductive crash : Type :=
| assertion_failed
| undefined_behaviour
| fuel_exhausted.    (* a loop bound of the model was reached: no verdict *)

Inductive outcome (A : Type) : Type :=
| Ok (a : A)
| Throw (e : exn)
| Crash (c : crash).

Arguments Ok {A} a.
Arguments Throw {A} e.
Arguments Crash {A} c.

Definition M (S A : Type) : Type := S -> outcome A * S.

Definition ret {S A} (a : A) : M S A := fun s => (Ok a, s).

Definition bind {S A B} (m : M S A) (k : A -> M S B) : M S B :=
  fun s =>
    match m s with
    | (Ok a, s') => k a s'
    | (Throw e, s') => (Throw e, s')
    | (Crash c, s') => (Crash c, s')
    end.

Definition throw {S A} (e : exn) : M S A := fun s => (Throw e, s).
Definition abort {S A} (c : crash) : M S A := fun s => (Crash c, s).

(** [try { body } catch(...) { handler; }]: the handler runs in the state
    the body reached, and gets the exception in flight (for [throw;]). *)
Definition try_catch {S A} (body : M S A) (handler : exn -> M S A) : M S A :=
  fun s =>
    match body s with
    | (Throw e, s') => handler e s'
    | r => r
    end.

Definition get_state {S} : M S S := fun s => (Ok s, s).
Definition modify {S} (f : S -> S) : M S unit := fun s => (Ok tt, f s).
Definition assert_that {S} (b : bool) : M S unit :=
  if b then ret tt else abort assertion_failed.

Declare Scope tez_scope.
Delimit Scope tez_scope with tez.
Notation "x <- m ;; k" := (bind m (fun x => k))
  (at level 100, m at next level, right associativity) : tez_scope.
Notation "m ;;; k" := (bind m (fun _ => k))
  (at level 100, right associativity) : tez_scope.
Local Open Scope tez_scope.

(** ** The executable image and the archive object *)

Record image : Type := { img_size : Z; img_byte : Z -> byte }.

(** The [n] bytes of [img] from offset [off] on. *)
Fixpoint img_bytes_from (img : image) (off : Z) (n : nat) : list byte :=
  match n with
  | O => []
  | S n' => img_byte img off :: img_bytes_from img (off + 1) n'
  end.

(** The bytes of [img] at offsets [off], [off+1], ..., [off+len-1]. *)
Definition img_bytes (img : image) (off len : Z) : list byte :=
  img_bytes_from img off (Z.to_nat len).

Record file : Type := {
  f_offset : Z;
  f_crc32 : Z;
  f_compressed_size : Z;
  f_uncompressed_size : Z;
  f_filename : option (list byte);   (* const std::string*, owned by file_map *)
  f_comment : option (list byte);    (* std::unique_ptr<std::string> *)
  f_method : Z
}.

(** What [std::make_unique<file[]>(n)] puts in every slot. *)
Definition file_zero : file :=
  {| f_offset := 0; f_crc32 := 0; f_compressed_size := 0;
     f_uncompressed_size := 0; f_filename := None; f_comment := None;
     f_method := 0 |}.

Record archive : Type := {
  files : option (list file);        (* the std::unique_ptr<file[]> base *)
  buf : option image;                (* std::filebuf: the open file, if any *)
  buf_pos : Z;                       (* its read position *)
  stream_failed : bool;              (* stream.rdstate() != goodbit *)
  stream_exceptions : bool;          (* stream.exceptions() is fail|bad|eof *)
  reads : list (Z * Z);              (* every physical read so far, newest
                                        first: (offset, length) *)
  streampos : Z;
  file_count : Z;
  file_map : gmap (list byte) Z;
  comment : option (list byte)
}.

(** [archive() : stream(&buf), streampos(0) {}] *)
Definition archive_new : archive :=
  {| files := None; buf := None; buf_pos := 0; stream_failed := false;
     stream_exceptions := false; reads := []; streampos := 0;
     file_count := 0; file_map := ∅; comment := None |}.

Definition with_files (v : option (list file)) (a : archive) : archive :=
  {| files := v; buf := buf a; buf_pos := buf_pos a;
     stream_failed := stream_failed a;
     stream_exceptions := stream_exceptions a; reads := reads a;
     streampos := streampos a; file_count := file_count a;
     file_map := file_map a; comment := comment a |}.

Definition with_buf (v : option image) (p : Z) (a : archive) : archive :=
  {| files := files a; buf := v; buf_pos := p;
     stream_failed := stream_failed a;
     stream_exceptions := stream_exceptions a; reads := reads a;
     streampos := streampos a; file_count := file_count a;
     file_map := file_map a; comment := comment a |}.

Definition with_stream_failed (v : bool) (a : archive) : archive :=
  {| files := files a; buf := buf a; buf_pos := buf_pos a;
     stream_failed := v;
     stream_exceptions := stream_exceptions a; reads := reads a;
     streampos := streampos a; file_count := file_count a;
     file_map := file_map a; comment := comment a |}.

Definition with_stream_exceptions (v : bool) (a : archive) : archive :=
  {| files := files a; buf := buf a; buf_pos := buf_pos a;
     stream_failed := stream_failed a;
     stream_exceptions := v; reads := reads a;
     streampos := streampos a; file_count := file_count a;
     file_map := file_map a; comment := comment a |}.

Definition with_reads (v : list (Z * Z)) (a : archive) : archive :=
  {| files := files a; buf := buf a; buf_pos := buf_pos a;
     stream_failed := stream_failed a;
     stream_exceptions := stream_exceptions a; reads := v;
     streampos := streampos a; file_count := file_count a;
     file_map := file_map a; comment := comment a |}.

Definition with_streampos (v : Z) (a : archive) : archive :=
  {| files := files a; buf := buf a; buf_pos := buf_pos a;
     stream_failed := stream_failed a;
     stream_exceptions := stream_exceptions a; reads := reads a;
     streampos := v; file_count := file_count a;
     file_map := file_map a; comment := comment a |}.

Definition with_file_count (v : Z) (a : archive) : archive :=
  {| files := files a; buf := buf a; buf_pos := buf_pos a;
     stream_failed := stream_failed a;
     stream_exceptions := stream_exceptions a; reads := reads a;
     streampos := streampos a; file_count := v;
     file_map := file_map a; comment := comment a |}.

Definition with_file_map (v : gmap (list byte) Z) (a : archive) : archive :=
  {| files := files a; buf := buf a; buf_pos := buf_pos a;
     stream_failed := stream_failed a;
     stream_exceptions := stream_exceptions a; reads := reads a;
     streampos := streampos a; file_count := file_count a;
     file_map := v; comment := comment a |}.

Definition with_comment (v : option (list byte)) (a : archive) : archive :=
  {| files := files a; buf := buf a; buf_pos := buf_pos a;
     stream_failed := stream_failed a;
     stream_exceptions := stream_exceptions a; reads := reads a;
     streampos := streampos a; file_count := file_count a;
     file_map := file_map a; comment := v |}.

(** ** The [std::istream] operations the archive uses

    [stream] reads from [buf].  An operation that fails sets an error bit;
    with [stream.exceptions(failbit | badbit | eofbit)] in force that throws
    [std::ios_base::failure]. *)

Definition stream_fail {A} (dflt : A) : M archive A :=
  fun a =>
    let a' := with_stream_failed true a in
    if stream_exceptions a then (Throw ios_failure, a') else (Ok dflt, a').

(** [stream.exceptions(failbit | badbit | eofbit)]: installs the mask and
    throws at once when an error bit is already set. *)
Definition stream_set_exceptions : M archive unit :=
  fun a =>
    let a' := with_stream_exceptions true a in
    if stream_failed a then (Throw ios_failure, a') else (Ok tt, a').

(** [stream.setstate(goodbit)], that is [clear(rdstate() | goodbit)]: the
    state is unchanged, and the mask is applied to it again. *)
Definition stream_setstate_goodbit : M archive unit :=
  fun a =>
    if stream_failed a && stream_exceptions a
    then (Throw ios_failure, a) else (Ok tt, a).

(** [stream.seekg(off)] *)
Definition stream_seekg (off : Z) : M archive unit :=
  fun a =>
    if stream_failed a then stream_fail tt a
    else match buf a with
         | None => stream_fail tt a
         | Some img =>
             if off <? 0 then stream_fail tt a
             else (Ok tt, with_buf (Some img) off a)
         end.

(** [stream.seekg(0, std::istream::end)] *)
Definition stream_seekg_end : M archive unit :=
  fun a =>
    if stream_failed a then stream_fail tt a
    else match buf a with
         | None => stream_fail tt a
         | Some img => (Ok tt, with_buf (Some img) (img_size img) a)
         end.

(** [stream.seekg(off, std::istream::cur)] *)
Definition stream_seekg_cur (off : Z) : M archive unit :=
  fun a => stream_seekg (buf_pos a + off) a.

(** [stream.tellg()] *)
Definition stream_tellg : M archive Z :=
  fun a =>
    if stream_failed a then (Ok (-1), a)
    else match buf a with
         | None => (Ok (-1), a)
         | Some _ => (Ok (buf_pos a), a)
         end.

(** [stream.read(p, n)]: the bytes stored and [stream.gcount()]. A short
    read sets [eofbit | failbit]. *)
Definition stream_read (n : Z) : M archive (list byte) :=
  fun a =>
    if stream_failed a then stream_fail [] a
    else match buf a with
         | None => if n =? 0 then (Ok [], a) else stream_fail [] a
         | Some img =>
             let pos := buf_pos a in
             if (n =? 0) || (pos + n <=? img_size img) then
               (Ok (img_bytes img pos n),
                with_reads ((pos, n) :: reads a)
                  (with_buf (Some img) (pos + n) a))
             else
               let got := Z.max 0 (img_size img - pos) in
               stream_fail (img_bytes img pos got)
                 (with_buf (Some img) (Z.max pos (img_size img)) a)
         end.

(** [stream.read(p, n); assert(stream.gcount() == n);] *)
Definition stream_read_exact (n : Z) : M archive (list byte) :=
  bs <- stream_read n ;;
  assert_that (Z.of_nat (length bs) =? n) ;;;
  ret bs.

(** ** [TEZ::archive::purge] *)

Definition purge : M archive unit :=
  modify (with_file_count 0) ;;;
  modify (with_files None) ;;;
  modify (fun a => with_buf None (buf_pos a) a) ;;;
  modify (with_file_map ∅) ;;;
  modify (with_comment None) ;;;
  stream_setstate_goodbit.

(** ** [TEZ::archive::read_eocd] *)

(** The [for] loop of the scan: [comment_len] runs upward from its start
    value; [todo] bounds the iterations left ([max_comment_len + 1 -
    comment_len]). The result is the value of [comment_len] after the loop. *)
Fixpoint eocd_scan (buf : list byte) (buf_len : Z) (comment_len : Z)
    (todo : nat) : Z :=
  match todo with
  | O => comment_len
  | S todo' =>
      let p := drop (Z.to_nat (buf_len - comment_len
                                - END_OF_CENTRAL_DIRECTORY_LEN)) buf in
      if get_uint32 p =? 0x06054b50 then comment_len
      else eocd_scan buf buf_len (comment_len + 1) todo'
  end.

(** The part of [read_eocd] after the scan: [p] points at the record
    found, [comment_len] bytes before the end of the buffer. *)
Definition eocd_decode (p : list byte) (comment_len : Z) : M archive Z :=
  if negb (forallb (fun b => u8 b =? 0) (take 4 (drop 4 p))) then
    throw (out_of_range "multipart zipfiles are not supported")
  else
    (* ignore the file count on this disk *)
    modify (with_file_count (get_uint16 (drop 10 p))) ;;;
    (* allocate the needed number of entries *)
    modify (fun a =>
      with_files (Some (replicate (Z.to_nat (file_count a)) file_zero)) a) ;;;
    (* ignore central directory size *)
    let cd_offset := get_uint32 (drop 16 p) in
    let comment_length := get_uint16 (drop 20 p) in
    (* [p+22 .. p+22+comment_length) has to lie inside the buffer *)
    if comment_length >? comment_len then abort undefined_behaviour
    else
      modify (with_comment
                (Some (take (Z.to_nat comment_length) (drop 22 p)))) ;;;
      ret cd_offset.

Definition read_eocd (file_size : Z) : M archive Z :=
  let max_comment_len := 65535 in
  (* the position of the longest possible end of central directory record *)
  let seek_off := (file_size - max_comment_len) - END_OF_CENTRAL_DIRECTORY_LEN in
  let max_comment_len :=
    if seek_off <? 0 then max_comment_len + seek_off else max_comment_len in
  let seek_off := if seek_off <? 0 then 0 else seek_off in
  if max_comment_len <? 0 then
    throw (out_of_range "executable too small to possibly be a zipfile")
  else
    stream_seekg seek_off ;;;
    let buf_len := max_comment_len + END_OF_CENTRAL_DIRECTORY_LEN in
    buf <- stream_read_exact buf_len ;;
    let comment_len :=
      eocd_scan buf buf_len 0 (Z.to_nat (max_comment_len + 1)) in
    if comment_len >? max_comment_len then
      throw (runtime_error "executable does not appear to contain a zipfile")
    else
      let p := drop (Z.to_nat (buf_len - comment_len
                                - END_OF_CENTRAL_DIRECTORY_LEN)) buf in
      eocd_decode p comment_len.

(** ** [TEZ::archive::read_central_directory] *)

Definition with_f_offset (v : Z) (f : file) : file :=
  {| f_offset := v; f_crc32 := f_crc32 f;
     f_compressed_size := f_compressed_size f;
     f_uncompressed_size := f_uncompressed_size f;
     f_filename := f_filename f; f_comment := f_comment f;
     f_method := f_method f |}.

Definition with_f_crc32 (v : Z) (f : file) : file :=
  {| f_offset := f_offset f; f_crc32 := v;
     f_compressed_size := f_compressed_size f;
     f_uncompressed_size := f_uncompressed_size f;
     f_filename := f_filename f; f_comment := f_comment f;
     f_method := f_method f |}.

Definition with_f_compressed_size (v : Z) (f : file) : file :=
  {| f_offset := f_offset f; f_crc32 := f_crc32 f;
     f_compressed_size := v;
     f_uncompressed_size := f_uncompressed_size f;
     f_filename := f_filename f; f_comment := f_comment f;
     f_method := f_method f |}.

Definition with_f_uncompressed_size (v : Z) (f : file) : file :=
  {| f_offset := f_offset f; f_crc32 := f_crc32 f;
     f_compressed_size := f_compressed_size f;
     f_uncompressed_size := v;
     f_filename := f_filename f; f_comment := f_comment f;
     f_method := f_method f |}.

Definition with_f_filename (v : option (list byte)) (f : file) : file :=
  {| f_offset := f_offset f; f_crc32 := f_crc32 f;
     f_compressed_size := f_compressed_size f;
     f_uncompressed_size := f_uncompressed_size f;
     f_filename := v; f_comment := f_comment f;
     f_method := f_method f |}.

Definition with_f_comment (v : option (list byte)) (f : file) : file :=
  {| f_offset := f_offset f; f_crc32 := f_crc32 f;
     f_compressed_size := f_compressed_size f;
     f_uncompressed_size := f_uncompressed_size f;
     f_filename := f_filename f; f_comment := v;
     f_method := f_method f |}.

Definition with_f_method (v : Z) (f : file) : file :=
  {| f_offset := f_offset f; f_crc32 := f_crc32 f;
     f_compressed_size := f_compressed_size f;
     f_uncompressed_size := f_uncompressed_size f;
     f_filename := f_filename f; f_comment := f_comment f;
     f_method := v |}.

(** [get()[i]] read: outside the allocated array the behaviour is undefined. *)
Definition file_ref (i : nat) : M archive file :=
  fun a =>
    match files a with
    | Some fs =>
        match fs !! i with
        | Some f => (Ok f, a)
        | None => (Crash undefined_behaviour, a)
        end
    | None => (Crash undefined_behaviour, a)
    end.

(** A store through [get()[i]]. *)
Definition file_update (i : nat) (g : file -> file) : M archive unit :=
  f <- file_ref i ;;
  modify (fun a => with_files (option_map (fun fs => <[i := g f]> fs) (files a)) a).

(** One turn of the first loop: the record of entry [fileno]. The value is
    the string stored in [filenames[fileno]]. *)
Definition read_cd_record (fileno : nat) : M archive (list byte) :=
  buf <- stream_read_exact CENTRAL_DIRECTORY_RECORD_LEN ;;
  if negb (get_uint32 buf =? 0x02014b50) then
    throw (runtime_error "central directory is corrupted")
  else if get_uint16 (drop 6 buf) >? 20 then
    throw (out_of_range "zipfile is not PKZIP 2.0 compatible")
  else
    let general_bitflag := get_uint16 (drop 8 buf) in
    if negb (Z.land general_bitflag 1 =? 0) then
      throw (out_of_range "zipfile contains an encrypted member")
    else if negb (Z.land general_bitflag 8 =? 0) then
      throw (out_of_range "zipfile uses Data Descriptors")
    else if negb (Z.land general_bitflag 0xF7F0 =? 0) then
      throw (out_of_range "zipfile member uses unsupported GPBF flags")
    else
      let method := get_uint16 (drop 10 buf) in
      file_update fileno (with_f_method method) ;;;
      if negb (method =? METHOD_STORE) && negb (method =? METHOD_DEFLATE) then
        throw (out_of_range
                 "zipfile uses a compression method other than deflate")
      else
        file_update fileno (with_f_crc32 (get_uint32 (drop 16 buf))) ;;;
        file_update fileno (with_f_compressed_size (get_uint32 (drop 20 buf))) ;;;
        file_update fileno
          (with_f_uncompressed_size (get_uint32 (drop 24 buf))) ;;;
        let filename_length := get_uint16 (drop 28 buf) in
        let extra_length := get_uint16 (drop 30 buf) in
        let comment_length := get_uint16 (drop 32 buf) in
        let disk_number := get_uint16 (drop 34 buf) in
        if disk_number >? 0 then
          throw (out_of_range "multipart zipfiles are not supported")
        else
          file_update fileno (with_f_offset (get_uint32 (drop 42 buf))) ;;;
          filename <- stream_read_exact filename_length ;;
          stream_seekg_cur extra_length ;;;
          (* [comment] is the archive's member here, not [file.comment] *)
          modify (with_comment (Some (replicate (Z.to_nat comment_length) x00))) ;;;
          c <- stream_read_exact comment_length ;;
          modify (with_comment (Some c)) ;;;
          ret filename.

(** The first loop, from [fileno] on, with [todo] records to go. *)
Fixpoint read_cd_records (fileno : nat) (todo : nat)
    : M archive (list (list byte)) :=
  match todo with
  | O => ret []
  | S todo' =>
      filename <- read_cd_record fileno ;;
      rest <- read_cd_records (S fileno) todo' ;;
      ret (filename :: rest)
  end.

(** [file_map.emplace(key, fileno)]: no effect when the key is present. *)
Definition emplace (key : list byte) (fileno : Z)
    (m : gmap (list byte) Z) : gmap (list byte) Z :=
  match m !! key with
  | Some _ => m
  | None => <[key := fileno]> m
  end.

(** The second loop. *)
Fixpoint emplace_all (filenames : list (list byte)) (fileno : Z)
    (m : gmap (list byte) Z) : gmap (list byte) Z :=
  match filenames with
  | [] => m
  | name :: rest => emplace_all rest (fileno + 1) (emplace name fileno m)
  end.

(** A store through [operator[]] of the archive, at position [i]. *)
Definition file_update_at (i : Z) (g : file -> file) : M archive unit :=
  if i <? 0 then abort undefined_behaviour else file_update (Z.to_nat i) g.

(** The third loop: every element of [file_map] hands its key to the entry
    it names. *)
Fixpoint link_filenames (elems : list (list byte * Z)) : M archive unit :=
  match elems with
  | [] => ret tt
  | (key, i) :: rest =>
      file_update_at i (with_f_filename (Some key)) ;;;
      link_filenames rest
  end.

(** [TEZ::file::read_header], called on entry [i]. *)
Definition read_header (i : nat) (offset : Z) : M archive unit :=
  stream_seekg offset ;;;
  buf <- stream_read_exact LOCAL_FILE_HEADER_LEN ;;
  if negb (get_uint32 buf =? 0x04034b50) then
    throw (runtime_error "file header is corrupted")
  else
    let filename_length := get_uint16 (drop 26 buf) in
    let extra_length := get_uint16 (drop 28 buf) in
    file_update i
      (with_f_offset
         (u32 (offset + LOCAL_FILE_HEADER_LEN + filename_length + extra_length))).

(** The fourth loop, from entry [i] on, with [todo] entries to go. *)
Fixpoint read_headers (i : nat) (todo : nat) : M archive unit :=
  match todo with
  | O => ret tt
  | S todo' =>
      f <- file_ref i ;;
      read_header i (f_offset f) ;;;
      read_headers (S i) todo'
  end.

Definition read_central_directory (cd_offset : Z) : M archive unit :=
  stream_seekg cd_offset ;;;
  a <- get_state ;;
  let n := Z.to_nat (file_count a) in
  filenames <- read_cd_records 0 n ;;
  modify (fun a => with_file_map (emplace_all filenames 0 (file_map a)) a) ;;;
  a <- get_state ;;
  link_filenames (map_to_list (file_map a)) ;;;
  read_headers 0 n.

(** ** [TEZ::archive::init]

    Finding and opening the running executable is the platform's part; its
    result is the argument [exe]: the image [buf.open] got hold of, or
    [None] when every attempt failed. *)

Definition buf_open (exe : option image) : M archive unit :=
  modify (with_buf exe 0).

(** The body of the [try] block. *)
Definition init_body : M archive unit :=
  stream_set_exceptions ;;;
  stream_seekg_end ;;;
  pos <- stream_tellg ;;
  if (pos <? 0) || (pos >? 0xFFFFFFFF) then
    throw (out_of_range
             "Zip64 is not implemented and this executable is too large")
  else
    file_size <- stream_tellg ;;
    if negb (file_size =? pos) then
      throw (out_of_range
               "Zip64 is not implemented and this executable is too large")
    else
      cd_offset <- read_eocd file_size ;;
      read_central_directory cd_offset.

Definition init (exe : option image) : M archive unit :=
  purge ;;;
  buf_open exe ;;;
  a <- get_state ;;
  if negb (bool_decide (is_Some (buf a))) then throw system_error
  else try_catch init_body (fun e => purge ;;; throw e).

(** ** [TEZ::archive::read_for_file] (the mutex is held from start to end) *)

Definition read_for_file (offset length : Z) : M archive (list byte) :=
  a <- get_state ;;
  (if negb (streampos a =? offset) then stream_seekg offset else ret tt) ;;;
  buffer <- stream_read_exact length ;;
  modify (with_streampos (u32 (offset + length))) ;;;
  ret buffer.

(** ** The container interface of [tez.hh] *)

Definition size (a : archive) : Z := file_count a.
Definition empty (a : archive) : bool := file_count a =? 0.

(** [begin()[index]]; an iterator is its distance from [begin()]. *)
Definition subscript (a : archive) (index : Z) : outcome file :=
  match files a with
  | Some fs =>
      if index <? 0 then Crash undefined_behaviour
      else match fs !! Z.to_nat index with
           | Some f => Ok f
           | None => Crash undefined_behaviour
           end
  | None => Crash undefined_behaviour
  end.

Definition at_ (a : archive) (index : Z) : outcome file :=
  if (index <? 0) || (index >=? file_count a) then
    Throw (out_of_range "file index out of range")
  else subscript a index.

(** [operator[](const std::string&)] *)
Definition subscript_name (a : archive) (filename : list byte) : outcome file :=
  match file_map a !! filename with
  | None => Throw (out_of_range "file index out of range")
  | Some i => subscript a i
  end.

Definition end_ (a : archive) : Z := file_count a.

Definition find (a : archive) (filename : list byte) : Z :=
  match file_map a !! filename with
  | None => end_ a
  | Some i => i
  end.

(** [archive::get_comment] *)
Definition get_comment : M archive (list byte) :=
  fun a =>
    match comment a with
    | Some c => (Ok c, a)
    | None => (Ok [], with_comment (Some []) a)
    end.

(** [file::get_comment]: the string, and the entry afterwards. *)
Definition file_get_comment (f : file) : list byte * file :=
  match f_comment f with
  | Some c => (c, f)
  | None => ([], with_f_comment (Some []) f)
  end.

(** [archive::purge_comment] *)
Definition purge_comment : M archive (list byte) :=
  fun a =>
    match comment a with
    | None => (Ok [], a)
    | Some c => (Ok c, with_comment None a)
    end.

(** [file::purge_comment]: the string, and the entry afterwards. *)
Definition file_purge_comment (f : file) : list byte * file :=
  match f_comment f with
  | None => ([], f)
  | Some c => (c, with_f_comment None f)
  end.

Definition get_filename (f : file) : outcome (list byte) :=
  match f_filename f with
  | Some name => Ok name
  | None => Crash undefined_behaviour
  end.

Definition is_directory (f : file) : outcome bool :=
  match f_filename f with
  | Some name =>
      match last name with
      | Some c => Ok (bool_decide (c = "/"%byte))
      | None => Ok false     (* should never happen *)
      end
  | None => Crash undefined_behaviour
  end.

(** ** [std::streambuf]: the get area and the reading primitives

    The get area is the triple [eback() <= gptr() <= egptr()]: here the bytes
    between [eback()] and [egptr()], and the distance from [eback()] to
    [gptr()]. A stream buffer works on its own state and, through
    [read_for_file], on the archive. *)

Record get_area : Type := { ga_bytes : list byte; ga_next : Z }.

(** [setg(nullptr, nullptr, nullptr)], also the state of a new buffer. *)
Definition no_get_area : get_area := {| ga_bytes := []; ga_next := 0 |}.

Definition lift_tez {SB A} (m : M archive A) : M (SB * archive) A :=
  fun s =>
    match m (snd s) with
    | (r, a') => (r, (fst s, a'))
    end.

Definition get_sb {SB} : M (SB * archive) SB := fun s => (Ok (fst s), s).

Definition modify_sb {SB} (f : SB -> SB) : M (SB * archive) unit :=
  fun s => (Ok tt, (f (fst s), snd s)).

(** The virtual interface. [underflow] and [seekpos] take the bound for
    the loops inside them; [None] is [traits_type::eof()]. *)
Class streambuf (SB : Type) : Type := {
  area : SB -> get_area;
  setg : get_area -> SB -> SB;
  underflow : nat -> M (SB * archive) (option byte);
  seekpos : nat -> Z -> M (SB * archive) Z
}.

Section StreambufBase.
Context {SB : Type} `{streambuf SB}.

(** [*gptr()] *)
Definition deref_gptr : M (SB * archive) byte :=
  sb <- get_sb ;;
  let g := area sb in
  if (0 <=? ga_next g) && (ga_next g <? Z.of_nat (length (ga_bytes g)))
  then ret (nth (Z.to_nat (ga_next g)) (ga_bytes g) x00)
  else abort undefined_behaviour.

(** [gbump(1)] *)
Definition gbump1 : M (SB * archive) unit :=
  modify_sb (fun sb =>
    setg {| ga_bytes := ga_bytes (area sb); ga_next := ga_next (area sb) + 1 |}
      sb).

(** [gptr() < egptr()] *)
Definition in_avail_pos (sb : SB) : bool :=
  ga_next (area sb) <? Z.of_nat (length (ga_bytes (area sb))).

Definition uflow (fuel : nat) : M (SB * archive) (option byte) :=
  c <- underflow fuel ;;
  match c with
  | None => ret None
  | Some _ => b <- deref_gptr ;; gbump1 ;;; ret (Some b)
  end.

Definition sgetc (fuel : nat) : M (SB * archive) (option byte) :=
  sb <- get_sb ;;
  if in_avail_pos sb then b <- deref_gptr ;; ret (Some b)
  else underflow fuel.

Definition sbumpc (fuel : nat) : M (SB * archive) (option byte) :=
  sb <- get_sb ;;
  if in_avail_pos sb then b <- deref_gptr ;; gbump1 ;;; ret (Some b)
  else uflow fuel.

(** Reading until end-of-data, one [sbumpc] after the other; [n] bounds
    the number of calls. The value is everything read before [eof]. *)
Fixpoint read_to_end (fuel : nat) (n : nat) : M (SB * archive) (list byte) :=
  match n with
  | O => abort fuel_exhausted
  | S n' =>
      c <- sbumpc fuel ;;
      match c with
      | None => ret []
      | Some b => rest <- read_to_end fuel n' ;; ret (b :: rest)
      end
  end.

(** Reading [n] characters, or fewer when end-of-data comes first. *)
Fixpoint read_n (fuel : nat) (n : nat) : M (SB * archive) (list byte) :=
  match n with
  | O => ret []
  | S n' =>
      c <- sbumpc fuel ;;
      match c with
      | None => ret []
      | Some b => rest <- read_n fuel n' ;; ret (b :: rest)
      end
  end.

End StreambufBase.

(** ** [stored_data_streambuf] *)

Module stored_data_streambuf.

Record t : Type := {
  start_pos : Z;
  cur_pos : Z;
  end_pos : Z;
  garea : get_area     (* into [buffer] *)
}.

Definition make (start_pos end_pos : Z) : t :=
  {| start_pos := start_pos; cur_pos := start_pos; end_pos := end_pos;
     garea := no_get_area |}.

Definition with_cur_pos (v : Z) (sb : t) : t :=
  {| start_pos := start_pos sb; cur_pos := v; end_pos := end_pos sb;
     garea := garea sb |}.

Definition with_garea (v : get_area) (sb : t) : t :=
  {| start_pos := start_pos sb; cur_pos := cur_pos sb; end_pos := end_pos sb;
     garea := v |}.

Definition showmanyc (sb : t) : Z := u32 (end_pos sb - cur_pos sb).

Definition underflow : M (t * archive) (option byte) :=
  sb <- get_sb ;;
  if cur_pos sb =? end_pos sb then ret None
  else
    let amount := u32 (end_pos sb - cur_pos sb) in
    let amount := if amount >? 4096 then 4096 else amount in
    buffer <- lift_tez (read_for_file (cur_pos sb) amount) ;;
    modify_sb (with_cur_pos (u32 (cur_pos sb + amount))) ;;;
    modify_sb (with_garea {| ga_bytes := buffer; ga_next := 0 |}) ;;;
    ret (Some (nth 0 buffer x00)).

Definition seekpos (off : Z) : M (t * archive) Z :=
  sb <- get_sb ;;
  let off :=
    if off <? 0 then 0
    else if off >? u32 (end_pos sb - start_pos sb)
         then u32 (end_pos sb - start_pos sb)
         else off in
  modify_sb (with_cur_pos (u32 (start_pos sb + off))) ;;;
  ret off.

Inductive seekdir : Type := beg | cur | end_.

Definition seekoff (off : Z) (dir : seekdir) : M (t * archive) Z :=
  sb <- get_sb ;;
  let off :=
    match dir with
    | beg => off
    | cur => off + u32 (cur_pos sb - start_pos sb)
    | end_ => off + u32 (end_pos sb - start_pos sb)
    end in
  seekpos off.

End stored_data_streambuf.

#[global] Instance stored_streambuf : streambuf stored_data_streambuf.t := {
  area := stored_data_streambuf.garea;
  setg := stored_data_streambuf.with_garea;
  underflow := fun _ => stored_data_streambuf.underflow;
  seekpos := fun _ => stored_data_streambuf.seekpos
}.

(** ** zlib, as far as [tez_file.cc] uses it

    A call [inflate(strm, 0)] sees the internal state, the [avail_in] bytes
    at [next_in] and the room [avail_out] at [next_out]; it gives back its
    return code, the new internal state, how many input bytes it took and the
    bytes it wrote. *)

Record inflate_result (zstate : Type) : Type := {
  ir_ret : Z;
  ir_state : zstate;
  ir_consumed : nat;
  ir_produced : list byte
}.
Arguments ir_ret {zstate} _.
Arguments ir_state {zstate} _.
Arguments ir_consumed {zstate} _.
Arguments ir_produced {zstate} _.

Record zlib : Type := {
  zstate : Type;
  inflateInit2 : zstate;                 (* the state [inflateInit2(strm, -15)] sets up *)
  inflateReset : zstate -> zstate;
  inflate : zstate -> list byte -> Z -> inflate_result zstate
}.

(** [crc32(crc, buf, len)] is CRC-32 as zlib computes it: the reflected
    polynomial [0xEDB88320], with the running value inverted on the way in
    and on the way out. [crc32(0, nullptr, 0)] is [crc32 0 []]. *)
Definition crc32_bit (c : Z) : Z :=
  if Z.odd c then Z.lxor (Z.shiftr c 1) 0xEDB88320 else Z.shiftr c 1.

Definition crc32_byte (c : Z) (b : byte) : Z :=
  Nat.iter 8 crc32_bit (Z.lxor c (u8 b)).

Definition crc32 (crc : Z) (buf : list byte) : Z :=
  Z.lxor (fold_left crc32_byte buf (Z.lxor crc 0xFFFFFFFF)) 0xFFFFFFFF.

Definition Z_OK : Z := 0.
Definition Z_STREAM_END : Z := 1.

(** ** [class CRC32] and [deflated_streambuf] *)

Module deflated_streambuf.
Section WithZlib.
Context (zl : zlib).

Record t : Type := {
  in_start_pos : Z;
  in_cur_pos : Z;
  in_end_pos : Z;
  out_cur_pos : Z;
  out_end_pos : Z;
  desired_crc : Z;
  crc : Z;                      (* [CRC32 crc], its one field *)
  zs : zstate zl;               (* the [z_stream] base: internal state *)
  pending_in : list byte;       (* the [avail_in] bytes at [next_in] *)
  garea : get_area              (* into [out_buffer] *)
}.

(** [CRC32()]: [crc = crc32(0, nullptr, 0)] *)
Definition CRC32_new : Z := crc32 0 [].

Definition make (start_pos end_pos uncompressed_size desired_crc : Z) : t :=
  {| in_start_pos := start_pos; in_cur_pos := start_pos;
     in_end_pos := end_pos; out_cur_pos := 0;
     out_end_pos := uncompressed_size; desired_crc := desired_crc;
     crc := CRC32_new; zs := inflateInit2 zl; pending_in := [];
     garea := no_get_area |}.

Definition with_in_cur_pos (v : Z) (sb : t) : t :=
  {| in_start_pos := in_start_pos sb; in_cur_pos := v;
     in_end_pos := in_end_pos sb; out_cur_pos := out_cur_pos sb;
     out_end_pos := out_end_pos sb; desired_crc := desired_crc sb;
     crc := crc sb; zs := zs sb; pending_in := pending_in sb;
     garea := garea sb |}.

Definition with_out_cur_pos (v : Z) (sb : t) : t :=
  {| in_start_pos := in_start_pos sb; in_cur_pos := in_cur_pos sb;
     in_end_pos := in_end_pos sb; out_cur_pos := v;
     out_end_pos := out_end_pos sb; desired_crc := desired_crc sb;
     crc := crc sb; zs := zs sb; pending_in := pending_in sb;
     garea := garea sb |}.

Definition with_crc (v : Z) (sb : t) : t :=
  {| in_start_pos := in_start_pos sb; in_cur_pos := in_cur_pos sb;
     in_end_pos := in_end_pos sb; out_cur_pos := out_cur_pos sb;
     out_end_pos := out_end_pos sb; desired_crc := desired_crc sb;
     crc := v; zs := zs sb; pending_in := pending_in sb;
     garea := garea sb |}.

Definition with_zs (v : zstate zl) (sb : t) : t :=
  {| in_start_pos := in_start_pos sb; in_cur_pos := in_cur_pos sb;
     in_end_pos := in_end_pos sb; out_cur_pos := out_cur_pos sb;
     out_end_pos := out_end_pos sb; desired_crc := desired_crc sb;
     crc := crc sb; zs := v; pending_in := pending_in sb;
     garea := garea sb |}.

Definition with_pending_in (v : list byte) (sb : t) : t :=
  {| in_start_pos := in_start_pos sb; in_cur_pos := in_cur_pos sb;
     in_end_pos := in_end_pos sb; out_cur_pos := out_cur_pos sb;
     out_end_pos := out_end_pos sb; desired_crc := desired_crc sb;
     crc := crc sb; zs := zs sb; pending_in := v;
     garea := garea sb |}.

Definition with_garea (v : get_area) (sb : t) : t :=
  {| in_start_pos := in_start_pos sb; in_cur_pos := in_cur_pos sb;
     in_end_pos := in_end_pos sb; out_cur_pos := out_cur_pos sb;
     out_end_pos := out_end_pos sb; desired_crc := desired_crc sb;
     crc := crc sb; zs := zs sb; pending_in := pending_in sb;
     garea := v |}.

Definition showmanyc (sb : t) : Z := u32 (out_end_pos sb - out_cur_pos sb).

(** The [if(avail_in == 0)] block: the next chunk of compressed bytes. *)
Definition fill_input : M (t * archive) unit :=
  sb <- get_sb ;;
  if bool_decide (pending_in sb = []) then
    let amount := u32 (in_end_pos sb - in_cur_pos sb) in
    let amount := if amount >? 4096 then 4096 else amount in
    in_buffer <- lift_tez (read_for_file (in_cur_pos sb) amount) ;;
    modify_sb (with_in_cur_pos (u32 (in_cur_pos sb + amount))) ;;;
    modify_sb (with_pending_in in_buffer)
  else ret tt.

(** [next_out = out_buffer; avail_out = sizeof(out_buffer);
    ret = inflate(this, 0);] *)
Definition call_inflate : M (t * archive) (inflate_result (zstate zl)) :=
  sb <- get_sb ;;
  let r := inflate zl (zs sb) (pending_in sb) 4096 in
  modify_sb (with_zs (ir_state r)) ;;;
  modify_sb (with_pending_in (drop (ir_consumed r) (pending_in sb))) ;;;
  ret r.

(** The [do ... while] of [underflow]: the value is what the last
    [inflate] wrote, [out_buffer .. next_out). *)
Fixpoint refill (fuel : nat) : M (t * archive) (list byte) :=
  match fuel with
  | O => abort fuel_exhausted
  | S fuel' =>
      fill_input ;;;
      r <- call_inflate ;;
      if negb (ir_ret r =? Z_OK) && negb (ir_ret r =? Z_STREAM_END) then
        throw (runtime_error "zlib error")
      else if bool_decide (ir_produced r = []) then refill fuel'
      else ret (ir_produced r)
  end.

Definition underflow (fuel : nat) : M (t * archive) (option byte) :=
  sb <- get_sb ;;
  if out_cur_pos sb =? out_end_pos sb then ret None
  else
    out <- refill fuel ;;
    modify_sb (with_garea {| ga_bytes := out; ga_next := 0 |}) ;;;
    modify_sb (fun sb => with_crc (crc32 (crc sb) out) sb) ;;;
    modify_sb (fun sb =>
      with_out_cur_pos (u32 (out_cur_pos sb + Z.of_nat (length out))) sb) ;;;
    sb <- get_sb ;;
    if (out_cur_pos sb =? out_end_pos sb) && negb (desired_crc sb =? crc sb)
    then throw (runtime_error "checksum mismatch")
    else ret (Some (nth 0 out x00)).

(** The [while] of [seekpos], with its empty body. *)
Fixpoint skip_loop (fuel : nat) (off : Z) (n : nat) : M (t * archive) unit :=
  match n with
  | O => abort fuel_exhausted
  | S n' =>
      c <- underflow fuel ;;
      sb <- get_sb ;;
      if bool_decide (c ≠ None) && (out_cur_pos sb >=? off)
      then skip_loop fuel off n'
      else ret tt
  end.

(** [fuel] bounds each [underflow], [n] the turns of the [while]. The value
    is the [pos_type] returned; [-1] is what [traits_type::eof()] becomes. *)
Definition seekpos_bounded (fuel n : nat) (off : Z) : M (t * archive) Z :=
  sb <- get_sb ;;
  let off :=
    if off <? 0 then 0
    else if off >? out_end_pos sb then out_end_pos sb else off in
  (if off <? out_cur_pos sb then
     (* start from the beginning *)
     modify_sb (fun sb => with_zs (inflateReset zl (zs sb)) sb) ;;;
     modify_sb (with_crc CRC32_new) ;;;
     modify_sb (fun sb => with_in_cur_pos (in_start_pos sb) sb) ;;;
     modify_sb (with_out_cur_pos 0)
   else ret tt) ;;;
  sb <- get_sb ;;
  if off =? out_cur_pos sb then
    modify_sb (with_garea no_get_area) ;;;
    sb <- get_sb ;;
    ret (out_cur_pos sb)
  else
    skip_loop fuel off n ;;;
    sb <- get_sb ;;
    if out_cur_pos sb =? out_end_pos sb then ret (-1)
    else
      let overshoot_amount := out_cur_pos sb - off in
      modify_sb (with_garea
        {| ga_bytes := ga_bytes (garea sb);
           ga_next := Z.of_nat (length (ga_bytes (garea sb)))
                      - overshoot_amount |}) ;;;
      ret (out_cur_pos sb).

Definition seekpos (fuel : nat) (off : Z) : M (t * archive) Z :=
  seekpos_bounded fuel fuel off.

Definition seekoff (fuel : nat) (off : Z) (dir : stored_data_streambuf.seekdir)
    : M (t * archive) Z :=
  sb <- get_sb ;;
  let off :=
    match dir with
    | stored_data_streambuf.beg => off
    | stored_data_streambuf.cur => off + out_cur_pos sb
    | stored_data_streambuf.end_ => off + out_end_pos sb
    end in
  seekpos fuel off.

End WithZlib.
End deflated_streambuf.

#[global] Instance deflated_streambuf_sb (zl : zlib)
    : streambuf (deflated_streambuf.t zl) := {
  area := deflated_streambuf.garea zl;
  setg := deflated_streambuf.with_garea zl;
  underflow := deflated_streambuf.underflow zl;
  seekpos := deflated_streambuf.seekpos zl
}.

(** ** [TEZ::file::open]

    The two kinds of stream the [std::unique_ptr<std::istream>] can hold. *)

Inductive opened (zl : zlib) : Type :=
| stored_stream (sb : stored_data_streambuf.t)
| deflated_stream (sb : deflated_streambuf.t zl).
Arguments stored_stream {zl} sb.
Arguments deflated_stream {zl} sb.

Definition open (zl : zlib) (f : file) : outcome (opened zl) :=
  if f_method f =? 8 then
    Ok (deflated_stream
          (deflated_streambuf.make zl (f_offset f)
             (u32 (f_offset f + f_compressed_size f))
             (f_uncompressed_size f) (f_crc32 f)))
  else
    (* default: and case 0: *)
    if negb (f_compressed_size f =? f_uncompressed_size f)
    then Crash assertion_failed
    else
      Ok (stored_stream
            (stored_data_streambuf.make (f_offset f)
               (u32 (f_offset f + f_uncompressed_size f)))).

(** ** A concrete zlib for the examples

    [stored_inflate] is [inflate] on the fragment of DEFLATE made of stored
    blocks ([BTYPE = 00]): a header byte, [LEN], [NLEN], then [LEN] literal
    bytes; any other block type is a data error. *)

Inductive stored_inflate_state : Type :=
| at_header
| at_len (final : bool) (got : list byte)
| copying (final : bool) (remaining : Z)
| done
| bad.

Definition Z_BUF_ERROR : Z := -5.
Definition Z_DATA_ERROR : Z := -3.

Definition block_end (final : bool) : stored_inflate_state :=
  if final then done else at_header.

Fixpoint stored_inflate_run (st : stored_inflate_state) (input : list byte)
    (room : Z) (consumed : nat) (out : list byte)
    : inflate_result stored_inflate_state :=
  let stop st :=
    {| ir_ret := if bool_decide (consumed = O) && bool_decide (out = [])
                 then Z_BUF_ERROR else Z_OK;
       ir_state := st; ir_consumed := consumed; ir_produced := out |} in
  match st with
  | done =>
      {| ir_ret := Z_STREAM_END; ir_state := done;
         ir_consumed := consumed; ir_produced := out |}
  | bad =>
      {| ir_ret := Z_DATA_ERROR; ir_state := bad;
         ir_consumed := consumed; ir_produced := out |}
  | _ =>
      match input with
      | [] => stop st
      | b :: rest =>
          match st with
          | at_header =>
              if Z.land (Z.shiftr (u8 b) 1) 3 =? 0 then
                stored_inflate_run (at_len (Z.odd (u8 b)) []) rest room
                  (S consumed) out
              else
                {| ir_ret := Z_DATA_ERROR; ir_state := bad;
                   ir_consumed := S consumed; ir_produced := out |}
          | at_len final got =>
              let got := got ++ [b] in
              if (length got <? 4)%nat then
                stored_inflate_run (at_len final got) rest room
                  (S consumed) out
              else if get_uint16 got + get_uint16 (drop 2 got) =? 65535 then
                if get_uint16 got =? 0 then
                  stored_inflate_run (block_end final) rest room
                    (S consumed) out
                else
                  stored_inflate_run (copying final (get_uint16 got)) rest
                    room (S consumed) out
              else
                {| ir_ret := Z_DATA_ERROR; ir_state := bad;
                   ir_consumed := S consumed; ir_produced := out |}
          | copying final remaining =>
              if room <=? 0 then stop st
              else
                stored_inflate_run
                  (if remaining <=? 1 then block_end final
                   else copying final (remaining - 1))
                  rest (room - 1) (S consumed) (out ++ [b])
          | _ => stop st
          end
      end
  end.

Definition stored_inflate (st : stored_inflate_state) (input : list byte)
    (avail_out : Z) : inflate_result stored_inflate_state :=
  stored_inflate_run st input avail_out O [].

Definition stored_zlib : zlib :=
  {| zstate := stored_inflate_state;
     inflateInit2 := at_header;
     inflateReset := fun _ => at_header;
     inflate := stored_inflate |}.

(** ** Building images for the examples *)

Definition byte_of (z : Z) : byte :=
  default x00 (Byte.of_N (Z.to_N (z mod 256))).
Definition le16 (z : Z) : list byte := [byte_of z; byte_of (z / 256)].
Definition le32 (z : Z) : list byte := le16 z ++ le16 (z / 65536).
Definition str (s : string) : list byte := list_byte_of_string s.
Definition len (bs : list byte) : Z := Z.of_nat (length bs).

Definition image_of (bs : list byte) : image :=
  {| img_size := len bs; img_byte := fun i => nth (Z.to_nat i) bs x00 |}.

Definition local_header (method crc csize usize : Z)
    (name extra : list byte) : list byte :=
  le32 0x04034b50 ++ le16 20 ++ le16 0 ++ le16 method ++ le16 0 ++ le16 0
  ++ le32 crc ++ le32 csize ++ le32 usize
  ++ le16 (len name) ++ le16 (len extra) ++ name ++ extra.

Definition cd_record (version flags method crc csize usize disk : Z)
    (name extra cmt : list byte) (off : Z) : list byte :=
  le32 0x02014b50 ++ le16 20 ++ le16 version ++ le16 flags ++ le16 method
  ++ le16 0 ++ le16 0 ++ le32 crc ++ le32 csize ++ le32 usize
  ++ le16 (len name) ++ le16 (len extra) ++ le16 (len cmt) ++ le16 disk
  ++ le16 0 ++ le32 0 ++ le32 off ++ name ++ extra ++ cmt.

Definition eocd (n cdsize cdoff : Z) (cmt : list byte) : list byte :=
  le32 0x06054b50 ++ le16 0 ++ le16 0 ++ le16 n ++ le16 n
  ++ le32 cdsize ++ le32 cdoff ++ le16 (len cmt) ++ cmt.

(** A stored block holding [data], as the last block of a stream. *)
Definition stored_block (data : list byte) : list byte :=
  [x01] ++ le16 (len data) ++ le16 (65535 - len data) ++ data.

(** One stored entry [a.txt] holding [hello], with entry comment [cc], in
    an archive with comment [ARCH]. *)
Definition zip_hello : list byte :=
  let lh := local_header 0 0x3610a686 5 5 (str "a.txt") [] ++ str "hello" in
  let cd := cd_record 20 0 0 0x3610a686 5 5 0 (str "a.txt") [] (str "cc") 0 in
  lh ++ cd ++ eocd 1 (len cd) (len lh) (str "ARCH").

(** The same entry, deflated (as one stored block). *)
Definition zip_hello_deflated : list byte :=
  let data := stored_block (str "hello") in
  let lh := local_header 8 0x3610a686 (len data) 5 (str "a.txt") [] ++ data in
  let cd := cd_record 20 0 8 0x3610a686 (len data) 5 0 (str "a.txt") [] [] 0 in
  lh ++ cd ++ eocd 1 (len cd) (len lh) [].



(** The deflated entry [hello] declared with size 3, two bytes less than
    its data decode to, and with a checksum that fits nothing. *)
Definition zip_hello_undersized : list byte :=
  let data := stored_block (str "hello") in
  let lh := local_header 8 0xDEADBEEF (len data) 3 (str "a.txt") [] ++ data in
  let cd := cd_record 20 0 8 0xDEADBEEF (len data) 3 0 (str "a.txt") [] [] 0 in
  lh ++ cd ++ eocd 1 (len cd) (len lh) [].

(** An end-of-central-directory record announcing one entry at offset 0,
    and nothing before it: where the central-directory record should be
    there are the 22 bytes of the end record itself. *)
Definition zip_truncated : list byte := eocd 1 46 0 [].

(** A central-directory record that passes every check and declares a
    file name of 200 bytes, followed by the end record alone. *)
Definition zip_name_overrun : list byte :=
  let cd := le32 0x02014b50 ++ le16 20 ++ le16 20 ++ le16 0 ++ le16 0
            ++ le16 0 ++ le16 0 ++ le32 0 ++ le32 0 ++ le32 0
            ++ le16 200 ++ le16 0 ++ le16 0 ++ le16 0
            ++ le16 0 ++ le32 0 ++ le32 0 in
  cd ++ eocd 1 (len cd) 0 [].

(** The archive [zip_hello] with the local-header offset of its record
    set to 100, fewer than 30 bytes before the end of the file. *)
Definition zip_header_near_end : list byte :=
  let lh := local_header 0 0x3610a686 5 5 (str "a.txt") [] ++ str "hello" in
  let cd := cd_record 20 0 0 0x3610a686 5 5 0 (str "a.txt") [] (str "cc") 100 in
  lh ++ cd ++ eocd 1 (len cd) (len lh) (str "ARCH").

(** A stored entry whose two sizes differ. *)
Definition zip_stored_mismatch : list byte :=
  let lh := local_header 0 0 5 4 (str "a.txt") [] ++ str "hello" in
  let cd := cd_record 20 0 0 0 5 4 0 (str "a.txt") [] [] 0 in
  lh ++ cd ++ eocd 1 (len cd) (len lh) [].

(** Two records named [x]: the first holds [one], the second [two]. *)
Definition zip_duplicate : list byte :=
  let lh0 := local_header 0 0 3 3 (str "x") [] ++ str "one" in
  let lh1 := local_header 0 0 3 3 (str "x") [] ++ str "two" in
  let cd := cd_record 20 0 0 0 3 3 0 (str "x") [] [] 0
            ++ cd_record 20 0 0 0 3 3 0 (str "x") [] [] (len lh0) in
  lh0 ++ lh1 ++ cd ++ eocd 2 (len cd) (len lh0 + len lh1) [].

(** An archive whose local header does not start with its signature. *)
Definition zip_bad_local_header : list byte :=
  let lh := [x00] ++ drop 1 (local_header 0 0 5 5 (str "a.txt") [])
            ++ str "hello" in
  let cd := cd_record 20 0 0 0 5 5 0 (str "a.txt") [] [] 0 in
  lh ++ cd ++ eocd 1 (len cd) (len lh) [].

(** An end-of-central-directory record whose offset points at the local
    header instead of the central directory. *)
Definition zip_bad_cd_offset : list byte :=
  let lh := local_header 0 0 5 5 (str "a.txt") [] ++ str "hello" in
  let cd := cd_record 20 0 0 0 5 5 0 (str "a.txt") [] [] 0 in
  lh ++ cd ++ eocd 1 (len cd) 0 [].



(** * Specification vocabulary

    The predicates and functions the statements below are written with. *)

(** What [purge] establishes. *)
Definition purged (a : archive) : Prop :=
  file_count a = 0 /\ files a = None /\ buf a = None
  /\ file_map a = ∅ /\ comment a = None.

(** The four bytes [comment_len + 22] before the end of the buffer are the
    end-of-central-directory signature. *)
Definition eocd_signature_at (buf : list byte) (buf_len comment_len : Z)
    : Prop :=
  get_uint32 (drop (Z.to_nat (buf_len - comment_len
                               - END_OF_CENTRAL_DIRECTORY_LEN)) buf)
  = 0x06054b50.

(** The number of bytes [read_eocd] reads. *)
Definition eocd_window_len (file_size : Z) : Z :=
  Z.min 65535 (file_size - 22) + 22.

(** The seven errors a central-directory record can be refused with. *)
Definition cd_corrupted : exn := runtime_error "central directory is corrupted".
Definition cd_version : exn := out_of_range "zipfile is not PKZIP 2.0 compatible".
Definition cd_encrypted : exn := out_of_range "zipfile contains an encrypted member".
Definition cd_data_descriptors : exn := out_of_range "zipfile uses Data Descriptors".
Definition cd_flags : exn := out_of_range "zipfile member uses unsupported GPBF flags".
Definition cd_method : exn :=
  out_of_range "zipfile uses a compression method other than deflate".
Definition cd_multipart : exn := out_of_range "multipart zipfiles are not supported".

(** The entry a record that is accepted leaves in its slot. *)
Definition cd_entry (rec : list byte) (f : file) : file :=
  with_f_offset (get_uint32 (drop 42 rec))
    (with_f_uncompressed_size (get_uint32 (drop 24 rec))
       (with_f_compressed_size (get_uint32 (drop 20 rec))
          (with_f_crc32 (get_uint32 (drop 16 rec))
             (with_f_method (get_uint16 (drop 10 rec)) f)))).

(** The data offset [read_header] computes from the header at [offset]. *)
Definition data_offset (img : image) (offset : Z) : Z :=
  let hdr := img_bytes img offset LOCAL_FILE_HEADER_LEN in
  u32 (offset + LOCAL_FILE_HEADER_LEN
       + get_uint16 (drop 26 hdr) + get_uint16 (drop 28 hdr)).

Definition local_signature_ok (img : image) (offset : Z) : Prop :=
  get_uint32 (img_bytes img offset LOCAL_FILE_HEADER_LEN) = 0x04034b50.

(** The header of [f] lies inside the image and starts with the signature. *)
Definition header_readable (img : image) (f : file) : Prop :=
  0 <= f_offset f
  /\ f_offset f + LOCAL_FILE_HEADER_LEN <= img_size img
  /\ local_signature_ok img (f_offset f).

(** An entry after its header has been read. *)
Definition resolve (img : image) (f : file) : file :=
  with_f_offset (data_offset img (f_offset f)) f.

(** The comments of the entries, in order. *)
Definition entry_comments (a : archive) : option (list (option (list byte))) :=
  match files a with
  | Some fs => Some (f_comment <$> fs)
  | None => None
  end.

(** [same_index a a']: from [a] to [a'] the entry count and the name index
    did not change, the entry array kept its length, and no entry's comment
    was touched. *)
Definition same_index (a a' : archive) : Prop :=
  file_count a' = file_count a
  /\ file_map a' = file_map a
  /\ entry_comments a' = entry_comments a.

Definition preserves {A} (m : M archive A) : Prop :=
  forall a, same_index a (snd (m a)).

(** The fields of a [deflated_streambuf] that [refill] leaves alone. *)
Definition same_out {zl : zlib} (s s' : deflated_streambuf.t zl * archive)
    : Prop :=
  deflated_streambuf.crc zl (fst s') = deflated_streambuf.crc zl (fst s)
  /\ deflated_streambuf.out_cur_pos zl (fst s')
     = deflated_streambuf.out_cur_pos zl (fst s)
  /\ deflated_streambuf.out_end_pos zl (fst s')
     = deflated_streambuf.out_end_pos zl (fst s)
  /\ deflated_streambuf.desired_crc zl (fst s')
     = deflated_streambuf.desired_crc zl (fst s)
  /\ deflated_streambuf.garea zl (fst s') = deflated_streambuf.garea zl (fst s).

Definition checksum_mismatch : exn := runtime_error "checksum mismatch".


Ltac norm := cbn [negb andb orb]; cbv beta iota.
Ltac step := unfold bind at 1; cbv beta iota.
Ltac normH H := cbn [negb andb orb] in H; cbv beta iota in H.
Ltac stepH H := unfold bind at 1 in H; cbv beta iota in H.
Ltac in_list :=
  rewrite !elem_of_cons; repeat first [left; reflexivity | right].

(** [m] touches no entry's comment, whatever its outcome. *)
Definition keeps_comments {A} (m : M archive A) : Prop :=
  forall a, entry_comments (snd (m a)) = entry_comments a.

(** ** The archives and entries of the examples *)

(** The archive object after [init] on the image made of [bs]. *)
Definition initialized (bs : list byte) : archive :=
  snd (init (Some (image_of bs)) archive_new).

(** An archive object with the image made of [bs] open, read position [pos],
    and [fs] as its entry array. *)
Definition opened_at (bs : list byte) (pos : Z) (fs : list file) : archive :=
  with_files (Some fs) (with_buf (Some (image_of bs)) pos archive_new).

Definition hello_entry : file :=
  {| f_offset := 35; f_crc32 := 0x3610a686; f_compressed_size := 5;
     f_uncompressed_size := 5; f_filename := Some (str "a.txt");
     f_comment := None; f_method := 0 |}.

Definition hello_deflated_entry : file :=
  {| f_offset := 35; f_crc32 := 0x3610a686; f_compressed_size := 10;
     f_uncompressed_size := 5; f_filename := Some (str "a.txt");
     f_comment := None; f_method := 8 |}.


Definition mismatch_entry : file :=
  {| f_offset := 35; f_crc32 := 0; f_compressed_size := 5;
     f_uncompressed_size := 4; f_filename := Some (str "a.txt");
     f_comment := None; f_method := 0 |}.

Definition hello_undersized_entry : file :=
  {| f_offset := 35; f_crc32 := 0xDEADBEEF; f_compressed_size := 10;
     f_uncompressed_size := 3; f_filename := Some (str "a.txt");
     f_comment := None; f_method := 8 |}.

(** The streams [open] makes for them. *)
Definition hello_stream : stored_data_streambuf.t :=
  stored_data_streambuf.make 35 40.

Definition hello_deflated_stream : deflated_streambuf.t stored_zlib :=
  deflated_streambuf.make stored_zlib 35 45 5 0x3610a686.


Definition hello_undersized_stream : deflated_streambuf.t stored_zlib :=
  deflated_streambuf.make stored_zlib 35 45 3 0xDEADBEEF.

(** * Vocabulary for the container interface and the streams *)

(** [m] leaves the component [proj] of the archive as it found it, whatever
    its outcome. *)
Definition keeps {A T} (proj : archive -> T) (m : M archive A) : Prop :=
  forall a, proj (snd (m a)) = proj a.

(** [proj] does not look at the stream: the error bit, the exception mask,
    the file buffer with its position, the log of reads. *)
Definition stream_blind {T} (proj : archive -> T) : Prop :=
  forall a,
    (forall v, proj (with_stream_failed v a) = proj a)
    /\ (forall v, proj (with_stream_exceptions v a) = proj a)
    /\ (forall v p, proj (with_buf v p a) = proj a)
    /\ (forall v, proj (with_reads v a) = proj a).

(** When [m] throws [std::ios_base::failure], it leaves the stream with an
    error bit and with the exception mask in force. *)
Definition marks_io_failure {A} (m : M archive A) : Prop :=
  forall a a', m a = (Throw ios_failure, a') ->
    stream_failed a' = true /\ stream_exceptions a' = true.

(** The stream reads from [img] and has no error bit. *)
Definition stream_ready (img : image) (a : archive) : Prop :=
  buf a = Some img /\ stream_failed a = false.

(** [streampos], where it says [offset], tells the truth about the read
    position of the stream. *)
Definition synced_at (offset : Z) (a : archive) : Prop :=
  streampos a = offset -> buf_pos a = offset.

(** The entry array has [file_count] entries and every index in the name
    index points into it. *)
Definition container_ok (a : archive) : Prop :=
  exists fs,
    files a = Some fs
    /\ Z.of_nat (length fs) = file_count a
    /\ file_count a < 65536
    /\ forall name i, file_map a !! name = Some i -> 0 <= i < file_count a.

Definition index_out_of_range : exn := out_of_range "file index out of range".

(** [inflate] in state [z] has reached the end of the compressed stream:
    called again, it reports [Z_STREAM_END] and neither takes nor writes. *)
Definition finished (zl : zlib) (z : zstate zl) : Prop :=
  forall input room,
    inflate zl z input room
    = {| ir_ret := Z_STREAM_END; ir_state := z;
         ir_consumed := 0; ir_produced := [] |}.



(** A [deflated_streambuf] whose decoder has finished and that has nothing
    new to feed it: either input is left over, which a finished decoder
    does not take, or the compressed bytes of the entry are used up. *)
Definition stalled (zl : zlib) (img : image)
    (s : deflated_streambuf.t zl * archive) : Prop :=
  let sb := fst s in
  finished zl (deflated_streambuf.zs zl sb)
  /\ (deflated_streambuf.pending_in zl sb <> []
      \/ (deflated_streambuf.pending_in zl sb = []
          /\ deflated_streambuf.in_cur_pos zl sb
             = deflated_streambuf.in_end_pos zl sb
          /\ 0 <= deflated_streambuf.in_cur_pos zl sb < 2 ^ 32
          /\ stream_ready img (snd s))).

(** ** More images *)

(** An end-of-central-directory record at the very end of the file whose
    comment-length field says 5. *)
Definition zip_comment_overrun : list byte :=
  le32 0x06054b50 ++ le16 0 ++ le16 0 ++ le16 0 ++ le16 0
  ++ le32 0 ++ le32 0 ++ le16 5.

(** An archive without entries, with comment [ARCH]. *)
Definition zip_no_entries : list byte := eocd 0 0 0 (str "ARCH").

(** The deflated entry [hello] of [zip_hello_deflated], declared one byte
    longer than its data decode to. *)
Definition zip_hello_oversized : list byte :=
  let data := stored_block (str "hello") in
  let lh := local_header 8 0x3610a686 (len data) 6 (str "a.txt") [] ++ data in
  let cd := cd_record 20 0 8 0x3610a686 (len data) 6 0 (str "a.txt") [] [] 0 in
  lh ++ cd ++ eocd 1 (len cd) (len lh) [].

Definition hello_oversized_stream : deflated_streambuf.t stored_zlib :=
  deflated_streambuf.make stored_zlib 35 45 6 0x3610a686.

(** The second entry of [zip_duplicate] after [init]. *)
Definition shadowed_entry : file :=
  {| f_offset := 65; f_crc32 := 0; f_compressed_size := 3;
     f_uncompressed_size := 3; f_filename := None; f_comment := None;
     f_method := 0 |}.

(** The state of a stream and its archive after [n] characters were read. *)
Definition after_reading {SB} `{streambuf SB} (n : nat) (s : SB * archive)
    : SB * archive :=
  snd (read_n 4 n s).

(** * Properties *)

(** ** The state a failed initialisation leaves behind *)

Lemma purge_purged (a : archive) : purged (snd (purge a)).
Proof.
  unfold purge, bind, modify, stream_setstate_goodbit. simpl.
  destruct (stream_failed a && stream_exceptions a); simpl;
    repeat split; reflexivity.
Qed.

Lemma purge_not_crash (a : archive) (c : crash) : fst (purge a) <> Crash c.
Proof.
  unfold purge, bind, modify, stream_setstate_goodbit. simpl.
  destruct (stream_failed a && stream_exceptions a); simpl; discriminate.
Qed.

(** C3. If [init] throws, whatever the point it throws from, the archive
    it leaves is the empty one: [size] is 0, [empty] is true, the entry
    array and the name index are gone (and so are the comment and the open
    file). *)
Theorem init_failure_purges (exe : option image) (a a' : archive) (e : exn)
    (Hfail : init exe a = (Throw e, a')) :
  size a' = 0 /\ empty a' = true /\ files a' = None
  /\ file_map a' = ∅ /\ comment a' = None /\ buf a' = None.
Proof.
  assert (Hp : purged a').
  { unfold init in Hfail. unfold bind at 1 in Hfail.
    pose proof (purge_purged a) as P0.
    destruct (purge a) as [[[]|e0|c0] a1]; simpl in P0.
    - unfold bind at 1 in Hfail. unfold buf_open, modify in Hfail.
      unfold bind, get_state in Hfail. simpl in Hfail.
      destruct exe as [img|]; simpl in Hfail.
      + unfold try_catch in Hfail.
        destruct (init_body _) as [[[]|e1|c1] a2]; try discriminate.
        unfold throw in Hfail.
        pose proof (purge_purged a2) as P2.
        destruct (purge a2) as [[[]|e2|c2] a3]; simpl in *;
          inversion Hfail; subst; exact P2.
      + unfold throw in Hfail. inversion Hfail; subst.
        destruct P0 as (? & ? & ? & ? & ?). repeat split; assumption.
    - inversion Hfail; subst. exact P0.
    - discriminate. }
  destruct Hp as (Hc & Hf & Hb & Hm & Hcm).
  unfold size, empty. rewrite Hc. repeat split; assumption.
Qed.

(** ** Reading from the stream *)

Lemma img_bytes_from_length (img : image) (off : Z) (n : nat) :
  length (img_bytes_from img off n) = n.
Proof. revert off. induction n as [|n IH]; intros off; simpl; [|rewrite IH]; reflexivity. Qed.

Lemma img_bytes_length (img : image) (off n : Z) :
  0 <= n -> Z.of_nat (length (img_bytes img off n)) = n.
Proof. intros Hn. unfold img_bytes. rewrite img_bytes_from_length. lia. Qed.

Lemma stream_seekg_ok (a : archive) (img : image) (off : Z) :
  buf a = Some img -> stream_failed a = false -> 0 <= off ->
  stream_seekg off a = (Ok tt, with_buf (Some img) off a).
Proof.
  intros Hb Hg Hoff. unfold stream_seekg. rewrite Hg, Hb.
  destruct (Z.ltb_spec off 0); [lia | reflexivity].
Qed.

Lemma stream_read_exact_ok (a : archive) (img : image) (n : Z) :
  buf a = Some img -> stream_failed a = false ->
  0 <= n -> buf_pos a + n <= img_size img ->
  stream_read_exact n a =
    (Ok (img_bytes img (buf_pos a) n),
     with_reads ((buf_pos a, n) :: reads a)
       (with_buf (Some img) (buf_pos a + n) a)).
Proof.
  intros Hb Hg Hn Hfit. unfold stream_read_exact, bind, stream_read.
  rewrite Hg, Hb.
  replace (buf_pos a + n <=? img_size img) with true
    by (symmetry; apply Z.leb_le; exact Hfit).
  rewrite orb_true_r. rewrite img_bytes_length by exact Hn.
  rewrite Z.eqb_refl. reflexivity.
Qed.

(** ** The end-of-central-directory scan *)

Lemma eocd_scan_spec (buf : list byte) (buf_len : Z) (todo : nat) (c : Z) :
  let r := eocd_scan buf buf_len c todo in
  c <= r <= c + Z.of_nat todo
  /\ (forall j, c <= j < r -> ~ eocd_signature_at buf buf_len j)
  /\ (r < c + Z.of_nat todo -> eocd_signature_at buf buf_len r).
Proof.
  revert c. induction todo as [|todo IH]; intros c; simpl.
  - repeat split; try lia.
  - unfold eocd_signature_at in *.
    destruct (Z.eqb_spec
      (get_uint32 (drop (Z.to_nat (buf_len - c - END_OF_CENTRAL_DIRECTORY_LEN)) buf))
      0x06054b50) as [Heq|Hne].
    + repeat split; lia.
    + specialize (IH (c + 1)). simpl in IH. destruct IH as (Hr & Hno & Hyes).
      split; [lia|]. split.
      * intros j Hj. destruct (Z.eq_dec j c) as [->|Hjc]; [exact Hne|].
        apply Hno. lia.
      * intros Hlt. apply Hyes. lia.
Qed.

Lemma eocd_scan_first (buf : list byte) (buf_len : Z) (todo : nat) (k : Z) :
  0 <= k < Z.of_nat todo ->
  eocd_signature_at buf buf_len k ->
  (forall j, 0 <= j < k -> ~ eocd_signature_at buf buf_len j) ->
  eocd_scan buf buf_len 0 todo = k.
Proof.
  intros Hk Hsig Hfirst.
  destruct (eocd_scan_spec buf buf_len todo 0) as (Hr & Hno & Hyes).
  simpl in *. set (r := eocd_scan buf buf_len 0 todo) in *.
  destruct (Z.lt_trichotomy r k) as [Hlt|[Heq|Hgt]].
  - exfalso. apply (Hfirst r); [lia|]. apply Hyes. lia.
  - exact Heq.
  - exfalso. apply (Hno k); [lia | exact Hsig].
Qed.

Lemma eocd_scan_none (buf : list byte) (buf_len : Z) (todo : nat) :
  (forall j, 0 <= j < Z.of_nat todo -> ~ eocd_signature_at buf buf_len j) ->
  eocd_scan buf buf_len 0 todo = Z.of_nat todo.
Proof.
  intros Hnone.
  destruct (eocd_scan_spec buf buf_len todo 0) as (Hr & Hno & Hyes).
  simpl in *. set (r := eocd_scan buf buf_len 0 todo) in *.
  destruct (Z.eq_dec r (Z.of_nat todo)) as [Heq|Hne]; [exact Heq|].
  exfalso. apply (Hnone r); [lia|]. apply Hyes. lia.
Qed.

Lemma eocd_decode_reads (p : list byte) (k : Z) (a : archive) :
  reads (snd (eocd_decode p k a)) = reads a.
Proof.
  unfold eocd_decode.
  destruct (negb _); [reflexivity|].
  unfold bind, modify, throw, abort, ret. simpl.
  destruct (_ >? k); reflexivity.
Qed.

(** C6, as amended. On a file of [file_size] bytes [read_eocd] throws the
    too-small error, without reading, when [file_size < 22]. Otherwise it
    reads once, the last [min(65535, file_size - 22) + 22] bytes of the
    file (that is [min(file_size, 65557)] bytes, ending at the end of the
    file); it decodes the record at the smallest comment length, from 0
    up, at which the signature [0x06054b50] stands; and it throws the
    not-a-zipfile error when the signature stands at none of the comment
    lengths tried. *)
Theorem read_eocd_scan (img : image) (a : archive) (file_size : Z)
    (Hopen : buf a = Some img) (Hgood : stream_failed a = false)
    (Hsize : img_size img = file_size) :
  let n := eocd_window_len file_size in
  let window := img_bytes img (file_size - n) n in
  let a1 := with_reads ((file_size - n, n) :: reads a)
              (with_buf (Some img) file_size a) in
  (file_size < 22 ->
     read_eocd file_size a =
       (Throw (out_of_range "executable too small to possibly be a zipfile"),
        a))
  /\ (22 <= file_size ->
        n = Z.min file_size 65557
        /\ reads (snd (read_eocd file_size a)) = (file_size - n, n) :: reads a
        /\ (forall k,
              0 <= k <= n - 22 ->
              eocd_signature_at window n k ->
              (forall j, 0 <= j < k -> ~ eocd_signature_at window n j) ->
              read_eocd file_size a =
                eocd_decode (drop (Z.to_nat (n - k - 22)) window) k a1)
        /\ ((forall k, 0 <= k <= n - 22 -> ~ eocd_signature_at window n k) ->
              read_eocd file_size a =
                (Throw (runtime_error
                          "executable does not appear to contain a zipfile"),
                 a1))).
Proof.
  intros n window a1. split.
  - intros Hsmall. unfold read_eocd, END_OF_CENTRAL_DIRECTORY_LEN.
    destruct (Z.ltb_spec (file_size - 65535 - 22) 0); [|lia].
    destruct (Z.ltb_spec (65535 + (file_size - 65535 - 22)) 0); [|lia].
    reflexivity.
  - intros Hbig.
    assert (Hn : n = Z.min file_size 65557) by (unfold n, eocd_window_len; lia).
    (* the code's own window: [seek_off], [max_comment_len], [buf_len] *)
    assert (Hrun : read_eocd file_size a =
      let c := eocd_scan window n 0 (Z.to_nat (n - 22 + 1)) in
      if c >? n - 22 then
        (Throw (runtime_error
                  "executable does not appear to contain a zipfile"), a1)
      else eocd_decode (drop (Z.to_nat (n - c - 22)) window) c a1).
    { unfold read_eocd, END_OF_CENTRAL_DIRECTORY_LEN.
      destruct (Z.ltb_spec (file_size - 65535 - 22) 0) as [Hlt|Hge].
      - destruct (Z.ltb_spec (65535 + (file_size - 65535 - 22)) 0); [lia|].
        unfold bind at 1. rewrite (stream_seekg_ok a img 0) by (auto; lia).
        unfold bind at 1.
        rewrite (stream_read_exact_ok _ img) by (simpl; auto; lia).
        simpl buf_pos. simpl reads.
        assert (E : eocd_window_len file_size = file_size)
          by (unfold eocd_window_len; lia).
        subst window a1 n. rewrite E.
        replace (65535 + (file_size - 65535 - 22)) with (file_size - 22) by lia.
        replace (file_size - 22 + 22) with file_size by lia.
        replace (file_size - file_size) with 0 by lia.
        cbn [buf_pos with_buf].
        destruct (_ >? _); reflexivity.
      - destruct (Z.ltb_spec 65535 0); [lia|].
        unfold bind at 1.
        rewrite (stream_seekg_ok a img (file_size - 65535 - 22)) by (auto; lia).
        unfold bind at 1.
        rewrite (stream_read_exact_ok _ img) by (simpl; auto; lia).
        simpl buf_pos. simpl reads.
        assert (E : eocd_window_len file_size = 65557)
          by (unfold eocd_window_len; lia).
        subst window a1 n. rewrite E.
        replace (file_size - 65535 - 22) with (file_size - 65557) by lia.
        cbn [buf_pos with_buf].
        replace (file_size - 65557 + (65535 + 22)) with file_size by lia.
        change (65535 + 22) with 65557. change (65557 - 22) with 65535.
        destruct (_ >? _); reflexivity. }
    assert (Htodo : Z.of_nat (Z.to_nat (n - 22 + 1)) = n - 22 + 1) by lia.
    split; [exact Hn|]. split; [|split].
    + rewrite Hrun. cbv zeta. destruct (_ >? n - 22); [reflexivity|].
      rewrite eocd_decode_reads. reflexivity.
    + intros k Hk Hsig Hfirst. rewrite Hrun. cbv zeta.
      rewrite (eocd_scan_first window n _ k) by (auto; lia).
      destruct (Z.gtb_spec k (n - 22)); [lia | reflexivity].
    + intros Hnone. rewrite Hrun. cbv zeta.
      rewrite eocd_scan_none by (intros j Hj; apply Hnone; lia).
      rewrite Htodo.
      destruct (Z.gtb_spec (n - 22 + 1) (n - 22)); [reflexivity | lia].
Qed.

(** ** Central-directory records *)

Lemma land_pow2_eqb (x n : Z) :
  0 <= n -> (Z.land x (2 ^ n) =? 0) = negb (Z.testbit x n).
Proof.
  intros Hn. destruct (Z.testbit x n) eqn:E; simpl.
  - apply Z.eqb_neq. intros H0.
    assert (Hb : Z.testbit (Z.land x (2 ^ n)) n = true).
    { rewrite Z.land_spec, E, Z.pow2_bits_true by exact Hn. reflexivity. }
    rewrite H0, Z.bits_0 in Hb. discriminate.
  - apply Z.eqb_eq. apply Z.bits_inj'. intros m Hm.
    rewrite Z.land_spec, Z.bits_0, Z.pow2_bits_eqb by exact Hn.
    destruct (Z.eqb_spec n m) as [->|Hne].
    + rewrite E. reflexivity.
    + apply andb_false_r.
Qed.

Lemma file_ref_ok (a : archive) (fs : list file) (f : file) (i : nat) :
  files a = Some fs -> fs !! i = Some f -> file_ref i a = (Ok f, a).
Proof. intros Hf Hi. unfold file_ref. rewrite Hf, Hi. reflexivity. Qed.

Lemma file_update_ok (a : archive) (fs : list file) (f : file) (i : nat)
    (g : file -> file) :
  files a = Some fs -> fs !! i = Some f ->
  file_update i g a = (Ok tt, with_files (Some (<[i := g f]> fs)) a).
Proof.
  intros Hf Hi. unfold file_update, bind.
  rewrite (file_ref_ok a fs f i Hf Hi). unfold modify. rewrite Hf. reflexivity.
Qed.

Lemma byte_at_range (p : list byte) (i : nat) : 0 <= byte_at p i < 256.
Proof.
  unfold byte_at, u8. pose proof (Byte.to_N_bounded (nth i p x00)). lia.
Qed.

Lemma get_uint16_range (p : list byte) : 0 <= get_uint16 p < 65536.
Proof.
  unfold get_uint16.
  pose proof (byte_at_range p 0) as H0. pose proof (byte_at_range p 1) as H1.
  assert (Hs : 0 <= Z.shiftl (byte_at p 1) 8 < 65536).
  { rewrite Z.shiftl_mul_pow2 by lia. change (2 ^ 8) with 256. lia. }
  split.
  - apply Z.lor_nonneg. lia.
  - change 65536 with (2 ^ 16).
    destruct (Z.eq_dec (Z.lor (byte_at p 0) (Z.shiftl (byte_at p 1) 8)) 0) as [->|Hnz];
      [reflexivity|].
    apply Z.log2_lt_pow2.
    + assert (0 <= Z.lor (byte_at p 0) (Z.shiftl (byte_at p 1) 8))
        by (apply Z.lor_nonneg; lia). lia.
    + rewrite Z.log2_lor by lia.
      apply Z.max_lub_lt.
      * destruct (Z.eq_dec (byte_at p 0) 0) as [->|]; [simpl; lia|].
        apply Z.log2_lt_pow2; [lia|]. change (2 ^ 16) with 65536. lia.
      * destruct (Z.eq_dec (Z.shiftl (byte_at p 1) 8) 0) as [->|]; [simpl; lia|].
        apply Z.log2_lt_pow2; [lia|]. change (2 ^ 16) with 65536. lia.
Qed.

(** A read of no bytes succeeds wherever the stream stands; a read of
    [n > 0] bytes succeeds when they lie inside the file. *)
Lemma stream_read_exact_any (a : archive) (img : image) (n : Z) :
  buf a = Some img -> stream_failed a = false ->
  0 <= n -> n = 0 \/ buf_pos a + n <= img_size img ->
  stream_read_exact n a =
    (Ok (img_bytes img (buf_pos a) n),
     with_reads ((buf_pos a, n) :: reads a)
       (with_buf (Some img) (buf_pos a + n) a)).
Proof.
  intros Hb Hg Hn Hfit. unfold stream_read_exact, bind, stream_read.
  rewrite Hg, Hb.
  assert (Hc : (n =? 0) || (buf_pos a + n <=? img_size img) = true).
  { destruct Hfit as [->|Hfit]; [reflexivity|].
    apply orb_true_iff. right. apply Z.leb_le. exact Hfit. }
  rewrite Hc. rewrite img_bytes_length by exact Hn.
  rewrite Z.eqb_refl. reflexivity.
Qed.

(** A read that runs past the end of the file, under the exception mask
    [init] sets, throws [std::ios_base::failure]. *)
Lemma stream_read_exact_short (a : archive) (img : image) (n : Z) :
  buf a = Some img -> stream_failed a = false ->
  stream_exceptions a = true ->
  0 < n -> img_size img < buf_pos a + n ->
  exists a', stream_read_exact n a = (Throw ios_failure, a').
Proof.
  intros Hb Hg Hx Hn Hpast. unfold stream_read_exact, bind, stream_read.
  rewrite Hg, Hb.
  destruct (Z.eqb_spec n 0) as [Hz|_]; [lia|].
  destruct (Z.leb_spec (buf_pos a + n) (img_size img)) as [Hle|_]; [lia|].
  cbn [orb]. unfold stream_fail. cbn [stream_exceptions with_buf].
  rewrite Hx. eexists. reflexivity.
Qed.

Lemma land_1_eqb (x : Z) : (Z.land x 1 =? 0) = negb (Z.testbit x 0).
Proof. exact (land_pow2_eqb x 0 (Z.le_refl 0)). Qed.

Lemma land_8_eqb (x : Z) : (Z.land x 8 =? 0) = negb (Z.testbit x 3).
Proof. apply (land_pow2_eqb x 3). lia. Qed.

Lemma gtb_true (x y : Z) : x > y -> (x >? y) = true.
Proof. intros. destruct (Z.gtb_spec x y); [reflexivity | lia]. Qed.

Lemma gtb_false (x y : Z) : x <= y -> (x >? y) = false.
Proof. intros. destruct (Z.gtb_spec x y); [lia | reflexivity]. Qed.

Lemma eqb_true (x y : Z) : x = y -> (x =? y) = true.
Proof. apply Z.eqb_eq. Qed.

Lemma eqb_false (x y : Z) : x <> y -> (x =? y) = false.
Proof. apply Z.eqb_neq. Qed.

Lemma file_update_with_files (a : archive) (fs : list file) (f : file)
    (i : nat) (g : file -> file) :
  fs !! i = Some f ->
  file_update i g (with_files (Some fs) a)
  = (Ok tt, with_files (Some (<[i := g f]> fs)) a).
Proof.
  intros Hi.
  rewrite (file_update_ok (with_files (Some fs) a) fs f i g
             (eq_refl (Some fs)) Hi).
  reflexivity.
Qed.

(** C7, as amended. The central-directory record at the place the stream
    stands at, under the exception mask [init] has set. When fewer than 46
    bytes of the file follow, [read_cd_record] throws
    [std::ios_base::failure] and tests nothing. Otherwise the checks come
    in the order of the code: the signature, the version needed to extract,
    flag bit 0, flag bit 3, the flag mask [0xF7F0], the compression method,
    the disk number; the first check that fails decides the error, and a
    record that fails some check is refused with one of the seven errors.
    A record that passes them all is accepted, stored in its slot and read
    to its end, when its file name and its comment, where not empty, lie
    inside the file; it is refused with [std::ios_base::failure] when one
    of them runs past the end. The eight errors are pairwise distinct. *)
Theorem read_cd_record_checks (img : image) (a : archive) (fs : list file)
    (f : file) (fileno : nat)
    (Hopen : buf a = Some img) (Hgood : stream_failed a = false)
    (Hmask : stream_exceptions a = true)
    (Hpos : 0 <= buf_pos a)
    (Hfiles : files a = Some fs) (Hslot : fs !! fileno = Some f) :
  let rec := img_bytes img (buf_pos a) CENTRAL_DIRECTORY_RECORD_LEN in
  let signature := get_uint32 rec in
  let version := get_uint16 (drop 6 rec) in
  let flags := get_uint16 (drop 8 rec) in
  let method := get_uint16 (drop 10 rec) in
  let disk := get_uint16 (drop 34 rec) in
  let filename_length := get_uint16 (drop 28 rec) in
  let extra_length := get_uint16 (drop 30 rec) in
  let comment_length := get_uint16 (drop 32 rec) in
  let result := fst (read_cd_record fileno a) in
  let signature_ok := signature = 0x02014b50 in
  let version_ok := version <= 20 in
  let flags_ok := Z.testbit flags 0 = false /\ Z.testbit flags 3 = false
                  /\ Z.land flags 0xF7F0 = 0 in
  let method_ok := method = 0 \/ method = 8 in
  let disk_ok := disk = 0 in
  let name_end := buf_pos a + CENTRAL_DIRECTORY_RECORD_LEN + filename_length in
  let comment_end := name_end + extra_length + comment_length in
  let name_ok := filename_length = 0 \/ name_end <= img_size img in
  let comment_ok := comment_length = 0 \/ comment_end <= img_size img in
  (img_size img < buf_pos a + CENTRAL_DIRECTORY_RECORD_LEN ->
   result = Throw ios_failure)
  /\ (buf_pos a + CENTRAL_DIRECTORY_RECORD_LEN <= img_size img ->
      (~ signature_ok -> result = Throw cd_corrupted)
      /\ (signature_ok -> ~ version_ok -> result = Throw cd_version)
      /\ (signature_ok -> version_ok -> Z.testbit flags 0 = true ->
          result = Throw cd_encrypted)
      /\ (signature_ok -> version_ok -> Z.testbit flags 0 = false ->
          Z.testbit flags 3 = true -> result = Throw cd_data_descriptors)
      /\ (signature_ok -> version_ok -> Z.testbit flags 0 = false ->
          Z.testbit flags 3 = false -> Z.land flags 0xF7F0 <> 0 ->
          result = Throw cd_flags)
      /\ (signature_ok -> version_ok -> flags_ok -> ~ method_ok ->
          result = Throw cd_method)
      /\ (signature_ok -> version_ok -> flags_ok -> method_ok -> ~ disk_ok ->
          result = Throw cd_multipart)
      /\ (signature_ok -> version_ok -> flags_ok -> method_ok -> disk_ok ->
          name_ok -> comment_ok ->
          result = Ok (img_bytes img (buf_pos a + CENTRAL_DIRECTORY_RECORD_LEN)
                         filename_length)
          /\ files (snd (read_cd_record fileno a))
             = Some (<[fileno := cd_entry rec f]> fs)
          /\ buf_pos (snd (read_cd_record fileno a)) = comment_end)
      /\ (signature_ok -> version_ok -> flags_ok -> method_ok -> disk_ok ->
          ~ (name_ok /\ comment_ok) -> result = Throw ios_failure)
      /\ (~ (signature_ok /\ version_ok /\ flags_ok /\ method_ok /\ disk_ok) ->
          exists e, e ∈ [cd_corrupted; cd_version; cd_encrypted;
                         cd_data_descriptors; cd_flags; cd_method;
                         cd_multipart]
                    /\ result = Throw e))
  /\ NoDup [cd_corrupted; cd_version; cd_encrypted; cd_data_descriptors;
            cd_flags; cd_method; cd_multipart; ios_failure].
Proof.
  intros rec signature version flags method disk filename_length
    extra_length comment_length result signature_ok version_ok flags_ok
    method_ok disk_ok name_end comment_end name_ok comment_ok.
  assert (Hdistinct : NoDup [cd_corrupted; cd_version; cd_encrypted;
                             cd_data_descriptors; cd_flags; cd_method;
                             cd_multipart; ios_failure]).
  { unfold cd_corrupted, cd_version, cd_encrypted, cd_data_descriptors,
    cd_flags, cd_method, cd_multipart.
    repeat (apply NoDup_cons; split;
    [rewrite ?not_elem_of_cons; repeat split;
    solve [discriminate | apply not_elem_of_nil]|]).
    apply NoDup_nil. exact I. }
  split; [|split; [|exact Hdistinct]].
  { (* fewer than 46 bytes are left *)
    intros Hshort. subst result. unfold read_cd_record. unfold bind at 1.
    destruct (stream_read_exact_short a img CENTRAL_DIRECTORY_RECORD_LEN
                Hopen Hgood Hmask) as (a' & ->);
      [unfold CENTRAL_DIRECTORY_RECORD_LEN; lia | exact Hshort |].
    reflexivity. }
  intros Hfit.
  assert (Hlen : 0 <= CENTRAL_DIRECTORY_RECORD_LEN) by (unfold CENTRAL_DIRECTORY_RECORD_LEN; lia).
  assert (Hrun : read_cd_record fileno a = read_cd_record fileno a) by reflexivity.
  unfold read_cd_record at 2 in Hrun. unfold bind at 1 in Hrun.
  rewrite (stream_read_exact_ok a img _ Hopen Hgood Hlen Hfit) in Hrun.
  fold rec in Hrun. fold signature version flags method disk
    filename_length extra_length comment_length in Hrun.
  rewrite land_1_eqb, land_8_eqb, !negb_involutive in Hrun.
  set (a1 := with_reads _ _) in Hrun.
  assert (C1 : ~ signature_ok -> result = Throw cd_corrupted).
  { subst result signature_ok version_ok flags_ok method_ok disk_ok.
    cbv beta.
    intros Hs. rewrite Hrun. rewrite (eqb_false _ _ Hs). norm. reflexivity. }
  assert (C2 : signature_ok -> ~ version_ok -> result = Throw cd_version).
  { subst result signature_ok version_ok flags_ok method_ok disk_ok.
    cbv beta.
    intros Hs Hv. rewrite Hrun. rewrite (eqb_true _ _ Hs). norm.
    rewrite gtb_true by lia. norm. reflexivity. }
  assert (C3 : signature_ok -> version_ok -> Z.testbit flags 0 = true ->
            result = Throw cd_encrypted).
  { subst result signature_ok version_ok flags_ok method_ok disk_ok.
    cbv beta.
    intros Hs Hv H0. rewrite Hrun. rewrite (eqb_true _ _ Hs). norm.
    rewrite gtb_false by lia. rewrite H0. norm. reflexivity. }
  assert (C4 : signature_ok -> version_ok -> Z.testbit flags 0 = false ->
            Z.testbit flags 3 = true -> result = Throw cd_data_descriptors).
  { subst result signature_ok version_ok flags_ok method_ok disk_ok.
    cbv beta.
    intros Hs Hv H0 H3. rewrite Hrun. rewrite (eqb_true _ _ Hs). norm.
    rewrite gtb_false by lia. rewrite H0, H3. norm. reflexivity. }
  assert (C5 : signature_ok -> version_ok -> Z.testbit flags 0 = false ->
            Z.testbit flags 3 = false -> Z.land flags 0xF7F0 <> 0 ->
            result = Throw cd_flags).
  { subst result signature_ok version_ok flags_ok method_ok disk_ok.
    cbv beta.
    intros Hs Hv H0 H3 Hm. rewrite Hrun. rewrite (eqb_true _ _ Hs). norm.
    rewrite gtb_false by lia. rewrite H0, H3, (eqb_false _ _ Hm). norm. reflexivity. }
  assert (C6 : signature_ok -> version_ok -> flags_ok -> ~ method_ok ->
            result = Throw cd_method).
  { subst result signature_ok version_ok flags_ok method_ok disk_ok.
    cbv beta.
    intros Hs Hv (H0 & H3 & Hm) Hmeth. rewrite Hrun. rewrite (eqb_true _ _ Hs). norm.
    rewrite gtb_false by lia. rewrite H0, H3, (eqb_true _ _ Hm). norm.
    step. rewrite (file_update_ok a1 fs f fileno _ Hfiles Hslot).
    unfold METHOD_STORE, METHOD_DEFLATE.
    rewrite !eqb_false by tauto. norm. reflexivity. }
  assert (C7 : signature_ok -> version_ok -> flags_ok -> method_ok -> ~ disk_ok ->
            result = Throw cd_multipart).
  { subst result signature_ok version_ok flags_ok method_ok disk_ok.
    cbv beta.
    intros Hs Hv (H0 & H3 & Hm) Hmeth Hd. rewrite Hrun. rewrite (eqb_true _ _ Hs). norm.
    rewrite gtb_false by lia. rewrite H0, H3, (eqb_true _ _ Hm). norm.
    step. rewrite (file_update_ok a1 fs f fileno _ Hfiles Hslot).
    assert (Hmb : negb (method =? METHOD_STORE) && negb (method =? METHOD_DEFLATE) = false).
    { unfold METHOD_STORE, METHOD_DEFLATE. destruct Hmeth as [->| ->]; reflexivity. }
    rewrite Hmb. norm.
    assert (Hi : (fileno < length fs)%nat) by (eapply lookup_lt_Some; eauto).
    step. rewrite file_update_with_files with (f := with_f_method method f)
    by (apply list_lookup_insert_eq; exact Hi).
    step. erewrite file_update_with_files
    by (apply list_lookup_insert_eq; rewrite length_insert; exact Hi).
    step. erewrite file_update_with_files
    by (apply list_lookup_insert_eq; rewrite !length_insert; exact Hi).
    pose proof (get_uint16_range (drop 34 rec)) as Hdr. fold disk in Hdr.
    rewrite gtb_true by lia. norm. reflexivity. }
  (* the state after the checks and the four stores *)
  assert (Hpassed : signature_ok -> version_ok -> flags_ok -> method_ok ->
            disk_ok ->
            read_cd_record fileno a
            = (filename <- stream_read_exact filename_length ;;
               stream_seekg_cur extra_length ;;;
               modify (with_comment
                         (Some (replicate (Z.to_nat comment_length) x00))) ;;;
               c <- stream_read_exact comment_length ;;
               modify (with_comment (Some c)) ;;;
               ret filename)
                (with_files (Some (<[fileno := cd_entry rec f]> fs)) a1)).
  { subst result signature_ok version_ok flags_ok method_ok disk_ok.
    cbv beta.
    intros Hs Hv (H0 & H3 & Hm) Hmeth Hd.
    rewrite (eqb_true _ _ Hs) in Hrun. normH Hrun.
    rewrite gtb_false in Hrun by lia.
    rewrite H0, H3, (eqb_true _ _ Hm) in Hrun. normH Hrun.
    stepH Hrun. rewrite (file_update_ok a1 fs f fileno _ Hfiles Hslot) in Hrun.
    assert (Hmb : negb (method =? METHOD_STORE) && negb (method =? METHOD_DEFLATE) = false).
    { unfold METHOD_STORE, METHOD_DEFLATE. destruct Hmeth as [->| ->]; reflexivity. }
    rewrite Hmb in Hrun. normH Hrun.
    assert (Hi : (fileno < length fs)%nat) by (eapply lookup_lt_Some; eauto).
    stepH Hrun.
    rewrite file_update_with_files with (f := with_f_method method f) in Hrun
    by (apply list_lookup_insert_eq; exact Hi).
    stepH Hrun. erewrite file_update_with_files in Hrun
    by (apply list_lookup_insert_eq; rewrite length_insert; exact Hi).
    stepH Hrun. erewrite file_update_with_files in Hrun
    by (apply list_lookup_insert_eq; rewrite !length_insert; exact Hi).
    rewrite gtb_false in Hrun by lia. normH Hrun.
    stepH Hrun. erewrite file_update_with_files in Hrun
    by (apply list_lookup_insert_eq; rewrite !length_insert; exact Hi).
    rewrite !list_insert_insert_eq in Hrun.
    exact Hrun. }
  pose proof (get_uint16_range (drop 28 rec)) as Hfn. fold filename_length in Hfn.
  pose proof (get_uint16_range (drop 30 rec)) as Hex. fold extra_length in Hex.
  pose proof (get_uint16_range (drop 32 rec)) as Hcm. fold comment_length in Hcm.
  set (a2 := with_files (Some (<[fileno := cd_entry rec f]> fs)) a1) in *.
  assert (Hb2 : buf a2 = Some img) by reflexivity.
  assert (Hg2 : stream_failed a2 = false) by exact Hgood.
  assert (Hx2 : stream_exceptions a2 = true) by exact Hmask.
  assert (Hp2 : buf_pos a2 = buf_pos a + CENTRAL_DIRECTORY_RECORD_LEN)
    by reflexivity.
  assert (C8 : signature_ok -> version_ok -> flags_ok -> method_ok -> disk_ok ->
            name_ok -> comment_ok ->
            result = Ok (img_bytes img (buf_pos a + CENTRAL_DIRECTORY_RECORD_LEN)
                           filename_length)
            /\ files (snd (read_cd_record fileno a))
               = Some (<[fileno := cd_entry rec f]> fs)
            /\ buf_pos (snd (read_cd_record fileno a)) = comment_end).
  { intros Hs Hv Hfl Hmeth Hd Hname Hcomment. subst result.
    assert (Hfull : exists a',
              read_cd_record fileno a
              = (Ok (img_bytes img (buf_pos a + CENTRAL_DIRECTORY_RECORD_LEN)
                       filename_length), a')
              /\ files a' = Some (<[fileno := cd_entry rec f]> fs)
              /\ buf_pos a' = comment_end).
    { rewrite (Hpassed Hs Hv Hfl Hmeth Hd). eexists. split.
      - step.
        rewrite (stream_read_exact_any a2 img filename_length Hb2 Hg2)
          by (rewrite ?Hp2; solve [lia | exact Hname]).
        step. unfold stream_seekg_cur.
        rewrite (stream_seekg_ok _ img)
          by (cbn [buf buf_pos stream_failed with_reads with_buf];
              solve [reflexivity | exact Hg2 | rewrite Hp2; lia]).
        step. unfold modify at 1. step.
        rewrite (stream_read_exact_any _ img comment_length)
          by (cbn [buf buf_pos stream_failed with_reads with_buf with_comment];
              solve [reflexivity | exact Hg2 | lia
                    | rewrite Hp2;
                      unfold comment_ok, comment_end, name_end in Hcomment;
                      destruct Hcomment; [left; assumption | right; lia]]).
        unfold bind, modify, ret. cbv beta iota. rewrite Hp2. reflexivity.
      - cbn [files buf_pos with_comment with_reads with_buf].
        split; [reflexivity|]. rewrite ?Hp2. unfold comment_end, name_end.
        lia. }
    destruct Hfull as (a' & -> & Hf' & Hp'). cbn [fst snd].
    split; [reflexivity|]. split; assumption. }
  assert (C9 : signature_ok -> version_ok -> flags_ok -> method_ok -> disk_ok ->
            ~ (name_ok /\ comment_ok) -> result = Throw ios_failure).
  { intros Hs Hv Hfl Hmeth Hd Hnot. subst result.
    rewrite (Hpassed Hs Hv Hfl Hmeth Hd).
    assert (Hcase : ~ name_ok \/ (name_ok /\ ~ comment_ok)).
    { unfold name_ok, comment_ok in *.
      destruct (Z.eq_dec filename_length 0);
        destruct (Z_le_dec name_end (img_size img));
        destruct (Z.eq_dec comment_length 0);
        destruct (Z_le_dec comment_end (img_size img)); tauto. }
    destruct Hcase as [Hname | (Hname & Hcomment)].
    - unfold name_ok, name_end in Hname. step.
      destruct (stream_read_exact_short a2 img filename_length Hb2 Hg2 Hx2)
        as (a' & ->); [lia | rewrite Hp2; lia |].
      reflexivity.
    - step.
      rewrite (stream_read_exact_any a2 img filename_length Hb2 Hg2)
        by (rewrite ?Hp2; solve [lia | exact Hname]).
      step. unfold stream_seekg_cur.
      rewrite (stream_seekg_ok _ img)
        by (cbn [buf buf_pos stream_failed with_reads with_buf];
            solve [reflexivity | exact Hg2 | rewrite Hp2; lia]).
      step. unfold modify at 1. step.
      unfold comment_ok, comment_end, name_end in Hcomment.
      match goal with
      | |- fst (match stream_read_exact _ ?s with _ => _ end) = _ =>
          destruct (stream_read_exact_short s img comment_length)
            as (a' & ->)
      end;
        try solve [reflexivity | exact Hg2 | exact Hx2 | lia
                  | cbn [buf_pos with_reads with_buf with_comment];
                    rewrite Hp2; lia]. }
  repeat match goal with |- _ /\ _ => split end; try assumption.
  (* a record that fails some check is refused *)
  intros Hnot.
  destruct (Z.eq_dec signature 0x02014b50) as [Hs|Hs];
    [|exists cd_corrupted; split; [in_list | exact (C1 Hs)]].
  destruct (Z_le_dec version 20) as [Hv|Hv];
    [|exists cd_version; split; [in_list | exact (C2 Hs Hv)]].
  destruct (Bool.bool_dec (Z.testbit flags 0) true) as [H0|H0];
    [exists cd_encrypted; split; [in_list | exact (C3 Hs Hv H0)]|].
  apply Bool.not_true_is_false in H0.
  destruct (Bool.bool_dec (Z.testbit flags 3) true) as [H3|H3];
    [exists cd_data_descriptors; split; [in_list | exact (C4 Hs Hv H0 H3)]|].
  apply Bool.not_true_is_false in H3.
  destruct (Z.eq_dec (Z.land flags 0xF7F0) 0) as [Hm|Hm];
    [|exists cd_flags; split; [in_list | exact (C5 Hs Hv H0 H3 Hm)]].
  assert (Hflags : flags_ok) by (repeat split; assumption).
  destruct (Z.eq_dec method 0) as [Hm0|Hm0];
    [|destruct (Z.eq_dec method 8) as [Hm8|Hm8]].
  - destruct (Z.eq_dec disk 0) as [Hd|Hd].
    + exfalso. apply Hnot. repeat split; try assumption. left. exact Hm0.
    + exists cd_multipart. split; [in_list|].
      apply C7; try assumption. left. exact Hm0.
  - destruct (Z.eq_dec disk 0) as [Hd|Hd].
    + exfalso. apply Hnot. repeat split; try assumption. right. exact Hm8.
    + exists cd_multipart. split; [in_list|].
      apply C7; try assumption. right. exact Hm8.
  - exists cd_method. split; [in_list|].
    apply C6; try assumption. intros [Hx|Hx]; contradiction.
Qed.

(** ** Local headers *)

(** What a read that delivers [n > 0] bytes says about the stream. *)
Lemma stream_read_exact_inv (n : Z) (a a' : archive) (bs : list byte) :
  0 < n -> stream_read_exact n a = (Ok bs, a') ->
  stream_failed a = false
  /\ exists img,
       buf a = Some img /\ buf_pos a + n <= img_size img
       /\ bs = img_bytes img (buf_pos a) n
       /\ a' = with_reads ((buf_pos a, n) :: reads a)
                 (with_buf (Some img) (buf_pos a + n) a).
Proof.
  intros Hn Hrun. unfold stream_read_exact, bind, stream_read in Hrun.
  assert (Hshort : forall r : list byte, Z.of_nat (length r) < n ->
            forall s : archive,
              assert_that (S := archive) (Z.of_nat (length r) =? n) s
              = (Crash assertion_failed, s)).
  { intros r Hr s. rewrite eqb_false by lia. reflexivity. }
  destruct (stream_failed a) eqn:Hf.
  - unfold stream_fail in Hrun.
    destruct (stream_exceptions a); [discriminate|].
    rewrite Hshort in Hrun by (simpl; lia). discriminate.
  - split; [reflexivity|].
    destruct (buf a) as [img|] eqn:Hb.
    + destruct (Z.leb_spec (buf_pos a + n) (img_size img)) as [Hfit|Hno].
      * rewrite orb_true_r in Hrun.
        rewrite img_bytes_length in Hrun by lia.
        rewrite Z.eqb_refl in Hrun. unfold assert_that, ret in Hrun.
        inversion Hrun; subst. exists img. auto.
      * rewrite eqb_false in Hrun by lia. simpl in Hrun.
        unfold stream_fail in Hrun. cbn [stream_exceptions with_buf] in Hrun.
        destruct (stream_exceptions a); [discriminate|].
        rewrite Hshort in Hrun by (rewrite img_bytes_length; lia).
        discriminate.
    + rewrite eqb_false in Hrun by lia. unfold stream_fail in Hrun.
      destruct (stream_exceptions a); [discriminate|].
      rewrite Hshort in Hrun by (simpl; lia). discriminate.
Qed.

(** A seek that leaves the stream good has moved the read position. *)
Lemma stream_seekg_inv (off : Z) (a a' : archive) (r : outcome unit) :
  stream_seekg off a = (r, a') -> stream_failed a' = false ->
  stream_failed a = false /\ 0 <= off /\ r = Ok tt
  /\ exists img, buf a = Some img /\ a' = with_buf (Some img) off a.
Proof.
  unfold stream_seekg, stream_fail. intros Hrun Hgood.
  destruct (stream_failed a) eqn:Hf.
  - destruct (stream_exceptions a); inversion Hrun; subst; discriminate.
  - destruct (buf a) as [img|].
    + destruct (Z.ltb_spec off 0).
      * destruct (stream_exceptions a); inversion Hrun; subst; discriminate.
      * inversion Hrun; subst. repeat split; try lia. exists img. auto.
    + destruct (stream_exceptions a); inversion Hrun; subst; discriminate.
Qed.

Lemma read_header_inv (img : image) (a a' : archive) (fs : list file)
    (f : file) (i : nat) (offset : Z) :
  buf a = Some img -> files a = Some fs -> fs !! i = Some f ->
  read_header i offset a = (Ok tt, a') ->
  0 <= offset /\ offset + LOCAL_FILE_HEADER_LEN <= img_size img
  /\ local_signature_ok img offset
  /\ a' = with_files (Some (<[i := with_f_offset (data_offset img offset) f]> fs))
            (with_reads ((offset, LOCAL_FILE_HEADER_LEN) :: reads a)
               (with_buf (Some img) (offset + LOCAL_FILE_HEADER_LEN) a)).
Proof.
  intros Hb Hfs Hi Hrun. unfold read_header in Hrun.
  unfold bind at 1 in Hrun.
  destruct (stream_seekg offset a) as [[[]|e|c] a1] eqn:Hseek; try discriminate.
  unfold bind at 1 in Hrun.
  destruct (stream_read_exact LOCAL_FILE_HEADER_LEN a1) as [[hdr|e|c] a2] eqn:Hread;
    try discriminate.
  apply stream_read_exact_inv in Hread as (Hg1 & img1 & Hb1 & Hfit & -> & ->);
    [|unfold LOCAL_FILE_HEADER_LEN; lia].
  apply stream_seekg_inv in Hseek as (Hg & Hoff & _ & img0 & Hb0 & ->);
    [|exact Hg1].
  rewrite Hb in Hb0. inversion Hb0; subst img0. clear Hb0.
  cbn [buf buf_pos with_buf] in Hb1, Hfit, Hrun. inversion Hb1; subst img1.
  clear Hb1.
  unfold local_signature_ok, data_offset.
  destruct (Z.eqb_spec (get_uint32 (img_bytes img offset LOCAL_FILE_HEADER_LEN))
              0x04034b50) as [Hsig|Hsig]; cbn [negb] in Hrun; [|discriminate].
  erewrite file_update_ok in Hrun by (cbn; eauto).
  inversion Hrun; subst. repeat split; try assumption.
Qed.



Lemma read_headers_spec (img : image) (todo : nat) :
  forall (i : nat) (a a' : archive) (fs : list file),
    buf a = Some img -> files a = Some fs ->
    (i + todo = length fs)%nat ->
    read_headers i todo a = (Ok tt, a') ->
    files a' = Some (take i fs ++ map (resolve img) (drop i fs))
    /\ reads a'
       = rev (map (fun f => (f_offset f, LOCAL_FILE_HEADER_LEN)) (drop i fs))
         ++ reads a
    /\ Forall (header_readable img) (drop i fs)
    /\ buf a' = Some img.
Proof.
  induction todo as [|todo IH]; intros i a a' fs Hb Hfs Hlen Hrun.
  - simpl in Hrun. inversion Hrun; subst a'.
    rewrite drop_ge by lia. rewrite take_ge by lia. simpl.
    rewrite app_nil_r. auto.
  - simpl in Hrun. unfold bind at 1 in Hrun.
    destruct (lookup_lt_is_Some_2 fs i) as [f Hi]; [lia|].
    rewrite (file_ref_ok a fs f i Hfs Hi) in Hrun.
    unfold bind at 1 in Hrun.
    destruct (read_header i (f_offset f) a) as [[[]|e|c] a1] eqn:Hhdr;
      try discriminate.
    apply (read_header_inv img a a1 fs f i _ Hb Hfs Hi)
      in Hhdr as (Hoff & Hfit & Hsig & ->).
    apply (IH (S i) _ a' (<[i := resolve img f]> fs)) in Hrun;
      [|reflexivity|reflexivity|rewrite length_insert; lia].
    destruct Hrun as (Hf' & Hr' & Hall & Hb').
    rewrite (drop_S fs f i Hi).
    rewrite drop_insert_lt in Hf', Hr', Hall by lia.
    rewrite take_insert_lt in Hf' by lia.
    rewrite (take_S_r fs i f Hi) in Hf'.
    rewrite insert_app_r_alt in Hf' by (rewrite length_take; lia).
    rewrite length_take in Hf'.
    replace (i - i `min` length fs)%nat with O in Hf' by lia.
    cbn [map rev]. split; [|split; [|split]].
    + rewrite Hf'. simpl. rewrite <- app_assoc. reflexivity.
    + rewrite Hr'. cbn [reads with_files with_reads with_buf].
      rewrite <- app_assoc. reflexivity.
    + constructor; [repeat split; assumption | assumption].
    + exact Hb'.
Qed.

(** ** What the parser leaves alone

    [same_index a a']: from [a] to [a'] the entry count and the name index
    did not change, the entry array kept its length, and no entry's comment
    was touched. *)

Lemma same_index_refl (a : archive) : same_index a a.
Proof. repeat split. Qed.

Lemma same_index_trans (a b c : archive) :
  same_index a b -> same_index b c -> same_index a c.
Proof.
  intros (H1 & H2 & H3) (H4 & H5 & H6).
  repeat split; etransitivity; eassumption.
Qed.

Lemma preserves_ret {A} (x : A) : preserves (ret x).
Proof. intros a. apply same_index_refl. Qed.

Lemma preserves_throw {A} (e : exn) : preserves (throw (A := A) e).
Proof. intros a. apply same_index_refl. Qed.

Lemma preserves_abort {A} (c : crash) : preserves (abort (A := A) c).
Proof. intros a. apply same_index_refl. Qed.

Lemma preserves_bind {A B} (m : M archive A) (k : A -> M archive B) :
  preserves m -> (forall x, preserves (k x)) -> preserves (bind m k).
Proof.
  intros Hm Hk a. unfold bind. specialize (Hm a).
  destruct (m a) as [[x|e|c] a1]; simpl in *; try exact Hm.
  eapply same_index_trans; [exact Hm | apply Hk].
Qed.

Lemma preserves_if {A} (b : bool) (m1 m2 : M archive A) :
  preserves m1 -> preserves m2 -> preserves (if b then m1 else m2).
Proof. destruct b; auto. Qed.

Lemma preserves_modify (g : archive -> archive) :
  (forall a, same_index a (g a)) -> preserves (modify g).
Proof. intros Hg a. apply Hg. Qed.

Lemma preserves_get_state : preserves get_state.
Proof. intros a. apply same_index_refl. Qed.

Lemma preserves_assert_that (b : bool) : preserves (assert_that b).
Proof. intros a. destruct b; apply same_index_refl. Qed.

Lemma preserves_stream_fail {A} (d : A) : preserves (stream_fail d).
Proof.
  intros a. unfold stream_fail. destruct (stream_exceptions a); repeat split.
Qed.

Lemma preserves_stream_seekg (off : Z) : preserves (stream_seekg off).
Proof.
  intros a. unfold stream_seekg.
  destruct (stream_failed a); [apply preserves_stream_fail|].
  destruct (buf a); [|apply preserves_stream_fail].
  destruct (off <? 0); [apply preserves_stream_fail | repeat split].
Qed.

Lemma preserves_stream_seekg_cur (off : Z) : preserves (stream_seekg_cur off).
Proof. intros a. apply preserves_stream_seekg. Qed.

Lemma preserves_stream_read (n : Z) : preserves (stream_read n).
Proof.
  intros a. unfold stream_read.
  destruct (stream_failed a); [apply preserves_stream_fail|].
  destruct (buf a) as [img|].
  - destruct ((n =? 0) || _); [repeat split|].
    apply (preserves_stream_fail _ (with_buf _ _ a)).
  - destruct (n =? 0); [repeat split | apply preserves_stream_fail].
Qed.

Lemma preserves_stream_read_exact (n : Z) : preserves (stream_read_exact n).
Proof.
  unfold stream_read_exact.
  apply preserves_bind; [apply preserves_stream_read|]. intros bs.
  apply preserves_bind; [apply preserves_assert_that|]. intros _.
  apply preserves_ret.
Qed.

Lemma preserves_file_update (i : nat) (g : file -> file) :
  (forall f, f_comment (g f) = f_comment f) -> preserves (file_update i g).
Proof.
  intros Hg a. unfold file_update, bind, file_ref, modify.
  destruct (files a) as [fs|] eqn:Hfs; [|repeat split].
  destruct (fs !! i) as [f|] eqn:Hi; [|repeat split].
  repeat split. unfold entry_comments. cbn [files with_files snd].
  rewrite Hfs. simpl. f_equal.
  rewrite list_fmap_insert. apply list_insert_id.
  rewrite list_lookup_fmap, Hi. simpl. f_equal. symmetry. apply Hg.
Qed.

Lemma preserves_with_comment (c : option (list byte)) :
  preserves (modify (with_comment c)).
Proof. apply preserves_modify. intros a. repeat split. Qed.

Lemma preserves_read_cd_record (fileno : nat) :
  preserves (read_cd_record fileno).
Proof.
  unfold read_cd_record.
  repeat first
    [ apply preserves_throw
    | apply preserves_ret
    | apply preserves_if
    | apply preserves_stream_read_exact
    | apply preserves_stream_seekg_cur
    | apply preserves_with_comment
    | apply preserves_file_update; intros f; reflexivity
    | apply preserves_bind; [|intros ?] ].
Qed.

Lemma preserves_read_cd_records (todo : nat) :
  forall fileno, preserves (read_cd_records fileno todo).
Proof.
  induction todo as [|todo IH]; intros fileno; simpl.
  - apply preserves_ret.
  - apply preserves_bind; [apply preserves_read_cd_record|]. intros filename.
    apply preserves_bind; [apply IH|]. intros rest. apply preserves_ret.
Qed.

Lemma preserves_link_filenames (elems : list (list byte * Z)) :
  preserves (link_filenames elems).
Proof.
  induction elems as [|[key i] rest IH]; simpl.
  - apply preserves_ret.
  - apply preserves_bind; [|intros _; exact IH].
    unfold file_update_at. apply preserves_if; [apply preserves_abort|].
    apply preserves_file_update. intros f. reflexivity.
Qed.

Lemma preserves_read_header (i : nat) (offset : Z) :
  preserves (read_header i offset).
Proof.
  unfold read_header.
  repeat first
    [ apply preserves_throw
    | apply preserves_if
    | apply preserves_stream_read_exact
    | apply preserves_stream_seekg
    | apply preserves_file_update; intros f; reflexivity
    | apply preserves_bind; [|intros ?] ].
Qed.

Lemma preserves_read_headers (todo : nat) :
  forall i, preserves (read_headers i todo).
Proof.
  induction todo as [|todo IH]; intros i; simpl.
  - apply preserves_ret.
  - apply preserves_bind.
    + intros a. unfold file_ref. destruct (files a) as [fs|]; [|repeat split].
      destruct (fs !! i); repeat split.
    + intros f. apply preserves_bind; [apply preserves_read_header|].
      intros _. apply IH.
Qed.

(** ** The name index *)

Lemma emplace_all_lookup (names : list (list byte)) :
  forall (fileno : Z) (m : gmap (list byte) Z) (name : list byte),
    emplace_all names fileno m !! name
    = match m !! name with
      | Some v => Some v
      | None =>
          (fun '(i, _) => fileno + Z.of_nat i)
            <$> list_find (fun n => n = name) names
      end.
Proof.
  induction names as [|n rest IH]; intros fileno m name; simpl.
  - destruct (m !! name); reflexivity.
  - rewrite IH. unfold emplace.
    destruct (decide (n = name)) as [->|Hne].
    + destruct (m !! name) eqn:Hm; [rewrite Hm; reflexivity|].
      rewrite lookup_insert_eq. simpl. f_equal. lia.
    + assert (Hm' : (match m !! n with
                     | Some _ => m
                     | None => <[n:=fileno]> m
                     end) !! name = m !! name).
      { destruct (m !! n); [reflexivity|]. apply lookup_insert_ne. exact Hne. }
      rewrite Hm'. destruct (m !! name); [reflexivity|].
      destruct (list_find _ rest) as [[i x]|]; simpl; [|reflexivity].
      f_equal. lia.
Qed.







(** ** The checksum of a deflated entry *)


Section DeflatedCrc.
Context (zl : zlib).
Local Abbreviation dsb := (deflated_streambuf.t zl).
Local Abbreviation crc := (deflated_streambuf.crc zl).
Local Abbreviation out_cur_pos := (deflated_streambuf.out_cur_pos zl).
Local Abbreviation out_end_pos := (deflated_streambuf.out_end_pos zl).
Local Abbreviation desired_crc := (deflated_streambuf.desired_crc zl).
Local Abbreviation garea := (deflated_streambuf.garea zl).
Local Abbreviation CRC32_new := (deflated_streambuf.CRC32_new).

Lemma same_out_refl (s : dsb * archive) : same_out s s.
Proof. repeat split. Qed.

Lemma same_out_trans (s1 s2 s3 : dsb * archive) :
  same_out s1 s2 -> same_out s2 s3 -> same_out s1 s3.
Proof.
  intros (A1 & A2 & A3 & A4 & A5) (B1 & B2 & B3 & B4 & B5).
  repeat split; etransitivity; eassumption.
Qed.

Lemma fill_input_same_out (s : dsb * archive) :
  same_out s (snd (deflated_streambuf.fill_input zl s)).
Proof.
  unfold deflated_streambuf.fill_input, bind, get_sb, lift_tez, modify_sb, ret. simpl.
  destruct (bool_decide _); [|apply same_out_refl].
  destruct (read_for_file _ _ (snd s)) as [[bs|e|c] a']; simpl;
    repeat split.
Qed.

Lemma call_inflate_same_out (s : dsb * archive) :
  same_out s (snd (deflated_streambuf.call_inflate zl s))
  /\ exists r, fst (deflated_streambuf.call_inflate zl s) = Ok r.
Proof.
  unfold deflated_streambuf.call_inflate, bind, get_sb, modify_sb, ret. simpl.
  split; [repeat split | eauto].
Qed.

Lemma refill_spec (fuel : nat) :
  forall (s s' : dsb * archive) (r : outcome (list byte)),
    deflated_streambuf.refill zl fuel s = (r, s') ->
    same_out s s' /\ (forall out, r = Ok out -> out <> []).
Proof.
  induction fuel as [|fuel IH]; intros s s' r Hrun; simpl in Hrun.
  - inversion Hrun; subst. split; [apply same_out_refl | discriminate].
  - unfold bind at 1 in Hrun.
    pose proof (fill_input_same_out s) as H1.
    destruct (deflated_streambuf.fill_input zl s) as [[[]|e|c] s1]; simpl in H1;
      try (inversion Hrun; subst; split; [exact H1 | discriminate]).
    unfold bind at 1 in Hrun.
    destruct (call_inflate_same_out s1) as (H2 & r2 & Hr2).
    destruct (deflated_streambuf.call_inflate zl s1) as [o2 s2]. simpl in H2, Hr2. subst o2.
    pose proof (same_out_trans _ _ _ H1 H2) as H12.
    destruct (negb _ && negb _).
    { inversion Hrun; subst. split; [exact H12 | discriminate]. }
    destruct (bool_decide (ir_produced r2 = [])) eqn:Hb.
    + destruct (IH _ _ _ Hrun) as (H3 & Hne).
      split; [eapply same_out_trans; eassumption | exact Hne].
    + inversion Hrun; subst. split; [exact H12|].
      intros out Hout. inversion Hout; subst.
      apply bool_decide_eq_false in Hb. exact Hb.
Qed.

(** The three ways [underflow] can go. *)
Lemma underflow_cases (fuel : nat) (s s' : dsb * archive)
    (r : outcome (option byte)) :
  deflated_streambuf.underflow zl fuel s = (r, s') ->
  out_end_pos (fst s') = out_end_pos (fst s)
  /\ desired_crc (fst s') = desired_crc (fst s)
  /\ ((out_cur_pos (fst s) = out_end_pos (fst s)
       /\ r = Ok None /\ s' = s)
      \/ (out_cur_pos (fst s) <> out_end_pos (fst s)
          /\ (forall x, r <> Ok x)
          /\ same_out s s')
      \/ (out_cur_pos (fst s) <> out_end_pos (fst s)
          /\ exists out,
               out <> []
               /\ garea (fst s') = {| ga_bytes := out; ga_next := 0 |}
               /\ crc (fst s') = crc32 (crc (fst s)) out
               /\ out_cur_pos (fst s')
                  = u32 (out_cur_pos (fst s) + Z.of_nat (length out))
               /\ ((out_cur_pos (fst s') = out_end_pos (fst s')
                    /\ crc (fst s') <> desired_crc (fst s')
                    /\ r = Throw checksum_mismatch)
                   \/ ((out_cur_pos (fst s') = out_end_pos (fst s')
                        -> crc (fst s') = desired_crc (fst s'))
                       /\ r = Ok (Some (nth 0 out x00)))))).
Proof.
  intros Hrun. unfold deflated_streambuf.underflow in Hrun. unfold bind at 1 in Hrun.
  unfold get_sb at 1 in Hrun. cbv beta iota in Hrun.
  destruct (Z.eqb_spec (out_cur_pos (fst s)) (out_end_pos (fst s)))
    as [Heq|Hne].
  - inversion Hrun; subst. split; [reflexivity|]. split; [reflexivity|].
    left. auto.
  - unfold bind at 1 in Hrun.
    destruct (deflated_streambuf.refill zl fuel s) as [[out|e|c] s1] eqn:Hre;
      destruct (refill_spec fuel _ _ _ Hre) as (Hsame & Hout).
    + specialize (Hout out eq_refl).
      destruct Hsame as (S1 & S2 & S3 & S4 & S5).
      unfold bind, modify_sb, get_sb in Hrun. cbn [fst snd] in Hrun.
      cbn [deflated_streambuf.out_cur_pos deflated_streambuf.out_end_pos deflated_streambuf.desired_crc deflated_streambuf.crc deflated_streambuf.with_garea deflated_streambuf.with_crc
           deflated_streambuf.with_out_cur_pos] in Hrun.
      rewrite S1, S2, S3, S4 in Hrun.
      set (c' := crc32 (crc (fst s)) out) in *.
      set (p' := u32 (out_cur_pos (fst s) + Z.of_nat (length out))) in *.
      destruct (Z.eqb_spec p' (out_end_pos (fst s))) as [Hp|Hp];
        [destruct (Z.eqb_spec (desired_crc (fst s)) c') as [Hc|Hc]|];
        cbn [negb andb] in Hrun; inversion Hrun; subst; clear Hrun;
        cbn [fst deflated_streambuf.out_end_pos deflated_streambuf.desired_crc deflated_streambuf.garea deflated_streambuf.crc deflated_streambuf.out_cur_pos];
        (split; [exact S3|]); (split; [exact S4|]);
        right; right; (split; [exact Hne|]); exists out;
        (split; [exact Hout|]); (split; [reflexivity|]);
        (split; [reflexivity|]); (split; [reflexivity|]).
      * right. simpl. rewrite ?S3, ?S4.
        split; [intros _; symmetry; exact Hc | reflexivity].
      * left. simpl. rewrite ?S3, ?S4. repeat split; try assumption.
        intros Hc'. apply Hc. symmetry. exact Hc'.
      * right. simpl. rewrite ?S3, ?S4. split; [|reflexivity]. intros Hp'.
        contradiction.
    + inversion Hrun; subst. destruct Hsame as (S1 & S2 & S3 & S4 & S5).
      split; [exact S3|]. split; [exact S4|]. right. left.
      split; [exact Hne|]. split; [discriminate|].
      repeat split; assumption.
    + inversion Hrun; subst. destruct Hsame as (S1 & S2 & S3 & S4 & S5).
      split; [exact S3|]. split; [exact S4|]. right. left.
      split; [exact Hne|]. split; [discriminate|].
      repeat split; assumption.
Qed.





End DeflatedCrc.




(** ** No entry gets a comment *)

Lemma read_eocd_entry_comments (file_size cd_offset : Z) (a a' : archive) :
  read_eocd file_size a = (Ok cd_offset, a') ->
  exists n : nat, entry_comments a' = Some (replicate n None).
Proof.
  unfold read_eocd. intros Hrun.
  destruct (_ <? 0) in Hrun; [discriminate|].
  unfold bind at 1 in Hrun.
  destruct (stream_seekg _ a) as [[[]|e|c] a0]; try discriminate.
  unfold bind at 1 in Hrun.
  destruct (stream_read_exact _ a0) as [[bs|e|c] a1]; try discriminate.
  cbv zeta in Hrun. destruct (_ >? _) in Hrun; [discriminate|].
  unfold eocd_decode in Hrun.
  destruct (negb _) in Hrun; [discriminate|].
  unfold bind, modify, ret, abort in Hrun. cbv beta iota in Hrun.
  destruct (_ >? _) in Hrun; [discriminate|].
  injection Hrun as _ <-.
  eexists. unfold entry_comments. cbn [files with_comment with_files].
  rewrite fmap_replicate. reflexivity.
Qed.

Lemma preserves_keeps_comments {A} (m : M archive A) :
  preserves m -> keeps_comments m.
Proof. intros Hm a. destruct (Hm a) as (_ & _ & H). exact H. Qed.

Lemma keeps_comments_bind {A B} (m : M archive A) (k : A -> M archive B) :
  keeps_comments m -> (forall x, keeps_comments (k x)) ->
  keeps_comments (bind m k).
Proof.
  intros Hm Hk a. unfold bind. specialize (Hm a).
  destruct (m a) as [[x|e|c] a1]; simpl in *; try exact Hm.
  rewrite Hk. exact Hm.
Qed.

Lemma read_central_directory_entry_comments (cd_offset : Z) :
  keeps_comments (read_central_directory cd_offset).
Proof.
  unfold read_central_directory.
  apply keeps_comments_bind;
    [apply preserves_keeps_comments, preserves_stream_seekg|]. intros _.
  apply keeps_comments_bind; [intros a; reflexivity|]. intros a0.
  apply keeps_comments_bind;
    [apply preserves_keeps_comments, preserves_read_cd_records|].
  intros filenames.
  apply keeps_comments_bind; [intros a; reflexivity|]. intros _.
  apply keeps_comments_bind; [intros a; reflexivity|]. intros a1.
  apply keeps_comments_bind;
    [apply preserves_keeps_comments, preserves_link_filenames|]. intros _.
  apply preserves_keeps_comments, preserves_read_headers.
Qed.

Lemma init_body_entry_comments (a a' : archive) :
  init_body a = (Ok tt, a') ->
  exists n : nat, entry_comments a' = Some (replicate n None).
Proof.
  unfold init_body. intros Hbody.
  stepH Hbody.
  destruct (stream_set_exceptions a) as [[[]|e1|c1] b1]; try discriminate.
  stepH Hbody.
  destruct (stream_seekg_end b1) as [[[]|e2|c2] b2]; try discriminate.
  stepH Hbody.
  destruct (stream_tellg b2) as [[pos|e3|c3] b3]; try discriminate.
  destruct (_ || _) in Hbody; [discriminate|].
  stepH Hbody.
  destruct (stream_tellg b3) as [[file_size|e4|c4] b4]; try discriminate.
  destruct (negb _) in Hbody; [discriminate|].
  stepH Hbody.
  destruct (read_eocd file_size b4) as [[cd|e5|c5] b5] eqn:Heocd;
    try discriminate.
  destruct (read_eocd_entry_comments _ _ _ _ Heocd) as (k & Hk).
  exists k.
  pose proof (read_central_directory_entry_comments cd b5) as Hcd.
  rewrite Hbody in Hcd. simpl in Hcd. rewrite Hcd. exact Hk.
Qed.

Lemma init_leaves_entries_without_comment (exe : option image)
    (a a' : archive) (fs : list file) (f : file) :
  init exe a = (Ok tt, a') -> files a' = Some fs -> f ∈ fs ->
  f_comment f = None /\ fst (file_get_comment f) = [].
Proof.
  intros Hrun Hfs Hin.
  assert (Hc : f_comment f = None).
  { unfold init in Hrun. stepH Hrun.
    destruct (purge a) as [[[]|e|c] a1]; try discriminate.
    stepH Hrun. unfold buf_open, modify in Hrun.
    stepH Hrun. unfold get_state in Hrun.
    destruct (negb _) in Hrun; [discriminate|].
    unfold try_catch in Hrun.
    destruct (init_body _) as [[[]|e|c] a2] eqn:Hbody.
    - injection Hrun as ->.
      destruct (init_body_entry_comments _ _ Hbody) as (k & Hk).
      unfold entry_comments in Hk. rewrite Hfs in Hk.
      injection Hk as Hk.
      apply list_elem_of_lookup in Hin as (i & Hi).
      assert (Hl : (f_comment <$> fs) !! i = Some (f_comment f))
        by (rewrite list_lookup_fmap, Hi; reflexivity).
      rewrite Hk in Hl. apply lookup_replicate in Hl as (Hl & _).
      exact Hl.
    - unfold bind in Hrun. destruct (purge a2) as [[[]|?|?] ?]; discriminate.
    - discriminate. }
  split; [exact Hc|]. unfold file_get_comment. rewrite Hc. reflexivity.
Qed.

(** ** Seeking *)

(** [stored_data_streambuf::seekpos] moves [cur_pos] and nothing else: the
    get area keeps whatever the last [underflow] left unread. *)
Lemma stored_seekpos_spec (off : Z) (sb : stored_data_streambuf.t)
    (a : archive) :
  let size := u32 (stored_data_streambuf.end_pos sb
                   - stored_data_streambuf.start_pos sb) in
  let target := Z.max 0 (Z.min off size) in
  stored_data_streambuf.seekpos off (sb, a)
  = (Ok target,
     (stored_data_streambuf.with_cur_pos
        (u32 (stored_data_streambuf.start_pos sb + target)) sb, a))
  /\ stored_data_streambuf.garea
       (fst (snd (stored_data_streambuf.seekpos off (sb, a))))
     = stored_data_streambuf.garea sb.
Proof.
  intros size target.
  assert (Hsize : 0 <= size) by (apply Z.mod_pos_bound; lia).
  unfold stored_data_streambuf.seekpos, bind, get_sb, modify_sb, ret.
  cbn [fst snd]. fold size.
  assert (Ht : (if off <? 0 then 0 else if off >? size then size else off)
               = target).
  { unfold target. destruct (Z.ltb_spec off 0); [lia|].
    destruct (Z.gtb_spec off size); lia. }
  rewrite Ht. split; reflexivity.
Qed.

(** So whatever the target, a read that follows the seek first delivers
    what the get area still holds. *)
Lemma stored_seek_returns_buffered_byte (off : Z)
    (sb : stored_data_streambuf.t) (a : archive) :
  let g := stored_data_streambuf.garea sb in
  0 <= ga_next g < Z.of_nat (length (ga_bytes g)) ->
  fst ((seekpos 0 off ;;; sgetc 0) (sb, a))
  = Ok (Some (nth (Z.to_nat (ga_next g)) (ga_bytes g) x00)).
Proof.
  intros g Hg.
  destruct (stored_seekpos_spec off sb a) as [Hseek _].
  unfold bind at 1. cbn [seekpos stored_streambuf]. rewrite Hseek.
  cbv beta iota delta [sgetc bind get_sb deref_gptr in_avail_pos ret abort
    area stored_streambuf].
  simpl. fold g.
  destruct (Z.ltb_spec (ga_next g) (Z.of_nat (length (ga_bytes g)))); [|lia].
  simpl. fold g.
  destruct (Z.ltb_spec (ga_next g) (Z.of_nat (length (ga_bytes g)))); [|lia].
  destruct (Z.leb_spec 0 (ga_next g)); [|lia].
  reflexivity.
Qed.

(** [is_directory] is true exactly of the names that end in a slash. *)
Lemma is_directory_spec (f : file) (name : list byte) :
  f_filename f = Some name ->
  is_directory f = Ok true <-> exists dir, name = dir ++ ["/"%byte].
Proof.
  intros Hname. unfold is_directory. rewrite Hname.
  destruct (last name) as [c|] eqn:Hlast.
  - apply last_Some in Hlast as (dir & ->). split.
    + intros Ht. injection Ht as Ht. apply bool_decide_eq_true in Ht.
      subst c. eauto.
    + intros (dir' & Heq). apply app_inj_tail in Heq as (_ & ->).
      rewrite bool_decide_eq_true_2 by reflexivity. reflexivity.
  - apply last_None in Hlast. subst name. split; [discriminate|].
    intros (dir & Heq). destruct dir; discriminate.
Qed.

(** On a [deflated_streambuf] that stands at the start and whose next
    [underflow] decodes the whole entry, [seekpos] to any position but the
    start returns [pos_type(-1)], and leaves the get area at the first byte. *)
Lemma deflated_seekpos_after_full_decode (zl : zlib) (fuel n : nat)
    (off : Z) (s s1 : deflated_streambuf.t zl * archive) (b : byte) :
  deflated_streambuf.out_cur_pos zl (fst s) = 0 ->
  0 < deflated_streambuf.out_end_pos zl (fst s) ->
  0 < off ->
  deflated_streambuf.underflow zl fuel s = (Ok (Some b), s1) ->
  deflated_streambuf.out_cur_pos zl (fst s1)
    = deflated_streambuf.out_end_pos zl (fst s1) ->
  deflated_streambuf.seekpos_bounded zl fuel (S (S n)) off s = (Ok (-1), s1).
Proof.
  intros Hstart Hend Hoff Hu Hfull.
  destruct (underflow_cases zl fuel s s1 _ Hu) as (Hend1 & _ & _).
  unfold deflated_streambuf.seekpos_bounded.
  unfold bind at 1. unfold get_sb at 1. cbv beta iota.
  destruct (Z.ltb_spec off 0); [lia|].
  set (target := if off >? _ then _ else off).
  assert (Ht : 0 < target <= deflated_streambuf.out_end_pos zl (fst s)).
  { unfold target. destruct (Z.gtb_spec off
      (deflated_streambuf.out_end_pos zl (fst s))); lia. }
  destruct (Z.ltb_spec target (deflated_streambuf.out_cur_pos zl (fst s)));
    [lia|].
  unfold bind at 1. unfold ret at 1. unfold bind at 1. unfold get_sb at 1.
  cbv beta iota.
  destruct (Z.eqb_spec target (deflated_streambuf.out_cur_pos zl (fst s)));
    [lia|].
  unfold bind at 1.
  assert (Hloop : deflated_streambuf.skip_loop zl fuel target (S (S n)) s
                  = (Ok tt, s1)).
  { cbn [deflated_streambuf.skip_loop]. unfold bind at 1. rewrite Hu.
    unfold bind at 1. unfold get_sb at 1. cbv beta iota.
    destruct (Z.geb_spec (deflated_streambuf.out_cur_pos zl (fst s1)) target);
      [|lia].
    rewrite bool_decide_eq_true_2 by discriminate. cbn [andb].
    unfold bind at 1.
    assert (Hu1 : deflated_streambuf.underflow zl fuel s1 = (Ok None, s1)).
    { unfold deflated_streambuf.underflow, bind, get_sb.
      rewrite (proj2 (Z.eqb_eq _ _) Hfull). reflexivity. }
    rewrite Hu1. unfold bind, get_sb. cbv beta iota.
    rewrite bool_decide_eq_false_2 by (intros Hx; apply Hx; reflexivity).
    reflexivity. }
  rewrite Hloop. unfold bind, get_sb. cbv beta iota.
  rewrite (proj2 (Z.eqb_eq _ _) Hfull). reflexivity.
Qed.

(** ** The examples, run *)

Example init_hello :
  fst (init (Some (image_of zip_hello)) archive_new) = Ok tt
  /\ subscript (initialized zip_hello) 0 = Ok hello_entry
  /\ open stored_zlib hello_entry = Ok (stored_stream hello_stream).
Proof. repeat split; vm_compute; reflexivity. Qed.

Example init_hello_deflated :
  fst (init (Some (image_of zip_hello_deflated)) archive_new) = Ok tt
  /\ subscript (initialized zip_hello_deflated) 0 = Ok hello_deflated_entry
  /\ open stored_zlib hello_deflated_entry
     = Ok (deflated_stream hello_deflated_stream).
Proof. repeat split; vm_compute; reflexivity. Qed.

(** C1, the code at the failing input. On the stored entry [hello], once
    one character has been read, [seekpos 0] followed by a read to the end
    delivers [ellohello]: the four characters left in the get area, then
    the entry from its start. On the deflated entry [hello], on a new
    stream, [seekpos 2] returns [pos_type(-1)] and the read that follows
    delivers [hello] from its first byte, not [llo]. *)
Theorem seek_then_read_is_not_the_suffix :
  (* a new stream over the stored entry reads [hello] *)
  fst (read_to_end 1 16 (hello_stream, initialized zip_hello))
  = Ok (str "hello")
  (* one character read, seek to 0, read to the end *)
  /\ fst ((c <- sbumpc 1 ;; p <- seekpos 1 0 ;; r <- read_to_end 1 16 ;;
           ret (c, p, r)) (hello_stream, initialized zip_hello))
     = Ok (Some "h"%byte, 0, str "ellohello")
  (* a new stream over the deflated entry reads [hello] *)
  /\ fst (read_to_end 4 16
            (hello_deflated_stream, initialized zip_hello_deflated))
     = Ok (str "hello")
  (* seek to 2 on a new stream, read to the end *)
  /\ fst ((p <- seekpos 4 2 ;; r <- read_to_end 4 16 ;; ret (p, r))
            (hello_deflated_stream, initialized zip_hello_deflated))
     = Ok (-1, str "hello").
Proof. repeat split; vm_compute; reflexivity. Qed.

(** C4, the code at the failing input. A seek to 100 on the five-byte
    stored entry returns 5; the read that follows reports end-of-data on a
    new stream, but delivers [e] once one character has been read. On the
    deflated entry, on a new stream, the seek to 100 returns
    [pos_type(-1)], and the read that follows delivers [h]. *)
Theorem seek_past_end_then_read :
  (* stored, new stream: clamped to 5, then end-of-data *)
  fst ((p <- seekpos 1 100 ;; r <- sgetc 1 ;; ret (p, r))
         (hello_stream, initialized zip_hello))
  = Ok (5, None)
  (* stored, after one character was read: clamped to 5, then [e] *)
  /\ fst ((c <- sbumpc 1 ;; p <- seekpos 1 100 ;; r <- sgetc 1 ;;
           ret (c, p, r)) (hello_stream, initialized zip_hello))
     = Ok (Some "h"%byte, 5, Some "e"%byte)
  (* deflated, new stream: the seek fails, then [h] *)
  /\ fst ((p <- seekpos 4 100 ;; r <- sgetc 4 ;; ret (p, r))
            (hello_deflated_stream, initialized zip_hello_deflated))
     = Ok (-1, Some "h"%byte).
Proof. repeat split; vm_compute; reflexivity. Qed.

(** C5, the code at the failing input. The archive [zip_hello] carries
    the comment [ARCH] in its end-of-central-directory record and the
    comment [cc] in the record of its entry. After [init] the archive's
    [get_comment] gives [cc], and the entry's [get_comment] gives the empty
    string. *)
Theorem comments_after_init :
  (* the end-of-central-directory record carries [ARCH], the record of the
     entry carries [cc] *)
  comment (snd (read_eocd (len zip_hello) (opened_at zip_hello 0 [])))
  = Some (str "ARCH")
  /\ fst (init (Some (image_of zip_hello)) archive_new) = Ok tt
  /\ fst (get_comment (initialized zip_hello)) = Ok (str "cc")
  /\ subscript (initialized zip_hello) 0 = Ok hello_entry
  /\ fst (file_get_comment hello_entry) = [].
Proof. repeat split; vm_compute; reflexivity. Qed.

(** C9, the code at the failing input. [init] accepts a stored entry
    whose compressed size is 5 and whose uncompressed size is 4, and
    [open] on that entry fails its assertion. *)
Theorem stored_sizes_unchecked :
  fst (init (Some (image_of zip_stored_mismatch)) archive_new) = Ok tt
  /\ subscript (initialized zip_stored_mismatch) 0 = Ok mismatch_entry
  /\ f_method mismatch_entry = METHOD_STORE
  /\ f_compressed_size mismatch_entry <> f_uncompressed_size mismatch_entry
  /\ open stored_zlib mismatch_entry = Crash assertion_failed.
Proof. repeat split; vm_compute; (reflexivity || discriminate). Qed.

(** The body of the [try] block alone leaves a half-built archive: the
    handler is what clears it. *)
Example init_body_leaves_partial_state :
  let a := snd (init_body (opened_at zip_bad_cd_offset 0 [])) in
  fst (init_body (opened_at zip_bad_cd_offset 0 [])) = Throw cd_corrupted
  /\ file_count a = 1 /\ files a = Some [file_zero].
Proof. repeat split; vm_compute; reflexivity. Qed.

(** With a corrupted local header the body gets further: the entry is
    parsed and indexed by the time the resolver throws. *)
Example init_body_leaves_indexed_entry :
  let a := snd (init_body (opened_at zip_bad_local_header 0 [])) in
  fst (init_body (opened_at zip_bad_local_header 0 []))
  = Throw (runtime_error "file header is corrupted")
  /\ file_count a = 1
  /\ file_map a !! str "a.txt" = Some 0
  /\ fst (init (Some (image_of zip_bad_local_header)) archive_new)
     = Throw (runtime_error "file header is corrupted")
  /\ purged (initialized zip_bad_local_header).
Proof. repeat split; vm_compute; reflexivity. Qed.

(** C3 at the archive whose end-of-central-directory record points at
    bytes that are not a central-directory record. *)
Lemma init_failure_purges_witness :
  fst (init (Some (image_of zip_bad_cd_offset)) archive_new)
  = Throw cd_corrupted
  /\ size (initialized zip_bad_cd_offset) = 0
  /\ empty (initialized zip_bad_cd_offset) = true
  /\ files (initialized zip_bad_cd_offset) = None
  /\ file_map (initialized zip_bad_cd_offset) = ∅
  /\ comment (initialized zip_bad_cd_offset) = None
  /\ buf (initialized zip_bad_cd_offset) = None.
Proof.
  split; [vm_compute; reflexivity|].
  apply (init_failure_purges (Some (image_of zip_bad_cd_offset)) archive_new
           (initialized zip_bad_cd_offset) cd_corrupted).
  vm_compute. reflexivity.
Defined.

(** C6 as stated fails: on the 119 bytes of [zip_hello] the one read is
    119 bytes long, not [min(65535, 119) + 22]. *)
Lemma eocd_read_length_counterexample :
  img_size (image_of zip_hello) = 119
  /\ reads (snd (read_eocd 119 (opened_at zip_hello 0 []))) = [(0, 119)]
  /\ 119 <> Z.min 65535 119 + 22.
Proof. repeat split; vm_compute; (reflexivity || discriminate). Qed.

(** C6, as amended, at [zip_hello]: the record is found at comment
    length 4. *)
Lemma read_eocd_scan_witness :
  read_eocd 119 (opened_at zip_hello 0 [])
  = eocd_decode (drop 93 (img_bytes (image_of zip_hello) 0 119)) 4
      (with_reads [(0, 119)]
         (with_buf (Some (image_of zip_hello)) 119 (opened_at zip_hello 0 []))).
Proof.
  destruct (read_eocd_scan (image_of zip_hello) (opened_at zip_hello 0 []) 119
              eq_refl eq_refl eq_refl) as [_ Hbig].
  destruct (Hbig ltac:(lia)) as (_ & _ & Hfound & _).
  apply (Hfound 4).
  - vm_compute. split; discriminate.
  - vm_compute. reflexivity.
  - intros j Hj.
    assert (Hcases : j = 0 \/ j = 1 \/ j = 2 \/ j = 3) by lia.
    destruct Hcases as [-> | [-> | [-> | ->]]]; vm_compute; discriminate.
Defined.

(** C7, as amended, at the record of [zip_hello]: it passes every check,
    and its name and comment lie inside the file. *)
Lemma read_cd_record_checks_witness :
  let a := with_stream_exceptions true (opened_at zip_hello 40 [file_zero]) in
  fst (read_cd_record 0 a) = Ok (str "a.txt")
  /\ files (snd (read_cd_record 0 a))
     = Some [with_f_offset 0 (with_f_filename None hello_entry)]
  /\ buf_pos (snd (read_cd_record 0 a)) = 93.
Proof.
  intros a.
  destruct (read_cd_record_checks (image_of zip_hello) a [file_zero]
              file_zero 0 eq_refl eq_refl eq_refl
              ltac:(vm_compute; discriminate) eq_refl eq_refl)
    as (_ & Hin & _).
  destruct Hin as (_ & _ & _ & _ & _ & _ & _ & Haccept & _).
  { vm_compute. discriminate. }
  destruct Haccept as (Hres & Hfiles & Hpos).
  - vm_compute. reflexivity.
  - vm_compute. discriminate.
  - repeat split; vm_compute; reflexivity.
  - left. vm_compute. reflexivity.
  - vm_compute. reflexivity.
  - right. vm_compute. discriminate.
  - right. vm_compute. discriminate.
  - split; [|split].
    + rewrite Hres. vm_compute. reflexivity.
    + rewrite Hfiles. vm_compute. reflexivity.
    + rewrite Hpos. vm_compute. reflexivity.
Defined.

(** C7 as stated fails. In [zip_truncated] the end record sends [init] to
    offset 0 for the central directory; the four bytes there are
    [0x06054b50], not [0x02014b50], and the error is
    [std::ios_base::failure], not the one of a corrupted central
    directory, because fewer than 46 bytes follow. In [zip_name_overrun]
    the record passes every check and is not accepted: its file name runs
    past the end of the file. *)
Lemma cd_record_past_the_end_counterexample :
  let a := with_stream_exceptions true (opened_at zip_truncated 0 [file_zero]) in
  let b := with_stream_exceptions true
             (opened_at zip_name_overrun 0 [file_zero]) in
  let rec := img_bytes (image_of zip_name_overrun) 0 46 in
  get_uint32 (img_bytes (image_of zip_truncated) 0 4) = 0x06054b50
  /\ fst (read_cd_record 0 a) = Throw ios_failure
  /\ fst (init (Some (image_of zip_truncated)) archive_new)
     = Throw ios_failure
  /\ ios_failure <> cd_corrupted
  /\ get_uint32 rec = 0x02014b50
  /\ get_uint16 (drop 6 rec) = 20
  /\ get_uint16 (drop 8 rec) = 0
  /\ get_uint16 (drop 10 rec) = 0
  /\ get_uint16 (drop 34 rec) = 0
  /\ fst (read_cd_record 0 b) = Throw ios_failure
  /\ fst (init (Some (image_of zip_name_overrun)) archive_new)
     = Throw ios_failure.
Proof. repeat split; vm_compute; (reflexivity || discriminate). Qed.



(** In [zip_header_near_end] the record points at offset 100 of 119
    bytes: the four bytes there are not the signature of a local header,
    and [init] ends with [std::ios_base::failure], the read of the 30
    header bytes having failed before the signature was looked at. *)
Example local_header_near_the_end :
  len zip_header_near_end = 119
  /\ get_uint32 (drop 42 (img_bytes (image_of zip_header_near_end) 40 46))
     = 100
  /\ get_uint32 (img_bytes (image_of zip_header_near_end) 100 4)
     <> 0x04034b50
  /\ fst (init (Some (image_of zip_header_near_end)) archive_new)
     = Throw ios_failure.
Proof. repeat split; vm_compute; (reflexivity || discriminate). Qed.




(** An entry declared shorter than its data decode to: [init] accepts
    [zip_hello_undersized], whose entry declares size 3 and the checksum
    [0xDEADBEEF]; the first [underflow] decodes five bytes, the cursor
    passes 3 without being equal to it, and all five are delivered with
    no comparison. *)
Example undersized_entry_unchecked :
  fst (init (Some (image_of zip_hello_undersized)) archive_new) = Ok tt
  /\ subscript (initialized zip_hello_undersized) 0
     = Ok hello_undersized_entry
  /\ open stored_zlib hello_undersized_entry
     = Ok (deflated_stream hello_undersized_stream)
  /\ fst (read_n 4 5
            (hello_undersized_stream, initialized zip_hello_undersized))
     = Ok (str "hello")
  /\ crc32 0 (str "hello") <> f_crc32 hello_undersized_entry.
Proof. repeat split; vm_compute; (reflexivity || discriminate). Qed.

(** The same shape of failure for every entry that decodes in one step:
    here [hello], at every target from 1 on. *)
Example deflated_seek_fails_hello (off : Z) :
  0 < off ->
  fst (deflated_streambuf.seekpos_bounded stored_zlib 4 4 off
         (hello_deflated_stream, initialized zip_hello_deflated))
  = Ok (-1).
Proof.
  intros Hoff.
  erewrite (deflated_seekpos_after_full_decode stored_zlib 4 2 off
              (hello_deflated_stream, initialized zip_hello_deflated)
              _ "h"%byte eq_refl ltac:(vm_compute; reflexivity) Hoff).
  - reflexivity.
  - vm_compute. reflexivity.
  - vm_compute. reflexivity.
Qed.

(** * The container interface and the streams *)

(** ** Decoding little-endian fields *)

Lemma lor_shiftl_add (a b n : Z) :
  0 <= n -> 0 <= a < 2 ^ n -> Z.lor a (Z.shiftl b n) = a + b * 2 ^ n.
Proof.
  intros Hn Ha.
  assert (Hland : Z.land a (Z.shiftl b n) = 0).
  { apply Z.bits_inj'. intros m Hm. rewrite Z.land_spec, Z.bits_0.
    destruct (Z.lt_ge_cases m n) as [Hlt|Hge].
    - rewrite Z.shiftl_spec_low by exact Hlt. apply andb_false_r.
    - destruct (Z.eq_dec a 0) as [->|Hnz]; [rewrite Z.bits_0; reflexivity|].
      rewrite (Z.bits_above_log2 a m); [reflexivity|lia|].
      apply Z.lt_le_trans with n; [|exact Hge].
      apply Z.log2_lt_pow2; lia. }
  rewrite <- Z.lxor_lor by exact Hland.
  rewrite <- Z.add_nocarry_lxor by exact Hland.
  rewrite Z.shiftl_mul_pow2 by exact Hn. reflexivity.
Qed.

(** X1. [get_uint16] and [get_uint32] read a little-endian number: the first
    byte is the least significant one; the results fit their types. *)
Theorem get_uint_little_endian (b0 b1 b2 b3 : byte) (rest : list byte) :
  get_uint16 (b0 :: b1 :: rest) = u8 b0 + 256 * u8 b1
  /\ get_uint32 (b0 :: b1 :: b2 :: b3 :: rest)
     = u8 b0 + 256 * u8 b1 + 65536 * u8 b2 + 16777216 * u8 b3
  /\ 0 <= get_uint16 (b0 :: b1 :: rest) < 2 ^ 16
  /\ 0 <= get_uint32 (b0 :: b1 :: b2 :: b3 :: rest) < 2 ^ 32.
Proof.
  assert (Hb : forall b, 0 <= u8 b < 256).
  { intros b. unfold u8. pose proof (Byte.to_N_bounded b). lia. }
  pose proof (Hb b0). pose proof (Hb b1). pose proof (Hb b2). pose proof (Hb b3).
  assert (H16 : get_uint16 (b0 :: b1 :: rest) = u8 b0 + 256 * u8 b1).
  { unfold get_uint16, byte_at. cbn [nth].
    rewrite lor_shiftl_add by (change (2 ^ 8) with 256; lia).
    change (2 ^ 8) with 256. lia. }
  assert (H32 : get_uint32 (b0 :: b1 :: b2 :: b3 :: rest)
                = u8 b0 + 256 * u8 b1 + 65536 * u8 b2 + 16777216 * u8 b3).
  { unfold get_uint32, byte_at. cbn [nth].
    replace (Z.shiftl (u8 b3) 24)
      with (Z.shiftl (Z.shiftl (Z.shiftl (u8 b3) 8) 8) 8)
      by (rewrite !Z.shiftl_shiftl by lia; reflexivity).
    replace (Z.shiftl (u8 b2) 16) with (Z.shiftl (Z.shiftl (u8 b2) 8) 8)
      by (rewrite Z.shiftl_shiftl by lia; reflexivity).
    rewrite <- !Z.shiftl_lor.
    assert (E3 : Z.lor (u8 b2) (Z.shiftl (u8 b3) 8) = u8 b2 + u8 b3 * 2 ^ 8)
      by (apply lor_shiftl_add; change (2 ^ 8) with 256; lia).
    rewrite E3.
    assert (E2 : Z.lor (u8 b1) (Z.shiftl (u8 b2 + u8 b3 * 2 ^ 8) 8)
                 = u8 b1 + (u8 b2 + u8 b3 * 2 ^ 8) * 2 ^ 8)
      by (apply lor_shiftl_add; change (2 ^ 8) with 256; lia).
    rewrite E2.
    rewrite lor_shiftl_add by (change (2 ^ 8) with 256; lia).
    change (2 ^ 8) with 256. lia. }
  rewrite H16, H32. change (2 ^ 16) with 65536. change (2 ^ 32) with 4294967296.
  repeat split; lia.
Qed.

(** ** The purged archive as a container *)

(** X2. After [purge] the archive is an empty container: [size] is 0, [find]
    gives [end()] for every name, [at] and the lookup by name throw
    [std::out_of_range] for every argument; the unchecked [operator[]] has
    no array to index. *)
Theorem purged_archive_is_empty (a : archive) :
  let a' := snd (purge a) in
  size a' = 0 /\ empty a' = true
  /\ (forall name, find a' name = end_ a'
                   /\ subscript_name a' name = Throw index_out_of_range)
  /\ (forall i, at_ a' i = Throw index_out_of_range)
  /\ (forall i, subscript a' i = Crash undefined_behaviour).
Proof.
  intros a'. destruct (purge_purged a) as (Hc & Hf & _ & Hm & _).
  fold a' in Hc, Hf, Hm.
  split; [exact Hc|]. split; [unfold empty; rewrite Hc; reflexivity|].
  split; [|split].
  - intros name. unfold find, subscript_name. rewrite Hm, lookup_empty.
    split; reflexivity.
  - intros i. unfold at_. rewrite Hc.
    destruct (Z.ltb_spec i 0); [reflexivity|].
    destruct (Z.geb_spec i 0); [reflexivity|lia].
  - intros i. unfold subscript. rewrite Hf. reflexivity.
Qed.

(** ** Comments: [get_comment] and [purge_comment] *)

(** X3. [purge_comment] hands out the string [get_comment] would have shown
    and leaves no comment behind: afterwards both give the empty string.
    [get_comment] changes nothing a second call could see. Neither touches
    another member of the archive. *)
Theorem purge_comment_moves_the_comment_out (a : archive) :
  let shown := fst (get_comment a) in
  let a1 := snd (purge_comment a) in
  let a2 := snd (get_comment a) in
  fst (purge_comment a) = shown
  /\ (exists c, shown = Ok c)
  /\ comment a1 = None
  /\ fst (get_comment a1) = Ok []
  /\ fst (purge_comment a1) = Ok []
  /\ fst (get_comment a2) = shown
  /\ fst (purge_comment a2) = shown
  /\ (files a1, file_map a1, file_count a1, buf a1, streampos a1)
     = (files a, file_map a, file_count a, buf a, streampos a)
  /\ (files a2, file_map a2, file_count a2, buf a2, streampos a2)
     = (files a, file_map a, file_count a, buf a, streampos a).
Proof.
  unfold get_comment, purge_comment.
  destruct (comment a) as [c|] eqn:Hc; cbn [fst snd comment with_comment];
    rewrite ?Hc; cbn [fst snd]; repeat split; eauto.
Qed.

(** X4. [purge_comment] of an entry hands out the string its [get_comment]
    would have shown and leaves the entry without a comment: afterwards both
    give the empty string. The other fields of the entry stay as they are. *)
Theorem file_purge_comment_moves_the_comment_out (f : file) :
  let shown := fst (file_get_comment f) in
  let f1 := snd (file_purge_comment f) in
  let f2 := snd (file_get_comment f) in
  fst (file_purge_comment f) = shown
  /\ f_comment f1 = None
  /\ fst (file_get_comment f1) = []
  /\ fst (file_purge_comment f1) = []
  /\ fst (file_get_comment f2) = shown
  /\ with_f_comment None f1 = with_f_comment None f
  /\ with_f_comment None f2 = with_f_comment None f.
Proof.
  unfold file_get_comment, file_purge_comment.
  destruct f as [o c cs us fn [cm|] m]; cbn; repeat split.
Qed.

(** ** What [init] leaves alone: [streampos] *)

Lemma keeps_bind {A B T} (proj : archive -> T) (m : M archive A)
    (k : A -> M archive B) :
  keeps proj m -> (forall x, keeps proj (k x)) -> keeps proj (bind m k).
Proof.
  intros Hm Hk a. unfold bind. specialize (Hm a).
  destruct (m a) as [[x|e|c] a1]; simpl in *; try exact Hm.
  rewrite Hk. exact Hm.
Qed.

Lemma keeps_ret {A T} (proj : archive -> T) (x : A) : keeps proj (ret x).
Proof. intros a. reflexivity. Qed.

Lemma keeps_throw {A T} (proj : archive -> T) (e : exn) :
  keeps proj (throw (A := A) e).
Proof. intros a. reflexivity. Qed.

Lemma keeps_abort {A T} (proj : archive -> T) (c : crash) :
  keeps proj (abort (A := A) c).
Proof. intros a. reflexivity. Qed.

Lemma keeps_get_state {T} (proj : archive -> T) : keeps proj get_state.
Proof. intros a. reflexivity. Qed.

Lemma keeps_assert_that {T} (proj : archive -> T) (b : bool) :
  keeps proj (assert_that b).
Proof. intros a. destruct b; reflexivity. Qed.

Lemma keeps_modify {T} (proj : archive -> T) (g : archive -> archive) :
  (forall a, proj (g a) = proj a) -> keeps proj (modify g).
Proof. intros Hg a. apply Hg. Qed.

Lemma keeps_try_catch {A T} (proj : archive -> T) (m : M archive A)
    (h : exn -> M archive A) :
  keeps proj m -> (forall e, keeps proj (h e)) -> keeps proj (try_catch m h).
Proof.
  intros Hm Hh a. unfold try_catch. specialize (Hm a).
  destruct (m a) as [[x|e|c] a1]; simpl in *; try exact Hm.
  rewrite Hh. exact Hm.
Qed.

Section StreamFrame.
Context {T : Type} (proj : archive -> T) (Hblind : stream_blind proj).

Lemma blind_failed (a : archive) (v : bool) :
  proj (with_stream_failed v a) = proj a.
Proof. apply Hblind. Qed.

Lemma blind_exceptions (a : archive) (v : bool) :
  proj (with_stream_exceptions v a) = proj a.
Proof. apply Hblind. Qed.

Lemma blind_buf (a : archive) (v : option image) (p : Z) :
  proj (with_buf v p a) = proj a.
Proof. apply Hblind. Qed.

Lemma blind_reads (a : archive) (v : list (Z * Z)) :
  proj (with_reads v a) = proj a.
Proof. apply Hblind. Qed.

Ltac keeps_prim :=
  let a := fresh "a" in
  intros a;
  repeat match goal with
         | |- context [if ?b then _ else _] => destruct b
         | |- context [match ?x with Some _ => _ | None => _ end] => destruct x
         end;
  cbn [fst snd];
  repeat first [ rewrite blind_reads | rewrite blind_buf
               | rewrite blind_failed | rewrite blind_exceptions ];
  reflexivity.

Lemma keeps_stream_fail {A} (d : A) : keeps proj (stream_fail d).
Proof. unfold stream_fail. keeps_prim. Qed.

Lemma keeps_stream_set_exceptions : keeps proj stream_set_exceptions.
Proof. unfold stream_set_exceptions. keeps_prim. Qed.

Lemma keeps_stream_setstate_goodbit : keeps proj stream_setstate_goodbit.
Proof. unfold stream_setstate_goodbit. keeps_prim. Qed.

Lemma keeps_stream_seekg (off : Z) : keeps proj (stream_seekg off).
Proof. unfold stream_seekg, stream_fail. keeps_prim. Qed.

Lemma keeps_stream_seekg_end : keeps proj stream_seekg_end.
Proof. unfold stream_seekg_end, stream_fail. keeps_prim. Qed.

Lemma keeps_stream_seekg_cur (off : Z) : keeps proj (stream_seekg_cur off).
Proof. intros a. unfold stream_seekg_cur. apply keeps_stream_seekg. Qed.

Lemma keeps_stream_tellg : keeps proj stream_tellg.
Proof. unfold stream_tellg. keeps_prim. Qed.

Lemma keeps_stream_read (n : Z) : keeps proj (stream_read n).
Proof. unfold stream_read, stream_fail. keeps_prim. Qed.

Lemma keeps_stream_read_exact (n : Z) : keeps proj (stream_read_exact n).
Proof.
  unfold stream_read_exact.
  apply keeps_bind; [apply keeps_stream_read|]. intros bs.
  apply keeps_bind; [apply keeps_assert_that|]. intros _. apply keeps_ret.
Qed.

End StreamFrame.

Lemma streampos_blind : stream_blind streampos.
Proof. intros a. repeat split. Qed.

Lemma files_blind : stream_blind files.
Proof. intros a. repeat split. Qed.

Lemma file_map_blind : stream_blind file_map.
Proof. intros a. repeat split. Qed.

Lemma file_count_blind : stream_blind file_count.
Proof. intros a. repeat split. Qed.

Ltac blind :=
  first [ exact streampos_blind | exact files_blind | exact file_map_blind
        | exact file_count_blind ].

Ltac keeps_step :=
  first
    [ apply keeps_stream_read_exact; blind
    | apply keeps_bind; [|intros ?]
    | apply keeps_ret | apply keeps_throw | apply keeps_abort
    | apply keeps_get_state | apply keeps_assert_that
    | apply keeps_modify; intros ?; reflexivity
    | apply keeps_stream_fail; blind
    | apply keeps_stream_set_exceptions; blind
    | apply keeps_stream_setstate_goodbit; blind
    | apply keeps_stream_seekg; blind
    | apply keeps_stream_seekg_end; blind
    | apply keeps_stream_seekg_cur; blind
    | apply keeps_stream_tellg; blind
    | apply keeps_stream_read; blind
    | match goal with
      | |- keeps _ (if ?b then _ else _) => destruct b
      end
    | progress cbv zeta ].

Lemma keeps_streampos_purge : keeps streampos purge.
Proof. unfold purge. repeat keeps_step. Qed.

Lemma keeps_streampos_file_ref (i : nat) : keeps streampos (file_ref i).
Proof.
  intros a. unfold file_ref.
  destruct (files a) as [fs|]; [destruct (fs !! i)|]; reflexivity.
Qed.

Lemma keeps_streampos_file_update (i : nat) (g : file -> file) :
  keeps streampos (file_update i g).
Proof.
  unfold file_update. apply keeps_bind; [apply keeps_streampos_file_ref|].
  intros f. apply keeps_modify. intros a. reflexivity.
Qed.

Lemma keeps_streampos_eocd_decode (p : list byte) (k : Z) :
  keeps streampos (eocd_decode p k).
Proof. unfold eocd_decode. repeat keeps_step. Qed.

Lemma keeps_streampos_read_eocd (file_size : Z) :
  keeps streampos (read_eocd file_size).
Proof.
  unfold read_eocd.
  repeat first [ apply keeps_streampos_eocd_decode
               | keeps_step ].
Qed.

Lemma keeps_streampos_read_cd_record (fileno : nat) :
  keeps streampos (read_cd_record fileno).
Proof.
  unfold read_cd_record.
  repeat first [ apply keeps_streampos_file_update
               | keeps_step ].
Qed.

Lemma keeps_streampos_read_cd_records (todo : nat) :
  forall fileno, keeps streampos (read_cd_records fileno todo).
Proof.
  induction todo as [|todo IH]; intros fileno; simpl.
  - apply keeps_ret.
  - apply keeps_bind; [apply keeps_streampos_read_cd_record|]. intros name.
    apply keeps_bind; [apply IH|]. intros rest. apply keeps_ret.
Qed.

Lemma keeps_streampos_link_filenames (elems : list (list byte * Z)) :
  keeps streampos (link_filenames elems).
Proof.
  induction elems as [|[key i] rest IH]; simpl.
  - apply keeps_ret.
  - apply keeps_bind; [|intros _; exact IH].
    unfold file_update_at. destruct (i <? 0); [apply keeps_abort|].
    apply keeps_streampos_file_update.
Qed.

Lemma keeps_streampos_read_header (i : nat) (offset : Z) :
  keeps streampos (read_header i offset).
Proof.
  unfold read_header.
  repeat first [ apply keeps_streampos_file_update
               | keeps_step ].
Qed.

Lemma keeps_streampos_read_headers (todo : nat) :
  forall i, keeps streampos (read_headers i todo).
Proof.
  induction todo as [|todo IH]; intros i; simpl.
  - apply keeps_ret.
  - apply keeps_bind; [apply keeps_streampos_file_ref|]. intros f.
    apply keeps_bind; [apply keeps_streampos_read_header|]. intros _.
    apply IH.
Qed.

Lemma keeps_streampos_read_central_directory (cd_offset : Z) :
  keeps streampos (read_central_directory cd_offset).
Proof.
  unfold read_central_directory.
  repeat first [ apply keeps_streampos_read_cd_records
               | apply keeps_streampos_link_filenames
               | apply keeps_streampos_read_headers
               | keeps_step ].
Qed.

Lemma keeps_streampos_init_body : keeps streampos init_body.
Proof.
  unfold init_body.
  repeat first [ apply keeps_streampos_read_eocd
               | apply keeps_streampos_read_central_directory
               | keeps_step ].
Qed.

(** X5. [init] and [purge] never write [streampos], the position
    [read_for_file] believes the stream to be at: whatever [init] does and
    however it ends, the member still holds what it held before. *)
Theorem init_and_purge_keep_streampos (exe : option image) (a : archive) :
  streampos (snd (init exe a)) = streampos a
  /\ streampos (snd (purge a)) = streampos a.
Proof.
  split; [|apply keeps_streampos_purge].
  revert a. change (keeps streampos (init exe)). unfold init.
  apply keeps_bind; [apply keeps_streampos_purge|]. intros _.
  apply keeps_bind; [apply keeps_modify; intros a; reflexivity|]. intros _.
  apply keeps_bind; [apply keeps_get_state|]. intros a0.
  destruct (negb _); [apply keeps_throw|].
  apply keeps_try_catch; [apply keeps_streampos_init_body|]. intros e.
  apply keeps_bind; [apply keeps_streampos_purge|]. intros _.
  apply keeps_throw.
Qed.

(** ** [read_for_file] *)

Lemma read_for_file_ok (img : image) (a : archive) (offset length : Z) :
  stream_ready img a -> synced_at offset a ->
  0 <= offset -> 0 <= length -> offset + length <= img_size img ->
  read_for_file offset length a
  = (Ok (img_bytes img offset length),
     with_streampos (u32 (offset + length))
       (with_reads ((offset, length) :: reads a)
          (with_buf (Some img) (offset + length) a))).
Proof.
  intros (Hopen & Hgood) Hsync Hoff Hlen Hfit. unfold read_for_file.
  step. unfold get_state. step.
  destruct (Z.eqb_spec (streampos a) offset) as [He|Hne]; cbn [negb].
  - unfold ret at 1. cbv beta iota. step.
    pose proof (Hsync He) as Hp.
    rewrite (stream_read_exact_ok a img length Hopen Hgood Hlen)
      by (rewrite Hp; exact Hfit).
    unfold bind, modify, ret. cbv beta iota. rewrite Hp. reflexivity.
  - rewrite (stream_seekg_ok a img offset Hopen Hgood Hoff). step.
    rewrite (stream_read_exact_ok _ img length) by (cbn; auto).
    unfold bind, modify, ret. cbv beta iota. reflexivity.
Qed.

(** X6. Where [streampos] differs from [offset], or tells the truth,
    [read_for_file] gives the [length] bytes of the executable at [offset],
    with one read from the file, and leaves the stream and [streampos] just
    behind them. *)
Theorem read_for_file_exact (img : image) (a : archive) (offset length : Z)
    (Hready : stream_ready img a) (Hsync : synced_at offset a)
    (Hoff : 0 <= offset) (Hlen : 0 <= length)
    (Hfit : offset + length <= img_size img) :
  exists a',
    read_for_file offset length a = (Ok (img_bytes img offset length), a')
    /\ stream_ready img a'
    /\ buf_pos a' = offset + length
    /\ streampos a' = u32 (offset + length)
    /\ reads a' = (offset, length) :: reads a
    /\ (files a', file_map a', file_count a', comment a')
       = (files a, file_map a, file_count a, comment a).
Proof.
  rewrite (read_for_file_ok img a offset length Hready Hsync Hoff Hlen Hfit).
  destruct Hready as (Hopen & Hgood).
  eexists. split; [reflexivity|]. cbn. repeat split; auto.
Qed.

(** X7. Where [streampos] says [offset] and the stream stands elsewhere,
    [read_for_file] does not seek: it gives the bytes at the place the
    stream stands at, and [streampos] goes on being wrong by as much. *)
Theorem read_for_file_trusts_streampos (img : image) (a : archive)
    (offset length : Z)
    (Hready : stream_ready img a) (Hcached : streampos a = offset)
    (Hpos : 0 <= buf_pos a) (Hlen : 0 <= length)
    (Hfit : buf_pos a + length <= img_size img) :
  exists a',
    read_for_file offset length a
    = (Ok (img_bytes img (buf_pos a) length), a')
    /\ buf_pos a' = buf_pos a + length
    /\ streampos a' = u32 (offset + length)
    /\ reads a' = (buf_pos a, length) :: reads a.
Proof.
  destruct Hready as (Hopen & Hgood). unfold read_for_file.
  step. unfold get_state. step.
  rewrite Hcached, Z.eqb_refl. cbn [negb]. unfold ret at 1. cbv beta iota.
  step. rewrite (stream_read_exact_ok a img length Hopen Hgood Hlen Hfit).
  unfold bind, modify, ret. cbv beta iota.
  eexists. split; [reflexivity|]. cbn. repeat split; auto.
Qed.

(** ** A stream that has failed stays failed *)

Lemma marks_bind {A B} (m : M archive A) (k : A -> M archive B) :
  marks_io_failure m -> (forall x, marks_io_failure (k x)) ->
  marks_io_failure (bind m k).
Proof.
  intros Hm Hk a a' Hrun. unfold bind in Hrun.
  destruct (m a) as [[x|e|c] a1] eqn:Hma.
  - exact (Hk x a1 a' Hrun).
  - injection Hrun as He Ha. subst. exact (Hm a a' Hma).
  - discriminate.
Qed.

Lemma marks_ret {A} (x : A) : marks_io_failure (ret x).
Proof. intros a a' H. discriminate. Qed.

Lemma marks_abort {A} (c : crash) : marks_io_failure (abort (A := A) c).
Proof. intros a a' H. discriminate. Qed.

Lemma marks_get_state : marks_io_failure get_state.
Proof. intros a a' H. discriminate. Qed.

Lemma marks_modify (g : archive -> archive) : marks_io_failure (modify g).
Proof. intros a a' H. discriminate. Qed.

Lemma marks_assert_that (b : bool) : marks_io_failure (assert_that b).
Proof. intros a a' H. destruct b; discriminate. Qed.

Lemma marks_throw {A} (e : exn) :
  e <> ios_failure -> marks_io_failure (throw (A := A) e).
Proof. intros He a a' H. injection H as H _. contradiction. Qed.

Lemma marks_stream_fail {A} (d : A) : marks_io_failure (stream_fail d).
Proof.
  intros a a' H. unfold stream_fail in H.
  destruct (stream_exceptions a) eqn:Hx; [|discriminate].
  injection H as <-. split; [reflexivity | exact Hx].
Qed.

Lemma marks_stream_set_exceptions : marks_io_failure stream_set_exceptions.
Proof.
  intros a a' H. unfold stream_set_exceptions in H.
  destruct (stream_failed a) eqn:Hf; [|discriminate].
  injection H as <-. split; [exact Hf | reflexivity].
Qed.

Lemma marks_stream_setstate_goodbit :
  marks_io_failure stream_setstate_goodbit.
Proof.
  intros a a' H. unfold stream_setstate_goodbit in H.
  destruct (stream_failed a) eqn:Hf; [|discriminate].
  destruct (stream_exceptions a) eqn:Hx; [|discriminate].
  injection H as <-. split; assumption.
Qed.

Lemma marks_stream_seekg (off : Z) : marks_io_failure (stream_seekg off).
Proof.
  intros a a' H. unfold stream_seekg in H.
  destruct (stream_failed a); [exact (marks_stream_fail tt a a' H)|].
  destruct (buf a); [|exact (marks_stream_fail tt a a' H)].
  destruct (off <? 0); [exact (marks_stream_fail tt a a' H)|discriminate].
Qed.

Lemma marks_stream_seekg_end : marks_io_failure stream_seekg_end.
Proof.
  intros a a' H. unfold stream_seekg_end in H.
  destruct (stream_failed a); [exact (marks_stream_fail tt a a' H)|].
  destruct (buf a); [discriminate|exact (marks_stream_fail tt a a' H)].
Qed.

Lemma marks_stream_seekg_cur (off : Z) :
  marks_io_failure (stream_seekg_cur off).
Proof. intros a a' H. exact (marks_stream_seekg _ a a' H). Qed.

Lemma marks_stream_tellg : marks_io_failure stream_tellg.
Proof.
  intros a a' H. unfold stream_tellg in H.
  destruct (stream_failed a); [discriminate|]. destruct (buf a); discriminate.
Qed.

Lemma marks_stream_read (n : Z) : marks_io_failure (stream_read n).
Proof.
  intros a a' H. unfold stream_read in H.
  destruct (stream_failed a); [exact (marks_stream_fail _ a a' H)|].
  destruct (buf a) as [img|].
  - destruct (_ || _); [discriminate|].
    exact (marks_stream_fail _ _ a' H).
  - destruct (n =? 0); [discriminate|exact (marks_stream_fail _ a a' H)].
Qed.

Ltac marks_step :=
  first
    [ apply marks_bind; [|intros ?]
    | apply marks_ret | apply marks_abort
    | apply marks_get_state | apply marks_assert_that | apply marks_modify
    | apply marks_throw; discriminate
    | apply marks_stream_fail
    | apply marks_stream_set_exceptions
    | apply marks_stream_setstate_goodbit
    | apply marks_stream_seekg
    | apply marks_stream_seekg_end
    | apply marks_stream_seekg_cur
    | apply marks_stream_tellg
    | apply marks_stream_read
    | match goal with
      | |- marks_io_failure (if ?b then _ else _) => destruct b
      end
    | progress cbv zeta ].

Lemma marks_stream_read_exact (n : Z) : marks_io_failure (stream_read_exact n).
Proof. unfold stream_read_exact. repeat marks_step. Qed.

Lemma marks_purge : marks_io_failure purge.
Proof. unfold purge. repeat marks_step. Qed.

Lemma marks_file_ref (i : nat) : marks_io_failure (file_ref i).
Proof.
  intros a a' H. unfold file_ref in H.
  destruct (files a) as [fs|]; [|discriminate].
  destruct (fs !! i); discriminate.
Qed.

Lemma marks_file_update (i : nat) (g : file -> file) :
  marks_io_failure (file_update i g).
Proof.
  unfold file_update. apply marks_bind; [apply marks_file_ref|].
  intros f. apply marks_modify.
Qed.

Lemma marks_eocd_decode (p : list byte) (k : Z) :
  marks_io_failure (eocd_decode p k).
Proof. unfold eocd_decode. repeat marks_step. Qed.

Lemma marks_read_eocd (file_size : Z) : marks_io_failure (read_eocd file_size).
Proof.
  unfold read_eocd.
  repeat first [ apply marks_stream_read_exact
               | apply marks_eocd_decode
               | marks_step ].
Qed.

Lemma marks_read_cd_record (fileno : nat) :
  marks_io_failure (read_cd_record fileno).
Proof.
  unfold read_cd_record.
  repeat first [ apply marks_stream_read_exact
               | apply marks_file_update
               | marks_step ].
Qed.

Lemma marks_read_cd_records (todo : nat) :
  forall fileno, marks_io_failure (read_cd_records fileno todo).
Proof.
  induction todo as [|todo IH]; intros fileno; simpl.
  - apply marks_ret.
  - apply marks_bind; [apply marks_read_cd_record|]. intros name.
    apply marks_bind; [apply IH|]. intros rest. apply marks_ret.
Qed.

Lemma marks_link_filenames (elems : list (list byte * Z)) :
  marks_io_failure (link_filenames elems).
Proof.
  induction elems as [|[key i] rest IH]; simpl.
  - apply marks_ret.
  - apply marks_bind; [|intros _; exact IH].
    unfold file_update_at. destruct (i <? 0); [apply marks_abort|].
    apply marks_file_update.
Qed.

Lemma marks_read_header (i : nat) (offset : Z) :
  marks_io_failure (read_header i offset).
Proof.
  unfold read_header.
  repeat first [ apply marks_stream_read_exact
               | apply marks_file_update
               | marks_step ].
Qed.

Lemma marks_read_headers (todo : nat) :
  forall i, marks_io_failure (read_headers i todo).
Proof.
  induction todo as [|todo IH]; intros i; simpl.
  - apply marks_ret.
  - apply marks_bind; [apply marks_file_ref|]. intros f.
    apply marks_bind; [apply marks_read_header|]. intros _.
    apply IH.
Qed.

Lemma marks_read_central_directory (cd_offset : Z) :
  marks_io_failure (read_central_directory cd_offset).
Proof.
  unfold read_central_directory.
  repeat first [ apply marks_read_cd_records
               | apply marks_link_filenames
               | apply marks_read_headers
               | marks_step ].
Qed.

Lemma marks_init_body : marks_io_failure init_body.
Proof.
  unfold init_body.
  repeat first [ apply marks_read_eocd
               | apply marks_read_central_directory
               | marks_step ].
Qed.

(** [purge] leaves the two stream flags as they are. *)
Lemma purge_flags (a : archive) :
  stream_failed (snd (purge a)) = stream_failed a
  /\ stream_exceptions (snd (purge a)) = stream_exceptions a.
Proof.
  unfold purge, bind, modify, stream_setstate_goodbit. cbv beta iota.
  cbn [stream_failed stream_exceptions with_comment with_file_map with_buf
       with_files with_file_count].
  destruct (stream_failed a && stream_exceptions a); split; reflexivity.
Qed.

(** On a purged archive whose stream has failed under the exception mask,
    [purge] throws and changes nothing. *)
Lemma purge_fixed (a : archive) :
  purged a -> stream_failed a = true -> stream_exceptions a = true ->
  purge a = (Throw ios_failure, a).
Proof.
  intros (Hc & Hf & Hb & Hm & Hcm) Hfail Hmask.
  destruct a as [fs b bp sf sx rd sp fc fm cm]. simpl in *. subst.
  reflexivity.
Qed.

(** X8. Once [init] has ended with [std::ios_base::failure], the stream
    keeps its error bit and its exception mask, which nothing in [init] or
    [purge] clears: every later [init], whatever the executable, throws
    [std::ios_base::failure] from its first statement and leaves the archive
    as it found it. *)
Theorem io_failure_disables_init (exe : option image) (a a' : archive)
    (Hrun : init exe a = (Throw ios_failure, a')) :
  stream_failed a' = true /\ stream_exceptions a' = true
  /\ forall exe', init exe' a' = (Throw ios_failure, a').
Proof.
  assert (H : purged a' /\ stream_failed a' = true
              /\ stream_exceptions a' = true).
  { unfold init in Hrun. stepH Hrun.
    pose proof (purge_purged a) as Hp0.
    destruct (purge a) as [[[]|e|c] a1] eqn:Hpurge; try discriminate.
    - stepH Hrun. unfold buf_open, modify in Hrun. stepH Hrun.
      unfold get_state in Hrun.
      destruct (negb _) in Hrun; [discriminate|].
      unfold try_catch in Hrun.
      destruct (init_body _) as [[[]|e|c] a2] eqn:Hbody; try discriminate.
      stepH Hrun.
      pose proof (purge_purged a2) as Hp2.
      pose proof (purge_flags a2) as (Hf2 & Hx2).
      destruct (purge a2) as [[[]|e2|c2] a3] eqn:Hpurge2; try discriminate.
      + unfold throw in Hrun. injection Hrun as -> <-.
        destruct (marks_init_body _ _ Hbody) as (Hf & Hx).
        simpl in Hp2, Hf2, Hx2. rewrite Hf2, Hx2. auto.
      + injection Hrun as -> <-.
        destruct (marks_purge _ _ Hpurge2) as (Hf & Hx). auto.
    - injection Hrun as -> <-.
      destruct (marks_purge _ _ Hpurge) as (Hf & Hx). auto. }
  destruct H as (Hp & Hf & Hx). split; [exact Hf|]. split; [exact Hx|].
  intros exe'. unfold init. step.
  rewrite (purge_fixed a' Hp Hf Hx). reflexivity.
Qed.

Lemma io_failure_disables_init_witness :
  init (Some (image_of zip_truncated)) archive_new
  = (Throw ios_failure, initialized zip_truncated)
  /\ init (Some (image_of zip_hello)) (initialized zip_truncated)
     = (Throw ios_failure, initialized zip_truncated).
Proof.
  assert (Hrun : init (Some (image_of zip_truncated)) archive_new
                 = (Throw ios_failure, initialized zip_truncated))
    by (vm_compute; reflexivity).
  split; [exact Hrun|].
  apply (io_failure_disables_init _ _ _ Hrun).
Defined.

(** ** Reads past the end of the executable *)




(** ** The archive after a successful [init] *)

(** The stream operations keep the file they read from. *)
Lemma keeps_buf_stream_seekg (off : Z) : keeps buf (stream_seekg off).
Proof.
  intros a. unfold stream_seekg, stream_fail.
  destruct (stream_failed a), (buf a) eqn:E, (off <? 0),
    (stream_exceptions a); cbn; rewrite ?E; reflexivity.
Qed.

Lemma keeps_buf_stream_seekg_cur (off : Z) : keeps buf (stream_seekg_cur off).
Proof. intros a. unfold stream_seekg_cur. apply keeps_buf_stream_seekg. Qed.

Lemma keeps_buf_stream_read (n : Z) : keeps buf (stream_read n).
Proof.
  intros a. unfold stream_read, stream_fail.
  destruct (stream_failed a), (buf a) eqn:E, (n =? 0),
    (stream_exceptions a); cbn; rewrite ?E; try reflexivity;
    destruct (_ <=? _); cbn; try reflexivity;
    destruct (stream_exceptions a); reflexivity.
Qed.

Lemma keeps_buf_stream_read_exact (n : Z) : keeps buf (stream_read_exact n).
Proof.
  unfold stream_read_exact.
  apply keeps_bind; [apply keeps_buf_stream_read|]. intros bs.
  apply keeps_bind; [apply keeps_assert_that|]. intros _. apply keeps_ret.
Qed.

Lemma keeps_buf_file_update (i : nat) (g : file -> file) :
  keeps buf (file_update i g).
Proof.
  unfold file_update. apply keeps_bind.
  - intros a. unfold file_ref.
    destruct (files a) as [fs|]; [destruct (fs !! i)|]; reflexivity.
  - intros f. apply keeps_modify. intros a. reflexivity.
Qed.

Ltac keeps_buf_step :=
  first
    [ apply keeps_buf_stream_read_exact
    | apply keeps_buf_file_update
    | apply keeps_buf_stream_seekg
    | apply keeps_buf_stream_seekg_cur
    | apply keeps_bind; [|intros ?]
    | apply keeps_ret | apply keeps_throw | apply keeps_abort
    | apply keeps_get_state | apply keeps_assert_that
    | apply keeps_modify; intros ?; reflexivity
    | match goal with
      | |- keeps _ (if ?b then _ else _) => destruct b
      end
    | progress cbv zeta ].

Lemma keeps_buf_read_cd_record (fileno : nat) :
  keeps buf (read_cd_record fileno).
Proof. unfold read_cd_record. repeat keeps_buf_step. Qed.

Lemma keeps_buf_read_cd_records (todo : nat) :
  forall fileno, keeps buf (read_cd_records fileno todo).
Proof.
  induction todo as [|todo IH]; intros fileno; simpl.
  - apply keeps_ret.
  - apply keeps_bind; [apply keeps_buf_read_cd_record|]. intros name.
    apply keeps_bind; [apply IH|]. intros rest. apply keeps_ret.
Qed.

Lemma keeps_buf_link_filenames (elems : list (list byte * Z)) :
  keeps buf (link_filenames elems).
Proof.
  induction elems as [|[key i] rest IH]; simpl.
  - apply keeps_ret.
  - apply keeps_bind; [|intros _; exact IH].
    unfold file_update_at. destruct (i <? 0); [apply keeps_abort|].
    apply keeps_buf_file_update.
Qed.

Lemma keeps_buf_eocd_decode (p : list byte) (k : Z) :
  keeps buf (eocd_decode p k).
Proof. unfold eocd_decode. repeat keeps_buf_step. Qed.

Lemma keeps_buf_read_eocd (file_size : Z) : keeps buf (read_eocd file_size).
Proof.
  unfold read_eocd.
  repeat first [apply keeps_buf_eocd_decode | keeps_buf_step].
Qed.

(** The name index is written by the second loop of
    [read_central_directory] and by [purge] only. *)
Lemma keeps_file_map_file_update (i : nat) (g : file -> file) :
  keeps file_map (file_update i g).
Proof.
  unfold file_update. apply keeps_bind.
  - intros a. unfold file_ref.
    destruct (files a) as [fs|]; [destruct (fs !! i)|]; reflexivity.
  - intros f. apply keeps_modify. intros a. reflexivity.
Qed.

Lemma keeps_file_map_eocd_decode (p : list byte) (k : Z) :
  keeps file_map (eocd_decode p k).
Proof. unfold eocd_decode. repeat keeps_step. Qed.

Lemma keeps_file_map_read_eocd (file_size : Z) :
  keeps file_map (read_eocd file_size).
Proof.
  unfold read_eocd.
  repeat first [apply keeps_file_map_eocd_decode | keeps_step].
Qed.

(** *** What [read_eocd] leaves *)

Lemma read_eocd_ok_inv (file_size cd_offset : Z) (a a' : archive) :
  read_eocd file_size a = (Ok cd_offset, a') ->
  0 <= file_count a' < 65536
  /\ files a' = Some (replicate (Z.to_nat (file_count a')) file_zero)
  /\ file_map a' = file_map a
  /\ buf a' = buf a.
Proof.
  intros Hrun.
  pose proof (keeps_file_map_read_eocd file_size a) as Hm.
  pose proof (keeps_buf_read_eocd file_size a) as Hb.
  rewrite Hrun in Hm, Hb. simpl in Hm, Hb.
  unfold read_eocd in Hrun.
  destruct (_ <? 0) in Hrun; [discriminate|].
  unfold bind at 1 in Hrun.
  destruct (stream_seekg _ a) as [[[]|e|c] a0]; try discriminate.
  unfold bind at 1 in Hrun.
  destruct (stream_read_exact _ a0) as [[bs|e|c] a1]; try discriminate.
  cbv zeta in Hrun. destruct (_ >? _) in Hrun; [discriminate|].
  unfold eocd_decode in Hrun.
  destruct (negb _) in Hrun; [discriminate|].
  unfold bind, modify, ret, abort in Hrun. cbv beta iota in Hrun.
  destruct (_ >? _) in Hrun; [discriminate|].
  injection Hrun as _ <-.
  cbn [file_count files with_comment with_files with_file_count] in *.
  split; [apply get_uint16_range|]. split; [reflexivity|].
  split; assumption.
Qed.

(** *** The first loop *)

Lemma read_cd_record_ok_inv (fileno : nat) (a a' : archive)
    (name : list byte) (fs : list file) :
  files a = Some fs ->
  read_cd_record fileno a = (Ok name, a') ->
  exists rec f,
    fs !! fileno = Some f
    /\ files a' = Some (<[fileno := cd_entry rec f]> fs)
    /\ (get_uint16 (drop 10 rec) = 0 \/ get_uint16 (drop 10 rec) = 8).
Proof.
  intros Hfs Hrun. unfold read_cd_record in Hrun. stepH Hrun.
  pose proof (keeps_stream_read_exact files files_blind
                CENTRAL_DIRECTORY_RECORD_LEN a) as K0.
  destruct (stream_read_exact _ a) as [[rec|e|c] a0]; try discriminate.
  simpl in K0. rewrite Hfs in K0.
  repeat match type of Hrun with
         | (if ?b then _ else _) _ = _ => destruct b; [discriminate|]
         end.
  destruct (fs !! fileno) as [f|] eqn:Hi.
  2:{ unfold bind at 1 in Hrun. unfold file_update at 1 in Hrun.
      unfold bind at 1 in Hrun. unfold file_ref in Hrun.
      rewrite K0, Hi in Hrun. discriminate. }
  exists rec, f. split; [reflexivity|].
  assert (Hlt : (fileno < length fs)%nat) by (eapply lookup_lt_Some; eauto).
  stepH Hrun. rewrite (file_update_ok a0 fs f fileno _ K0 Hi) in Hrun.
  destruct (negb (_ =? METHOD_STORE) && negb (_ =? METHOD_DEFLATE)) eqn:Hmeth;
    [discriminate|].
  assert (Hm : get_uint16 (drop 10 rec) = 0 \/ get_uint16 (drop 10 rec) = 8).
  { unfold METHOD_STORE, METHOD_DEFLATE in Hmeth.
    destruct (Z.eqb_spec (get_uint16 (drop 10 rec)) 0) as [H0|H0];
      [left; exact H0|].
    destruct (Z.eqb_spec (get_uint16 (drop 10 rec)) 8) as [H8|H8];
      [right; exact H8|]. discriminate. }
  stepH Hrun.
  rewrite file_update_with_files
    with (f := with_f_method (get_uint16 (drop 10 rec)) f) in Hrun
    by (apply list_lookup_insert_eq; exact Hlt).
  stepH Hrun. erewrite file_update_with_files in Hrun
    by (apply list_lookup_insert_eq; rewrite length_insert; exact Hlt).
  stepH Hrun. erewrite file_update_with_files in Hrun
    by (apply list_lookup_insert_eq; rewrite !length_insert; exact Hlt).
  destruct (_ >? 0) in Hrun; [discriminate|].
  stepH Hrun. erewrite file_update_with_files in Hrun
    by (apply list_lookup_insert_eq; rewrite !length_insert; exact Hlt).
  rewrite !list_insert_insert_eq in Hrun.
  match type of Hrun with
  | bind ?m ?k ?s = _ =>
      assert (K : keeps files (bind m k))
  end.
  { repeat keeps_step. }
  match type of Hrun with
  | ?m ?s = _ => specialize (K s)
  end.
  rewrite Hrun in K. simpl in K.
  split; [exact K | exact Hm].
Qed.

Lemma read_cd_records_ok_inv (todo : nat) :
  forall (fileno : nat) (a a' : archive) (names : list (list byte))
         (fs : list file),
    files a = Some fs ->
    read_cd_records fileno todo a = (Ok names, a') ->
    exists fs',
      files a' = Some fs' /\ length fs' = length fs
      /\ length names = todo
      /\ (forall j, (j < fileno \/ fileno + todo <= j)%nat ->
            fs' !! j = fs !! j)
      /\ (forall j, (fileno <= j < fileno + todo)%nat ->
            exists rec f,
              fs !! j = Some f /\ fs' !! j = Some (cd_entry rec f)
              /\ (get_uint16 (drop 10 rec) = 0
                  \/ get_uint16 (drop 10 rec) = 8)).
Proof.
  induction todo as [|todo IH]; intros fileno a a' names fs Hfs Hrun;
    simpl in Hrun.
  - injection Hrun as <- <-. exists fs.
    repeat split; auto. intros j Hj. lia.
  - stepH Hrun.
    destruct (read_cd_record fileno a) as [[name|e|c] a1] eqn:Hrec;
      try discriminate.
    destruct (read_cd_record_ok_inv _ _ _ _ _ Hfs Hrec)
      as (rec & f & Hi & Hfs1 & Hm).
    stepH Hrun.
    destruct (read_cd_records (S fileno) todo a1) as [[rest|e|c] a2] eqn:Hrest;
      try discriminate.
    injection Hrun as <- <-.
    destruct (IH _ _ _ _ _ Hfs1 Hrest)
      as (fs' & Hfs' & Hlen & Hn & Hout & Hin).
    rewrite length_insert in Hlen.
    assert (Hlt : (fileno < length fs)%nat) by (eapply lookup_lt_Some; eauto).
    exists fs'. split; [exact Hfs'|]. split; [exact Hlen|].
    split; [simpl; rewrite Hn; reflexivity|]. split.
    + intros j Hj. rewrite Hout by lia.
      apply list_lookup_insert_ne. lia.
    + intros j Hj. destruct (decide (j = fileno)) as [->|Hne].
      * exists rec, f. split; [exact Hi|]. split; [|exact Hm].
        rewrite Hout by lia. apply list_lookup_insert_eq. exact Hlt.
      * destruct (Hin j) as (rec' & f' & Hj1 & Hj2 & Hm'); [lia|].
        exists rec', f'. split; [|split; assumption].
        rewrite list_lookup_insert_ne in Hj1 by lia. exact Hj1.
Qed.

(** *** The third loop *)

Lemma link_filenames_ok_inv (elems : list (list byte * Z)) :
  forall (a a' : archive) (fs : list file),
    files a = Some fs ->
    NoDup (elems.*2) ->
    link_filenames elems a = (Ok tt, a') ->
    exists fs',
      files a' = Some fs' /\ length fs' = length fs
      /\ (forall key i, (key, i) ∈ elems ->
            0 <= i
            /\ exists f, fs !! Z.to_nat i = Some f
                 /\ fs' !! Z.to_nat i = Some (with_f_filename (Some key) f))
      /\ (forall j, (forall key, (key, Z.of_nat j) ∉ elems) ->
            fs' !! j = fs !! j).
Proof.
  induction elems as [|[key i] rest IH]; intros a a' fs Hfs Hnd Hrun;
    simpl in Hrun.
  - injection Hrun as <-. exists fs. split; [exact Hfs|].
    split; [reflexivity|]. split; [|reflexivity].
    intros k j Hin. apply elem_of_nil in Hin. contradiction.
  - cbn [fmap list_fmap snd] in Hnd. apply NoDup_cons in Hnd as (Hi & Hnd).
    stepH Hrun. unfold file_update_at in Hrun.
    destruct (Z.ltb_spec i 0) as [Hneg|Hpos]; [discriminate|].
    destruct (fs !! Z.to_nat i) as [f|] eqn:Hf.
    2:{ unfold file_update, bind, file_ref in Hrun.
        rewrite Hfs, Hf in Hrun. discriminate. }
    rewrite (file_update_ok a fs f _ _ Hfs Hf) in Hrun.
    destruct (IH (with_files
                    (Some (<[Z.to_nat i := with_f_filename (Some key) f]> fs))
                    a) a' _ eq_refl Hnd Hrun)
      as (fs' & Hfs' & Hlen & Hin & Hout).
    rewrite length_insert in Hlen.
    assert (Hlt : (Z.to_nat i < length fs)%nat)
      by (eapply lookup_lt_Some; eauto).
    assert (Hfresh : forall k, (k, i) ∉ rest).
    { intros k Hk. apply Hi. apply list_elem_of_fmap.
      exists (k, i). split; [reflexivity | exact Hk]. }
    exists fs'. split; [exact Hfs'|]. split; [exact Hlen|]. split.
    + intros k j Hkj. apply elem_of_cons in Hkj as [Heq|Hkj].
      * injection Heq as -> ->. split; [exact Hpos|].
        exists f. split; [exact Hf|].
        rewrite Hout.
        -- apply list_lookup_insert_eq. exact Hlt.
        -- intros k. rewrite Z2Nat.id by lia. apply Hfresh.
      * destruct (Hin k j Hkj) as (Hj & f1 & Hf1 & Hf1').
        split; [exact Hj|]. exists f1. split; [|exact Hf1'].
        assert (Hne : Z.to_nat i <> Z.to_nat j).
        { intros Heq. apply (Hfresh k).
          replace i with j by lia. exact Hkj. }
        rewrite list_lookup_insert_ne in Hf1 by exact Hne. exact Hf1.
    + intros j Hj. rewrite Hout.
      * apply list_lookup_insert_ne. intros Heq.
        apply (Hj key). rewrite <- Heq, Z2Nat.id by lia. apply elem_of_cons.
        left. reflexivity.
      * intros k Hk. apply (Hj k). apply elem_of_cons. right. exact Hk.
Qed.

(** *** The name index *)

(** What the second loop puts under a name is the first position the name
    has in the list of file names. *)
Lemma emplace_all_Some (names : list (list byte)) (name : list byte) (i : Z) :
  emplace_all names 0 ∅ !! name = Some i ->
  0 <= i < Z.of_nat (length names)
  /\ names !! Z.to_nat i = Some name
  /\ forall j, (j < Z.to_nat i)%nat -> names !! j <> Some name.
Proof.
  rewrite emplace_all_lookup, lookup_empty. intros H.
  destruct (list_find (fun n => n = name) names) as [[k n]|] eqn:Hfind;
    [|discriminate].
  injection H as <-.
  apply list_find_Some in Hfind as (Hk & -> & Hfirst).
  rewrite Z.add_0_l, Nat2Z.id.
  split; [apply lookup_lt_Some in Hk; lia|]. split; [exact Hk|].
  intros j Hj Hjn. exact (Hfirst j name Hjn Hj eq_refl).
Qed.

Lemma emplace_all_None (names : list (list byte)) (name : list byte) :
  emplace_all names 0 ∅ !! name = None <-> name ∉ names.
Proof.
  rewrite emplace_all_lookup, lookup_empty. split.
  - intros H Hin.
    destruct (list_find (fun n => n = name) names) as [[k n]|] eqn:Hfind;
      [discriminate|].
    apply list_find_None in Hfind. rewrite Forall_forall in Hfind.
    exact (Hfind name Hin eq_refl).
  - intros Hnot.
    destruct (list_find (fun n => n = name) names) as [[k n]|] eqn:Hfind;
      [|reflexivity].
    apply list_find_Some in Hfind as (Hk & -> & _).
    exfalso. apply Hnot. eapply list_elem_of_lookup_2. exact Hk.
Qed.

Lemma emplace_all_NoDup (names : list (list byte)) :
  NoDup ((map_to_list (emplace_all names 0 ∅)).*2).
Proof.
  apply NoDup_fmap_2_strong; [|apply NoDup_map_to_list].
  intros [k1 i1] [k2 i2] H1 H2 Heq. simpl in Heq. subst i2.
  apply elem_of_map_to_list in H1, H2.
  apply emplace_all_Some in H1 as (_ & H1 & _).
  apply emplace_all_Some in H2 as (_ & H2 & _).
  rewrite H1 in H2. injection H2 as ->. reflexivity.
Qed.

(** *** [read_central_directory] as a whole *)

Lemma cd_entry_fields (rec : list byte) (f : file) :
  f_method (cd_entry rec f) = get_uint16 (drop 10 rec)
  /\ f_filename (cd_entry rec f) = f_filename f
  /\ f_comment (cd_entry rec f) = f_comment f.
Proof. repeat split. Qed.

(** What a successful [read_central_directory] has made of the entry array
    [fs] it found: entry [j] has its fields from a record that passed the
    checks, the data offset from its local header, and a file name exactly
    when the name index sends that name to [j]. *)
Lemma read_central_directory_ok_inv (cd_offset : Z) (img : image)
    (a a' : archive) (fs : list file) :
  files a = Some fs -> length fs = Z.to_nat (file_count a) ->
  file_map a = ∅ -> buf a = Some img ->
  read_central_directory cd_offset a = (Ok tt, a') ->
  exists names fs',
    length names = length fs
    /\ files a' = Some fs' /\ length fs' = length fs
    /\ file_map a' = emplace_all names 0 ∅
    /\ file_count a' = file_count a
    /\ forall j f, fs !! j = Some f ->
         exists f',
           fs' !! j = Some f'
           /\ (f_method f' = 0 \/ f_method f' = 8)
           /\ f_comment f' = f_comment f
           /\ (forall key, file_map a' !! key = Some (Z.of_nat j) ->
                 f_filename f' = Some key)
           /\ ((forall key, file_map a' !! key <> Some (Z.of_nat j)) ->
                 f_filename f' = f_filename f).
Proof.
  intros Hfs Hlen Hmap Hbuf Hrun.
  unfold read_central_directory in Hrun. stepH Hrun.
  pose proof (preserves_stream_seekg cd_offset a) as P0.
  pose proof (keeps_stream_seekg files files_blind cd_offset a) as F0.
  pose proof (keeps_buf_stream_seekg cd_offset a) as B0.
  destruct (stream_seekg cd_offset a) as [[[]|e|c] a0] eqn:Hseek;
    try discriminate.
  simpl in P0, F0, B0. destruct P0 as (Hc0 & Hm0 & _).
  stepH Hrun. unfold get_state at 1 in Hrun. rewrite Hc0 in Hrun.
  stepH Hrun.
  pose proof (preserves_read_cd_records (Z.to_nat (file_count a)) 0%nat a0)
    as P1.
  pose proof (keeps_buf_read_cd_records (Z.to_nat (file_count a)) 0%nat a0)
    as B1.
  destruct (read_cd_records 0 (Z.to_nat (file_count a)) a0)
    as [[names|e|c] a1] eqn:Hrecs; try discriminate.
  simpl in P1, B1. destruct P1 as (Hc1 & Hm1 & _).
  rewrite Hfs in F0.
  destruct (read_cd_records_ok_inv _ _ _ _ _ _ F0 Hrecs)
    as (fs1 & Hfs1 & Hlen1 & Hn & Hout1 & Hin1).
  stepH Hrun. unfold modify at 1 in Hrun.
  stepH Hrun. unfold get_state at 1 in Hrun. stepH Hrun.
  set (a2 := with_file_map (emplace_all names 0 (file_map a1)) a1) in *.
  assert (Hm2 : file_map a2 = emplace_all names 0 ∅).
  { cbn [file_map a2 with_file_map]. rewrite Hm1, Hm0, Hmap. reflexivity. }
  pose proof (preserves_link_filenames (map_to_list (file_map a2)) a2) as P3.
  pose proof (keeps_buf_link_filenames (map_to_list (file_map a2)) a2) as B3.
  destruct (link_filenames (map_to_list (file_map a2)) a2)
    as [[[]|e|c] a3] eqn:Hlink; try discriminate.
  simpl in P3, B3. destruct P3 as (Hc3 & Hm3 & _).
  assert (Hfs2 : files a2 = Some fs1) by exact Hfs1.
  assert (Hnd : NoDup ((map_to_list (file_map a2)).*2))
    by (rewrite Hm2; apply emplace_all_NoDup).
  destruct (link_filenames_ok_inv _ _ _ _ Hfs2 Hnd Hlink)
    as (fs3 & Hfs3 & Hlen3 & Hin3 & Hout3).
  assert (Hb3 : buf a3 = Some img).
  { rewrite B3. cbn [buf a2 with_file_map]. rewrite B1, B0. exact Hbuf. }
  pose proof (preserves_read_headers (Z.to_nat (file_count a)) 0%nat a3) as P4.
  rewrite Hrun in P4. simpl in P4. destruct P4 as (Hc4 & Hm4 & _).
  assert (Hn3 : (0 + Z.to_nat (file_count a) = length fs3)%nat)
    by (rewrite Hlen3, Hlen1, Hlen; reflexivity).
  destruct (read_headers_spec img _ _ _ _ _ Hb3 Hfs3 Hn3 Hrun)
    as (Hfs' & _ & _ & _).
  rewrite take_0, drop_0 in Hfs'. simpl in Hfs'.
  assert (Hmap' : file_map a' = emplace_all names 0 ∅).
  { rewrite Hm4, Hm3. exact Hm2. }
  exists names, (map (resolve img) fs3).
  split; [rewrite Hn; symmetry; exact Hlen|].
  split; [exact Hfs'|].
  split; [rewrite length_map, Hlen3; exact Hlen1|].
  split; [exact Hmap'|].
  split; [rewrite Hc4, Hc3; cbn [file_count a2 with_file_map];
          rewrite Hc1; exact Hc0|].
  intros j f Hj.
  assert (Hjlt : (j < length fs)%nat) by (eapply lookup_lt_Some; eauto).
  destruct (Hin1 j) as (rec & f0 & Hj0 & Hj1 & Hmeth); [lia|].
  rewrite Hj in Hj0. injection Hj0 as <-.
  destruct (lookup_lt_is_Some_2 names j) as [nm Hnm]; [lia|].
  assert (Hkey : forall key,
            emplace_all names 0 ∅ !! key = Some (Z.of_nat j) -> key = nm).
  { intros key Hk. apply emplace_all_Some in Hk as (_ & Hk & _).
    rewrite Nat2Z.id, Hnm in Hk. injection Hk as ->. reflexivity. }
  rewrite Hmap'.
  destruct (decide (emplace_all names 0 ∅ !! nm = Some (Z.of_nat j)))
    as [Hyes|Hno].
  - assert (Hel : (nm, Z.of_nat j) ∈ map_to_list (file_map a2))
      by (apply elem_of_map_to_list; rewrite Hm2; exact Hyes).
    destruct (Hin3 _ _ Hel) as (_ & f1 & Hf1 & Hf3).
    rewrite Nat2Z.id in Hf1, Hf3. rewrite Hj1 in Hf1. injection Hf1 as <-.
    eexists. split; [rewrite list_lookup_fmap, Hf3; reflexivity|].
    split; [exact Hmeth|]. split; [reflexivity|]. split.
    + intros key Hk. rewrite (Hkey key Hk). reflexivity.
    + intros Hnone. exfalso. exact (Hnone nm Hyes).
  - assert (Hnone : forall key,
              (key, Z.of_nat j) ∉ map_to_list (file_map a2)).
    { intros key Hel. apply elem_of_map_to_list in Hel. rewrite Hm2 in Hel.
      rewrite (Hkey key Hel) in Hel. exact (Hno Hel). }
    specialize (Hout3 j Hnone). rewrite Hj1 in Hout3.
    eexists. split; [rewrite list_lookup_fmap, Hout3; reflexivity|].
    split; [exact Hmeth|]. split; [reflexivity|]. split.
    + intros key Hk. rewrite (Hkey key Hk) in Hk. contradiction.
    + intros _. reflexivity.
Qed.

(** *** [init] as a whole *)

Lemma init_ok_inv (exe : option image) (a a' : archive) :
  init exe a = (Ok tt, a') ->
  exists img a0 cd_offset a1,
    exe = Some img /\ buf a0 = Some img /\ file_map a0 = ∅
    /\ read_eocd (img_size img) a0 = (Ok cd_offset, a1)
    /\ read_central_directory cd_offset a1 = (Ok tt, a').
Proof.
  intros Hrun. unfold init in Hrun. stepH Hrun.
  pose proof (purge_purged a) as (_ & _ & _ & Hm & _).
  destruct (purge a) as [[[]|e|c] ap]; try discriminate. simpl in Hm.
  stepH Hrun. unfold buf_open, modify in Hrun. stepH Hrun.
  unfold get_state in Hrun. cbn [buf with_buf] in Hrun.
  destruct exe as [img|]; [|discriminate].
  rewrite bool_decide_eq_true_2 in Hrun by eauto. cbn [negb] in Hrun.
  unfold try_catch in Hrun.
  destruct (init_body _) as [[[]|e|c] a2] eqn:Hbody.
  2:{ unfold bind in Hrun. destruct (purge a2) as [[[]|?|?] ?]; discriminate. }
  2:{ discriminate. }
  injection Hrun as ->.
  unfold init_body in Hbody. stepH Hbody.
  unfold stream_set_exceptions in Hbody.
  destruct (stream_failed (with_buf (Some img) 0 ap)) eqn:Hf;
    [discriminate|].
  stepH Hbody. unfold stream_seekg_end in Hbody.
  cbn [stream_failed with_stream_exceptions buf with_buf] in Hbody, Hf.
  rewrite Hf in Hbody.
  stepH Hbody. unfold stream_tellg in Hbody.
  cbn [stream_failed with_stream_exceptions buf with_buf buf_pos] in Hbody.
  rewrite Hf in Hbody.
  destruct (_ || _) in Hbody; [discriminate|].
  stepH Hbody.
  cbn [stream_failed with_stream_exceptions buf with_buf buf_pos] in Hbody.
  rewrite Hf in Hbody. rewrite Z.eqb_refl in Hbody. cbn [negb] in Hbody.
  stepH Hbody.
  match type of Hbody with
  | match read_eocd _ ?s with _ => _ end = _ =>
      destruct (read_eocd (img_size img) s) as [[cd|e|c] a1] eqn:Heocd;
        try discriminate;
      exists img, s, cd, a1
  end.
  split; [reflexivity|]. split; [reflexivity|]. split; [exact Hm|].
  split; [exact Heocd | exact Hbody].
Qed.

(** Everything the later statements need about the archive a successful
    [init] leaves. *)
Lemma init_ok_entries (exe : option image) (a a' : archive) :
  init exe a = (Ok tt, a') ->
  exists names fs',
    files a' = Some fs'
    /\ Z.of_nat (length fs') = file_count a'
    /\ length names = length fs'
    /\ 0 <= file_count a' < 65536
    /\ file_map a' = emplace_all names 0 ∅
    /\ forall j f', fs' !! j = Some f' ->
         (f_method f' = 0 \/ f_method f' = 8)
         /\ (forall key, file_map a' !! key = Some (Z.of_nat j) ->
               f_filename f' = Some key)
         /\ ((forall key, file_map a' !! key <> Some (Z.of_nat j)) ->
               f_filename f' = None).
Proof.
  intros Hrun.
  destruct (init_ok_inv _ _ _ Hrun)
    as (img & a0 & cd & a1 & -> & Hb0 & Hm0 & Heocd & Hcd).
  destruct (read_eocd_ok_inv _ _ _ _ Heocd) as (Hn & Hfs1 & Hm1 & Hb1).
  rewrite Hm0 in Hm1. rewrite Hb0 in Hb1.
  assert (Hlen1 : length (replicate (Z.to_nat (file_count a1)) file_zero)
                  = Z.to_nat (file_count a1)) by apply length_replicate.
  destruct (read_central_directory_ok_inv _ _ _ _ _ Hfs1 Hlen1 Hm1 Hb1 Hcd)
    as (names & fs' & Hnames & Hfs' & Hlen' & Hmap' & Hcount & Hentries).
  rewrite Hlen1 in Hnames, Hlen'.
  exists names, fs'. split; [exact Hfs'|].
  split; [rewrite Hlen', Hcount; lia|].
  split; [rewrite Hnames, Hlen'; reflexivity|].
  split; [rewrite Hcount; exact Hn|]. split; [exact Hmap'|].
  intros j f' Hj.
  assert (Hjlt : (j < Z.to_nat (file_count a1))%nat)
    by (rewrite <- Hlen'; eapply lookup_lt_Some; eauto).
  destruct (Hentries j file_zero) as (f'' & Hj' & Hmeth & _ & Hyes & Hno).
  { apply lookup_replicate. split; [reflexivity | exact Hjlt]. }
  rewrite Hj in Hj'. injection Hj' as <-.
  split; [exact Hmeth|]. split; [exact Hyes | exact Hno].
Qed.

(** X10. After a successful [init] the archive is a container of [size()]
    entries: the entry array has that many elements, fewer than 65536; [at]
    gives the entry for every index from 0 up to [size()], the one the
    unchecked [operator[]] gives, and throws [std::out_of_range] for every
    other index. *)
Theorem init_makes_a_container (exe : option image) (a a' : archive)
    (Hrun : init exe a = (Ok tt, a')) :
  container_ok a'
  /\ (forall i, 0 <= i < size a' ->
        exists f, at_ a' i = Ok f /\ subscript a' i = Ok f)
  /\ (forall i, ~ 0 <= i < size a' -> at_ a' i = Throw index_out_of_range)
  /\ (empty a' = true <-> files a' = Some []).
Proof.
  destruct (init_ok_entries _ _ _ Hrun)
    as (names & fs & Hfs & Hlen & Hnames & Hn & Hmap & _).
  split; [|split; [|split]].
  - exists fs. split; [exact Hfs|]. split; [exact Hlen|]. split; [lia|].
    intros name i Hi. rewrite Hmap in Hi.
    apply emplace_all_Some in Hi as (Hi & _). lia.
  - intros i Hi. unfold size in Hi.
    destruct (lookup_lt_is_Some_2 fs (Z.to_nat i)) as [f Hf]; [lia|].
    exists f.
    assert (Hsub : subscript a' i = Ok f).
    { unfold subscript. rewrite Hfs.
      destruct (Z.ltb_spec i 0); [lia|]. rewrite Hf. reflexivity. }
    split; [|exact Hsub]. unfold at_.
    destruct (Z.ltb_spec i 0); [lia|].
    destruct (Z.geb_spec i (file_count a')); [lia|]. exact Hsub.
  - intros i Hi. unfold size in Hi. unfold at_.
    destruct (Z.ltb_spec i 0); [reflexivity|].
    destruct (Z.geb_spec i (file_count a')); [reflexivity|lia].
  - unfold empty. rewrite Hfs. split.
    + intros H0. apply Z.eqb_eq in H0. rewrite H0 in Hlen.
      destruct fs; [reflexivity|simpl in Hlen; lia].
    + intros Hnil. injection Hnil as ->. simpl in Hlen. rewrite <- Hlen.
      reflexivity.
Qed.

(** X11. After a successful [init], [find] gives [end()] for exactly the
    names the lookup by name throws [std::out_of_range] for, the names no
    central-directory record carries; for every other name [find] points
    into the array, and the lookup by name gives the entry found there. *)
Theorem find_agrees_with_lookup_by_name (exe : option image)
    (a a' : archive) (name : list byte)
    (Hrun : init exe a = (Ok tt, a')) :
  (find a' name = end_ a'
   <-> subscript_name a' name = Throw index_out_of_range)
  /\ (find a' name <> end_ a' ->
      0 <= find a' name < size a'
      /\ exists f, subscript_name a' name = Ok f
                   /\ at_ a' (find a' name) = Ok f).
Proof.
  destruct (init_ok_entries _ _ _ Hrun)
    as (names & fs & Hfs & Hlen & Hnames & Hn & Hmap & _).
  unfold find, subscript_name, end_, size.
  destruct (file_map a' !! name) as [i|] eqn:Hlook.
  - rewrite Hmap in Hlook.
    apply emplace_all_Some in Hlook as ((Hi0 & Hi1) & _).
    rewrite Hnames in Hi1.
    destruct (lookup_lt_is_Some_2 fs (Z.to_nat i)) as [f Hf]; [lia|].
    assert (Hsub : subscript a' i = Ok f).
    { unfold subscript. rewrite Hfs.
      destruct (Z.ltb_spec i 0); [lia|]. rewrite Hf. reflexivity. }
    split.
    + split; [lia|]. rewrite Hsub. discriminate.
    + intros _. split; [lia|]. exists f. split; [exact Hsub|].
      unfold at_. destruct (Z.ltb_spec i 0); [lia|].
      destruct (Z.geb_spec i (file_count a')); [lia|]. exact Hsub.
  - split; [split; reflexivity|]. intros H. contradiction.
Qed.

(** X12. After a successful [init] every entry has compression method 0 or
    8: [open] finds nothing else in its [switch], and makes a deflated
    stream for method 8 and a stored one, or fails its assertion, for method
    0. *)
Theorem init_entries_have_supported_method (zl : zlib) (exe : option image)
    (a a' : archive) (i : Z) (f : file)
    (Hrun : init exe a = (Ok tt, a')) (Hat : at_ a' i = Ok f) :
  (f_method f = 0 \/ f_method f = 8)
  /\ (f_method f = 8 -> exists sb, open zl f = Ok (deflated_stream sb))
  /\ (f_method f = 0 ->
      (f_compressed_size f = f_uncompressed_size f ->
       exists sb, open zl f = Ok (stored_stream sb))
      /\ (f_compressed_size f <> f_uncompressed_size f ->
          open zl f = Crash assertion_failed)).
Proof.
  destruct (init_ok_entries _ _ _ Hrun)
    as (names & fs & Hfs & Hlen & Hnames & Hn & Hmap & Hentries).
  unfold at_ in Hat. destruct (_ || _) in Hat; [discriminate|].
  unfold subscript in Hat. rewrite Hfs in Hat.
  destruct (i <? 0); [discriminate|].
  destruct (fs !! Z.to_nat i) as [f'|] eqn:Hi; [|discriminate].
  injection Hat as ->.
  destruct (Hentries _ _ Hi) as (Hmeth & _).
  split; [exact Hmeth|]. unfold open. split.
  - intros ->. simpl. eauto.
  - intros ->. simpl. split.
    + intros ->. rewrite Z.eqb_refl. simpl. eauto.
    + intros Hne. apply Z.eqb_neq in Hne. rewrite Hne. reflexivity.
Qed.

(** X13. After a successful [init] the entry a name resolves to carries that
    name: [get_filename] of what the lookup by name gives is the name looked
    up. *)
Theorem lookup_by_name_gives_that_name (exe : option image)
    (a a' : archive) (name : list byte) (f : file)
    (Hrun : init exe a = (Ok tt, a'))
    (Hlook : subscript_name a' name = Ok f) :
  get_filename f = Ok name.
Proof.
  destruct (init_ok_entries _ _ _ Hrun)
    as (names & fs & Hfs & Hlen & Hnames & Hn & Hmap & Hentries).
  unfold subscript_name in Hlook.
  destruct (file_map a' !! name) as [i|] eqn:Hi; [|discriminate].
  pose proof Hi as Hi'. rewrite Hmap in Hi'.
  apply emplace_all_Some in Hi' as ((Hi0 & _) & _).
  unfold subscript in Hlook. rewrite Hfs in Hlook.
  destruct (Z.ltb_spec i 0); [lia|].
  destruct (fs !! Z.to_nat i) as [f'|] eqn:Hf; [|discriminate].
  injection Hlook as ->.
  destruct (Hentries _ _ Hf) as (_ & Hyes & _).
  unfold get_filename. rewrite (Hyes name); [reflexivity|].
  rewrite Z2Nat.id by lia. exact Hi.
Qed.

(** X14. After a successful [init] an entry either is the one its name
    resolves to, or has no file name at all: the third loop of
    [read_central_directory] hands a name to the entries the name index
    points at, and a record whose name an earlier record carries is left
    with the null pointer, on which [get_filename] and [is_directory] are
    undefined. *)
Theorem entry_is_named_or_shadowed (exe : option image)
    (a a' : archive) (i : Z) (f : file)
    (Hrun : init exe a = (Ok tt, a')) (Hat : at_ a' i = Ok f) :
  (exists name, get_filename f = Ok name /\ find a' name = i)
  \/ (get_filename f = Crash undefined_behaviour
      /\ is_directory f = Crash undefined_behaviour
      /\ forall name, find a' name <> i).
Proof.
  destruct (init_ok_entries _ _ _ Hrun)
    as (names & fs & Hfs & Hlen & Hnames & Hn & Hmap & Hentries).
  unfold at_ in Hat.
  destruct (Z.ltb_spec i 0); [discriminate|].
  destruct (Z.geb_spec i (file_count a')); [discriminate|].
  simpl in Hat. unfold subscript in Hat. rewrite Hfs in Hat.
  destruct (Z.ltb_spec i 0); [lia|].
  destruct (fs !! Z.to_nat i) as [f'|] eqn:Hi; [|discriminate].
  injection Hat as ->.
  destruct (Hentries _ _ Hi) as (_ & Hyes & Hno).
  rewrite Z2Nat.id in Hyes, Hno by lia.
  destruct (lookup_lt_is_Some_2 names (Z.to_nat i)) as [nm Hnm]; [lia|].
  destruct (decide (file_map a' !! nm = Some i)) as [Hin|Hout].
  - left. exists nm. unfold get_filename, find.
    rewrite (Hyes nm Hin), Hin. split; reflexivity.
  - right.
    assert (Hnone : forall key, file_map a' !! key <> Some i).
    { intros key Hk. pose proof Hk as Hk'. rewrite Hmap in Hk'.
      apply emplace_all_Some in Hk' as (_ & Hk' & _).
      rewrite Hnm in Hk'. injection Hk' as ->. exact (Hout Hk). }
    unfold get_filename, is_directory. rewrite (Hno Hnone).
    split; [reflexivity|]. split; [reflexivity|].
    intros name. unfold find, end_.
    destruct (file_map a' !! name) as [k|] eqn:Hk; [|lia].
    intros ->. exact (Hnone name Hk).
Qed.

(** ** The end-of-central-directory record, once found *)

(** [read_eocd] on a file of at least 22 bytes: one read of the window,
    the scan, and the decoding of what the scan stopped at. *)
Lemma read_eocd_window (img : image) (a : archive) (file_size : Z) :
  buf a = Some img -> stream_failed a = false ->
  img_size img = file_size -> 22 <= file_size ->
  let n := eocd_window_len file_size in
  let window := img_bytes img (file_size - n) n in
  let a1 := with_reads ((file_size - n, n) :: reads a)
              (with_buf (Some img) file_size a) in
  read_eocd file_size a =
    let c := eocd_scan window n 0 (Z.to_nat (n - 22 + 1)) in
    if c >? n - 22 then
      (Throw (runtime_error
                "executable does not appear to contain a zipfile"), a1)
    else eocd_decode (drop (Z.to_nat (n - c - 22)) window) c a1.
Proof.
  intros Hopen Hgood Hsize Hbig n window a1.
  unfold read_eocd, END_OF_CENTRAL_DIRECTORY_LEN.
  destruct (Z.ltb_spec (file_size - 65535 - 22) 0) as [Hlt|Hge].
  - destruct (Z.ltb_spec (65535 + (file_size - 65535 - 22)) 0); [lia|].
    unfold bind at 1. rewrite (stream_seekg_ok a img 0) by (auto; lia).
    unfold bind at 1.
    rewrite (stream_read_exact_ok _ img) by (simpl; auto; lia).
    simpl buf_pos. simpl reads.
    assert (E : eocd_window_len file_size = file_size)
      by (unfold eocd_window_len; lia).
    subst window a1 n. rewrite E.
    replace (65535 + (file_size - 65535 - 22)) with (file_size - 22) by lia.
    replace (file_size - 22 + 22) with file_size by lia.
    replace (file_size - file_size) with 0 by lia.
    cbn [buf_pos with_buf].
    destruct (_ >? _); reflexivity.
  - destruct (Z.ltb_spec 65535 0); [lia|].
    unfold bind at 1.
    rewrite (stream_seekg_ok a img (file_size - 65535 - 22)) by (auto; lia).
    unfold bind at 1.
    rewrite (stream_read_exact_ok _ img) by (simpl; auto; lia).
    simpl buf_pos. simpl reads.
    assert (E : eocd_window_len file_size = 65557)
      by (unfold eocd_window_len; lia).
    subst window a1 n. rewrite E.
    replace (file_size - 65535 - 22) with (file_size - 65557) by lia.
    cbn [buf_pos with_buf].
    replace (file_size - 65557 + (65535 + 22)) with file_size by lia.
    change (65535 + 22) with 65557. change (65557 - 22) with 65535.
    destruct (_ >? _); reflexivity.
Qed.

Lemma read_eocd_found (img : image) (a : archive) (file_size k : Z) :
  buf a = Some img -> stream_failed a = false ->
  img_size img = file_size ->
  let n := eocd_window_len file_size in
  let window := img_bytes img (file_size - n) n in
  let a1 := with_reads ((file_size - n, n) :: reads a)
              (with_buf (Some img) file_size a) in
  0 <= k <= n - 22 ->
  eocd_signature_at window n k ->
  (forall j, 0 <= j < k -> ~ eocd_signature_at window n j) ->
  read_eocd file_size a
  = eocd_decode (drop (Z.to_nat (n - k - 22)) window) k a1.
Proof.
  intros Hopen Hgood Hsize n window a1 Hk Hsig Hfirst.
  assert (Hbig : 22 <= file_size) by (unfold n, eocd_window_len in Hk; lia).
  rewrite (read_eocd_window img a file_size Hopen Hgood Hsize Hbig).
  cbv zeta. fold n. fold window. fold a1.
  rewrite (eocd_scan_first window n _ k) by (auto; lia).
  destruct (Z.gtb_spec k (n - 22)); [lia | reflexivity].
Qed.

(** X15. With [p] the record the scan stopped at, [k] bytes of comment room
    behind it: a record whose two disk numbers are not both zero is refused
    as multipart; otherwise the entry count is the 16-bit field at 10, the
    entry array is allocated with that many zero-initialised entries, the
    value returned is the 32-bit field at 16, and the archive comment is the
    bytes behind the record, as many as the field at 20 says, when the
    buffer holds that many. Bytes of the buffer beyond the declared comment
    are dropped. *)
Theorem read_eocd_decodes_the_record (img : image) (a : archive)
    (file_size k : Z)
    (Hopen : buf a = Some img) (Hgood : stream_failed a = false)
    (Hsize : img_size img = file_size) :
  let n := eocd_window_len file_size in
  let window := img_bytes img (file_size - n) n in
  let a1 := with_reads ((file_size - n, n) :: reads a)
              (with_buf (Some img) file_size a) in
  let p := drop (Z.to_nat (n - k - 22)) window in
  let count := get_uint16 (drop 10 p) in
  let comment_length := get_uint16 (drop 20 p) in
  0 <= k <= n - 22 ->
  eocd_signature_at window n k ->
  (forall j, 0 <= j < k -> ~ eocd_signature_at window n j) ->
  (Exists (fun b => u8 b <> 0) (take 4 (drop 4 p)) ->
   read_eocd file_size a
   = (Throw (out_of_range "multipart zipfiles are not supported"), a1))
  /\ (Forall (fun b => u8 b = 0) (take 4 (drop 4 p)) ->
      comment_length <= k ->
      read_eocd file_size a
      = (Ok (get_uint32 (drop 16 p)),
         with_comment (Some (take (Z.to_nat comment_length) (drop 22 p)))
           (with_files (Some (replicate (Z.to_nat count) file_zero))
              (with_file_count count a1)))).
Proof.
  intros n window a1 p count comment_length Hk Hsig Hfirst.
  rewrite (read_eocd_found img a file_size k Hopen Hgood Hsize Hk Hsig Hfirst).
  fold n. fold window. fold a1. fold p.
  unfold eocd_decode. split.
  - intros Hex.
    assert (Hb : forallb (fun b => u8 b =? 0) (take 4 (drop 4 p)) = false).
    { apply not_true_is_false. intros Hall.
      rewrite forallb_forall in Hall. apply Exists_exists in Hex.
      destruct Hex as (b & Hin & Hb). apply Hb. apply Z.eqb_eq.
      apply Hall. apply list_elem_of_In. exact Hin. }
    rewrite Hb. reflexivity.
  - intros Hall Hlen.
    assert (Hb : forallb (fun b => u8 b =? 0) (take 4 (drop 4 p)) = true).
    { apply forallb_forall. intros b Hin. apply Z.eqb_eq.
      rewrite Forall_forall in Hall. apply Hall.
      apply list_elem_of_In. exact Hin. }
    rewrite Hb. cbn [negb].
    unfold bind, modify, ret. cbv beta iota.
    fold comment_length.
    destruct (Z.gtb_spec comment_length k); [lia|]. reflexivity.
Qed.

(** X16. When the record the scan stopped at declares a comment longer than
    the [k] bytes the buffer holds behind it, [read_eocd] does not refuse
    the file: it builds the comment from [p + 22] up to [p + 22 +
    comment_length], past the end of the buffer it allocated. *)
Theorem read_eocd_comment_overrun (img : image) (a : archive)
    (file_size k : Z)
    (Hopen : buf a = Some img) (Hgood : stream_failed a = false)
    (Hsize : img_size img = file_size) :
  let n := eocd_window_len file_size in
  let window := img_bytes img (file_size - n) n in
  let p := drop (Z.to_nat (n - k - 22)) window in
  0 <= k <= n - 22 ->
  eocd_signature_at window n k ->
  (forall j, 0 <= j < k -> ~ eocd_signature_at window n j) ->
  Forall (fun b => u8 b = 0) (take 4 (drop 4 p)) ->
  k < get_uint16 (drop 20 p) ->
  fst (read_eocd file_size a) = Crash undefined_behaviour.
Proof.
  intros n window p Hk Hsig Hfirst Hall Hlen.
  rewrite (read_eocd_found img a file_size k Hopen Hgood Hsize Hk Hsig Hfirst).
  fold n. fold window. fold p.
  unfold eocd_decode.
  assert (Hb : forallb (fun b => u8 b =? 0) (take 4 (drop 4 p)) = true).
  { apply forallb_forall. intros b Hin. apply Z.eqb_eq.
    rewrite Forall_forall in Hall. apply Hall.
    apply list_elem_of_In. exact Hin. }
  rewrite Hb. cbn [negb].
  unfold bind, modify, abort. cbv beta iota.
  destruct (Z.gtb_spec (get_uint16 (drop 20 p)) k); [reflexivity|lia].
Qed.

(** ** Reading a stored entry *)



Lemma img_bytes_nil (img : image) (off : Z) : img_bytes img off 0 = [].
Proof. reflexivity. Qed.




(** X18. [tellg] on a stored stream, that is [seekoff(0, cur)], is computed
    from [cur_pos], which runs ahead of the reader by what the get area
    still holds: after the first character of an entry of [size] bytes has
    been read it answers [min(size, 4096)], the end of the chunk fetched,
    not 1. *)
Theorem stored_tellg_is_the_end_of_the_chunk (img : image) (a : archive)
    (start size : Z)
    (Hready : stream_ready img a) (H32 : img_size img <= 0xFFFFFFFF)
    (Hstart : 0 <= start) (Hsize : 0 < size)
    (Hfit : start + size <= img_size img)
    (Hsync : synced_at start a) :
  exists b s1,
    sbumpc 0 (stored_data_streambuf.make start (start + size), a)
    = (Ok (Some b), s1)
    /\ stored_data_streambuf.seekoff 0 stored_data_streambuf.cur s1
       = (Ok (Z.min size 4096), s1).
Proof.
  set (amount := if u32 (start + size - start) >? 4096 then 4096
                 else u32 (start + size - start)).
  assert (Hu : u32 (start + size - start) = size)
    by (unfold u32; replace (start + size - start) with size by lia;
        apply Z.mod_small; lia).
  assert (Ham : amount = Z.min size 4096).
  { unfold amount. rewrite Hu. destruct (Z.gtb_spec size 4096); lia. }
  assert (Hlen : Z.of_nat (length (img_bytes img start amount)) = amount)
    by (apply img_bytes_length; lia).
  destruct (img_bytes img start amount) as [|b chunk] eqn:Hchunk;
    [simpl in Hlen; lia|].
  exists b. eexists.
  cbv beta iota delta [sbumpc uflow bind get_sb in_avail_pos ret
    area underflow stored_streambuf stored_data_streambuf.underflow
    stored_data_streambuf.make].
  cbn [fst snd stored_data_streambuf.garea stored_data_streambuf.cur_pos
    stored_data_streambuf.end_pos no_get_area ga_next ga_bytes length].
  change (0 <? Z.of_nat 0) with false. cbv beta iota.
  cbn [fst snd stored_data_streambuf.garea stored_data_streambuf.cur_pos
    stored_data_streambuf.end_pos].
  destruct (Z.eqb_spec start (start + size)) as [|_]; [lia|].
  cbv beta iota. unfold lift_tez.
  cbn [fst snd stored_data_streambuf.garea stored_data_streambuf.cur_pos
    stored_data_streambuf.end_pos].
  fold amount.
  rewrite (read_for_file_ok img a start amount Hready Hsync) by lia.
  rewrite Hchunk.
  cbv beta iota delta [bind modify_sb ret deref_gptr gbump1 get_sb abort
    area setg stored_streambuf].
  cbn [fst snd stored_data_streambuf.garea stored_data_streambuf.with_garea
    stored_data_streambuf.with_cur_pos ga_next ga_bytes length nth Z.to_nat].
  assert (Hpos : (0 <? Z.of_nat (S (length chunk))) = true)
    by (apply Z.ltb_lt; lia).
  rewrite Hpos.
  cbn [Z.leb Z.compare andb fst snd stored_data_streambuf.garea
    stored_data_streambuf.with_garea stored_data_streambuf.with_cur_pos
    ga_next ga_bytes].
  split; [reflexivity|].
  unfold stored_data_streambuf.seekoff, stored_data_streambuf.seekpos,
    bind, get_sb, modify_sb, ret.
  cbn [fst snd stored_data_streambuf.cur_pos stored_data_streambuf.start_pos
    stored_data_streambuf.end_pos stored_data_streambuf.with_cur_pos
    stored_data_streambuf.with_garea stored_data_streambuf.garea].
  assert (Hcur : u32 (start + amount) = start + amount)
    by (unfold u32; apply Z.mod_small; lia).
  rewrite Hcur, Hu.
  replace (start + amount - start) with amount by lia.
  assert (Hua : u32 amount = amount) by (unfold u32; apply Z.mod_small; lia).
  rewrite Hua, !Z.add_0_l.
  destruct (Z.ltb_spec amount 0); [lia|].
  destruct (Z.gtb_spec amount size); [lia|].
  rewrite Hcur, <- Ham. reflexivity.
Qed.

(** ** The deflated stream: positions and errors *)




(** ** The deflated stream: a decoder that has finished too early *)

Lemma read_for_file_nothing (img : image) (a : archive) (offset : Z) :
  stream_ready img a -> 0 <= offset ->
  exists a', read_for_file offset 0 a = (Ok [], a') /\ stream_ready img a'.
Proof.
  intros (Hopen & Hgood) Hoff. unfold read_for_file.
  step. unfold get_state. step.
  assert (Hst : exists a0,
             (if negb (streampos a =? offset) then stream_seekg offset
              else ret tt) a = (Ok tt, a0)
             /\ buf a0 = Some img /\ stream_failed a0 = false).
  { destruct (negb _).
    - exists (with_buf (Some img) offset a).
      split; [exact (stream_seekg_ok a img offset Hopen Hgood Hoff)|].
      split; [reflexivity | exact Hgood].
    - exists a. repeat split; assumption. }
  destruct Hst as (a0 & -> & Hb0 & Hg0).
  step. unfold stream_read_exact. step. unfold stream_read.
  rewrite Hg0, Hb0. cbn [Z.eqb orb].
  change (img_bytes img (buf_pos a0) 0) with (@nil byte).
  unfold bind, modify, ret, assert_that. cbn [length Z.of_nat Z.eqb].
  eexists. split; [reflexivity|]. split; [reflexivity | exact Hg0].
Qed.

Lemma stalled_refill (zl : zlib) (img : image) (fuel : nat) :
  forall s : deflated_streambuf.t zl * archive,
    stalled zl img s ->
    fst (deflated_streambuf.refill zl fuel s) = Crash fuel_exhausted.
Proof.
  induction fuel as [|fuel IH]; intros [sb a] Hst; [reflexivity|].
  destruct Hst as (Hfin & Hcase). cbn [fst snd] in Hfin, Hcase.
  cbn [deflated_streambuf.refill].
  assert (Hnext : forall (sb1 : deflated_streambuf.t zl) (a1 : archive),
            deflated_streambuf.zs zl sb1 = deflated_streambuf.zs zl sb ->
            stalled zl img
              (deflated_streambuf.with_pending_in zl
                 (deflated_streambuf.pending_in zl sb1)
                 (deflated_streambuf.with_zs zl (deflated_streambuf.zs zl sb)
                    sb1), a1) ->
            fst ((r <- deflated_streambuf.call_inflate zl ;;
                  if negb (ir_ret r =? Z_OK) && negb (ir_ret r =? Z_STREAM_END)
                  then throw (runtime_error "zlib error")
                  else if bool_decide (ir_produced r = [])
                       then deflated_streambuf.refill zl fuel
                       else ret (ir_produced r)) (sb1, a1))
            = Crash fuel_exhausted).
  { intros sb1 a1 Hzs Hst1.
    unfold bind at 1. unfold deflated_streambuf.call_inflate.
    unfold bind, get_sb, modify_sb, ret. cbn [fst snd].
    cbn [deflated_streambuf.zs deflated_streambuf.pending_in
      deflated_streambuf.with_zs deflated_streambuf.with_pending_in].
    rewrite Hzs, Hfin.
    cbn [ir_ret ir_state ir_consumed ir_produced drop].
    change (Z_STREAM_END =? Z_OK) with false.
    change (Z_STREAM_END =? Z_STREAM_END) with true.
    cbn [negb andb]. rewrite bool_decide_eq_true_2 by reflexivity.
    apply IH. exact Hst1. }
  unfold bind at 1. unfold deflated_streambuf.fill_input.
  unfold bind at 1. unfold get_sb at 1. cbn [fst snd].
  destruct Hcase as [Hpending | (Hnil & Hcur & Hrange & Hready)].
  - rewrite bool_decide_eq_false_2 by exact Hpending.
    unfold ret at 1. cbv beta iota.
    apply Hnext; [reflexivity|].
    split; [exact Hfin|]. left. exact Hpending.
  - rewrite bool_decide_eq_true_2 by exact Hnil.
    rewrite Hcur, Z.sub_diag. change (u32 0) with 0.
    change (0 >? 4096) with false. cbv beta iota.
    unfold bind at 1. unfold lift_tez. cbn [fst snd].
    destruct (read_for_file_nothing img a
                (deflated_streambuf.in_end_pos zl sb) Hready)
      as (a' & Hread & Hready'); [lia|].
    rewrite Hread.
    unfold bind, modify_sb. cbn [fst snd].
    apply Hnext; [reflexivity|].
    split; [exact Hfin|]. right.
    cbn [fst snd deflated_streambuf.pending_in deflated_streambuf.in_cur_pos
      deflated_streambuf.in_end_pos deflated_streambuf.with_pending_in
      deflated_streambuf.with_zs deflated_streambuf.with_in_cur_pos].
    rewrite Z.add_0_r.
    assert (Hu : u32 (deflated_streambuf.in_end_pos zl sb)
                 = deflated_streambuf.in_end_pos zl sb)
      by (unfold u32; apply Z.mod_small; lia).
    rewrite Hu. repeat split; try lia. apply Hready'. apply Hready'.
Qed.

(** X22. A deflated entry whose declared [uncompressed_size] is larger than
    what its data decode to: once the decoder has reached the end of the
    compressed stream, with the output cursor still short of [out_end_pos],
    the next [underflow] calls [inflate] over and over, gets [Z_STREAM_END]
    and no output each time, and never leaves its loop: whatever the bound
    on the turns of the loop, it is reached. *)
Theorem deflated_underflow_spins_at_the_stream_end (zl : zlib) (img : image)
    (sb : deflated_streambuf.t zl) (a : archive) (fuel : nat)
    (Hstalled : stalled zl img (sb, a))
    (Hshort : deflated_streambuf.out_cur_pos zl sb
              <> deflated_streambuf.out_end_pos zl sb) :
  fst (underflow fuel (sb, a)) = Crash fuel_exhausted
  /\ (in_avail_pos sb = false ->
      fst (sbumpc fuel (sb, a)) = Crash fuel_exhausted).
Proof.
  assert (Hu : fst (deflated_streambuf.underflow zl fuel (sb, a))
               = Crash fuel_exhausted).
  { unfold deflated_streambuf.underflow.
    unfold bind at 1. unfold get_sb at 1. cbn [fst snd].
    destruct (Z.eqb_spec (deflated_streambuf.out_cur_pos zl sb)
                (deflated_streambuf.out_end_pos zl sb)); [contradiction|].
    unfold bind at 1.
    pose proof (stalled_refill zl img fuel (sb, a) Hstalled) as Hr.
    destruct (deflated_streambuf.refill zl fuel (sb, a)) as [[o|e|c] s1];
      simpl in Hr; try discriminate.
    injection Hr as ->. reflexivity. }
  split; [exact Hu|]. intros Hempty.
  unfold sbumpc. unfold bind at 1. unfold get_sb at 1. cbn [fst snd].
  rewrite Hempty. unfold uflow. unfold bind at 1.
  cbn [underflow deflated_streambuf_sb].
  destruct (deflated_streambuf.underflow zl fuel (sb, a)) as [[o|e|c] s1];
    simpl in Hu; try discriminate.
  injection Hu as ->. reflexivity.
Qed.

(** ** The container interface and the streams, at the examples *)

Lemma init_hello_run :
  init (Some (image_of zip_hello)) archive_new
  = (Ok tt, initialized zip_hello).
Proof. vm_compute. reflexivity. Qed.

Lemma init_duplicate_run :
  init (Some (image_of zip_duplicate)) archive_new
  = (Ok tt, initialized zip_duplicate).
Proof. vm_compute. reflexivity. Qed.

Lemma initialized_hello_ready :
  stream_ready (image_of zip_hello) (initialized zip_hello).
Proof. split; vm_compute; reflexivity. Qed.

(** [read_for_file] for the data of [a.txt] in [zip_hello]. *)
Lemma read_for_file_exact_witness :
  fst (read_for_file 35 5 (opened_at zip_hello 0 [])) = Ok (str "hello").
Proof.
  destruct (read_for_file_exact (image_of zip_hello)
              (opened_at zip_hello 0 []) 35 5) as (a' & Hrun & _).
  - split; reflexivity.
  - intros H. vm_compute in H. discriminate.
  - lia.
  - lia.
  - vm_compute. discriminate.
  - rewrite Hrun. vm_compute. reflexivity.
Defined.

(** Right after [init] on [zip_hello] the stream stands behind the local
    header, at 30, and [streampos] is still the 0 of the constructor: the
    first five bytes of the file, asked for through [read_for_file], come
    out as the five bytes at 30, the file name [a.txt]. *)
Lemma read_for_file_trusts_streampos_witness :
  streampos (initialized zip_hello) = 0
  /\ buf_pos (initialized zip_hello) = 30
  /\ img_bytes (image_of zip_hello) 0 5 <> str "a.txt"
  /\ fst (read_for_file 0 5 (initialized zip_hello)) = Ok (str "a.txt").
Proof.
  split; [vm_compute; reflexivity|]. split; [vm_compute; reflexivity|].
  split; [vm_compute; discriminate|].
  destruct (read_for_file_trusts_streampos (image_of zip_hello)
              (initialized zip_hello) 0 5) as (a' & Hrun & _).
  - exact initialized_hello_ready.
  - vm_compute. reflexivity.
  - vm_compute. discriminate.
  - lia.
  - vm_compute. discriminate.
  - rewrite Hrun. vm_compute. reflexivity.
Defined.


(** [zip_hello] after [init]: one entry, at index 0. *)
Lemma init_makes_a_container_witness :
  container_ok (initialized zip_hello)
  /\ at_ (initialized zip_hello) 0 = Ok hello_entry
  /\ at_ (initialized zip_hello) 1 = Throw index_out_of_range.
Proof.
  destruct (init_makes_a_container _ _ _ init_hello_run)
    as (Hok & Hin & Hout & _).
  split; [exact Hok|]. split.
  - vm_compute. reflexivity.
  - apply Hout. vm_compute. intros [_ H]. discriminate H.
Defined.

(** [a.txt] is found in [zip_hello] after [init]. *)
Lemma find_agrees_with_lookup_by_name_witness :
  find (initialized zip_hello) (str "a.txt") = 0
  /\ subscript_name (initialized zip_hello) (str "a.txt") = Ok hello_entry.
Proof.
  destruct (find_agrees_with_lookup_by_name _ _ _ (str "a.txt")
              init_hello_run) as (_ & Hfound).
  assert (Hfind : find (initialized zip_hello) (str "a.txt") = 0)
    by (vm_compute; reflexivity).
  split; [exact Hfind|].
  destruct Hfound as (_ & f & Hf & Hat).
  - rewrite Hfind. vm_compute. discriminate.
  - rewrite Hf. rewrite Hfind in Hat.
    assert (H0 : at_ (initialized zip_hello) 0 = Ok hello_entry)
      by (vm_compute; reflexivity).
    rewrite H0 in Hat. symmetry. exact Hat.
Defined.

(** A name no record of [zip_hello] carries. *)
Example find_of_a_missing_name :
  find (initialized zip_hello) (str "b.txt") = end_ (initialized zip_hello)
  /\ subscript_name (initialized zip_hello) (str "b.txt")
     = Throw index_out_of_range.
Proof. split; vm_compute; reflexivity. Qed.

Lemma init_entries_have_supported_method_witness :
  f_method hello_entry = 0
  /\ exists sb, open stored_zlib hello_entry = Ok (stored_stream sb).
Proof.
  destruct (init_entries_have_supported_method stored_zlib _ _ _ 0
              hello_entry init_hello_run) as (_ & _ & Hstored).
  - vm_compute. reflexivity.
  - split; [reflexivity|].
    destruct (Hstored eq_refl) as (Hsame & _). apply Hsame. reflexivity.
Defined.

Lemma lookup_by_name_gives_that_name_witness :
  get_filename hello_entry = Ok (str "a.txt").
Proof.
  apply (lookup_by_name_gives_that_name _ _ _ (str "a.txt") hello_entry
           init_hello_run).
  vm_compute. reflexivity.
Defined.

(** The second record of [zip_duplicate] repeats the name of the first:
    after [init] its entry has no file name. *)
Lemma entry_is_named_or_shadowed_witness :
  at_ (initialized zip_duplicate) 1 = Ok shadowed_entry
  /\ get_filename shadowed_entry = Crash undefined_behaviour
  /\ is_directory shadowed_entry = Crash undefined_behaviour.
Proof.
  assert (Hat : at_ (initialized zip_duplicate) 1 = Ok shadowed_entry)
    by (vm_compute; reflexivity).
  split; [exact Hat|].
  destruct (entry_is_named_or_shadowed _ _ _ 1 shadowed_entry
              init_duplicate_run Hat) as [(name & Hname & _) | (H1 & H2 & _)].
  - vm_compute in Hname. discriminate.
  - split; assumption.
Defined.

(** The end-of-central-directory record of [zip_hello] stands 4 bytes
    before the end of the file. *)
Lemma read_eocd_decodes_the_record_witness :
  fst (read_eocd 119 (opened_at zip_hello 0 [])) = Ok 40
  /\ comment (snd (read_eocd 119 (opened_at zip_hello 0 [])))
     = Some (str "ARCH")
  /\ files (snd (read_eocd 119 (opened_at zip_hello 0 [])))
     = Some [file_zero].
Proof.
  destruct (read_eocd_decodes_the_record (image_of zip_hello)
              (opened_at zip_hello 0 []) 119 4 eq_refl eq_refl eq_refl)
    as (_ & Hok).
  - vm_compute. split; discriminate.
  - vm_compute. reflexivity.
  - intros j Hj.
    assert (Hcases : j = 0 \/ j = 1 \/ j = 2 \/ j = 3) by lia.
    destruct Hcases as [-> | [-> | [-> | ->]]]; vm_compute; discriminate.
  - rewrite Hok.
    + repeat split; vm_compute; reflexivity.
    + vm_compute. repeat constructor.
    + vm_compute. discriminate.
Defined.

(** A file that ends in a record whose comment-length field says 5. *)
Lemma read_eocd_comment_overrun_witness :
  fst (read_eocd 22 (opened_at zip_comment_overrun 0 []))
  = Crash undefined_behaviour
  /\ fst (init (Some (image_of zip_comment_overrun)) archive_new)
     = Crash undefined_behaviour.
Proof.
  split; [|vm_compute; reflexivity].
  apply (read_eocd_comment_overrun (image_of zip_comment_overrun)
           (opened_at zip_comment_overrun 0 []) 22 0 eq_refl eq_refl eq_refl).
  - vm_compute. split; discriminate.
  - vm_compute. reflexivity.
  - intros j Hj. lia.
  - vm_compute. repeat constructor.
  - vm_compute. reflexivity.
Defined.


(** One character read from the stored entry of [zip_hello]: [tellg]
    says 5. *)
Lemma stored_tellg_is_the_end_of_the_chunk_witness :
  exists b s1,
    sbumpc 0 (hello_stream, initialized zip_hello) = (Ok (Some b), s1)
    /\ stored_data_streambuf.seekoff 0 stored_data_streambuf.cur s1
       = (Ok 5, s1).
Proof.
  destruct (stored_tellg_is_the_end_of_the_chunk (image_of zip_hello)
              (initialized zip_hello) 35 5)
    as (b & s1 & Hget & Htell).
  - exact initialized_hello_ready.
  - vm_compute. discriminate.
  - lia.
  - lia.
  - vm_compute. discriminate.
  - intros H. vm_compute in H. discriminate.
  - exists b, s1. split; [exact Hget | exact Htell].
Defined.




(** [zip_hello_oversized] declares 6 bytes for an entry that decodes to 5:
    the five come, and the read of a sixth does not come back. *)
Lemma deflated_underflow_spins_at_the_stream_end_witness :
  let s0 := (hello_oversized_stream, initialized zip_hello_oversized) in
  fst (init (Some (image_of zip_hello_oversized)) archive_new) = Ok tt
  /\ fst (read_n 4 5 s0) = Ok (str "hello")
  /\ forall fuel, fst (sbumpc fuel (after_reading 5 s0)) = Crash fuel_exhausted.
Proof.
  intros s0.
  split; [vm_compute; reflexivity|]. split; [vm_compute; reflexivity|].
  intros fuel.
  assert (Hz : deflated_streambuf.zs stored_zlib (fst (after_reading 5 s0))
               = done) by (vm_compute; reflexivity).
  assert (Hin : deflated_streambuf.pending_in stored_zlib
                  (fst (after_reading 5 s0)) = [])
    by (vm_compute; reflexivity).
  assert (Hpos : deflated_streambuf.in_cur_pos stored_zlib
                   (fst (after_reading 5 s0)) = 45)
    by (vm_compute; reflexivity).
  assert (Hend : deflated_streambuf.in_end_pos stored_zlib
                   (fst (after_reading 5 s0)) = 45)
    by (vm_compute; reflexivity).
  assert (Hcur : deflated_streambuf.out_cur_pos stored_zlib
                   (fst (after_reading 5 s0)) = 5)
    by (vm_compute; reflexivity).
  assert (Hout : deflated_streambuf.out_end_pos stored_zlib
                   (fst (after_reading 5 s0)) = 6)
    by (vm_compute; reflexivity).
  assert (Hbuf : buf (snd (after_reading 5 s0))
                 = Some (image_of zip_hello_oversized))
    by (vm_compute; reflexivity).
  assert (Hgood : stream_failed (snd (after_reading 5 s0)) = false)
    by (vm_compute; reflexivity).
  assert (Hempty : in_avail_pos (fst (after_reading 5 s0)) = false)
    by (vm_compute; reflexivity).
  destruct (after_reading 5 s0) as [sb a].
  cbn [fst snd] in Hz, Hin, Hpos, Hend, Hcur, Hout, Hbuf, Hgood, Hempty.
  destruct (deflated_underflow_spins_at_the_stream_end stored_zlib
              (image_of zip_hello_oversized) sb a fuel) as (_ & Hspin).
  - split.
    + intros input room. cbn [fst]. rewrite Hz. destruct input; reflexivity.
    + right. cbn [fst snd]. rewrite Hin, Hpos, Hend.
      split; [reflexivity|]. split; [reflexivity|].
      split; [lia|]. split; assumption.
  - rewrite Hcur, Hout. discriminate.
  - apply Hspin. exact Hempty.
Defined.
